(** * Streaming hash accumulator over the APM32F4 HASH peripheral

    A shallow embedding of [hardware/apm32f4xx/apm32f4xx_crypto_hash.c]
    ([hashProcessData], [md5Update], [sha1Update], [md5ProcessBlock],
    [sha1ProcessBlock]) and of [hardware/msp432e4/msp432e4_crypto.c]
    ([msp432e4CryptoInit]).

    The driver code is written in a small state-and-fault monad over a
    machine made of the crypto mutex, the memory-mapped HASH peripheral and
    the log of every mutex operation and register access.  The peripheral
    itself is hardware: it is described by a reference model that is generic
    in the compression function.

    The properties proved are: what one invocation of the block engine
    does to the registers and in which order; the buffer invariant, the
    byte count, the branches and the termination of the update loop; the
    independence of a session from the way its input is cut into chunks;
    the absence of a lockout after finalization; the result of the
    initialization of the MSP432E4 accelerator; and the mutual exclusion
    of concurrent invocations of the engine.  They are followed by further
    properties of the same functions: the input order, the result, the
    composition and the register frame of one invocation, the single-block
    functions, the cost and the result of an update, the independence of
    a session from the state the peripheral was left in, and the
    successful path of the initialization. *)

From Stdlib Require Import ZArith Lia Bool.
From stdpp Require Import base tactics list.

Open Scope Z_scope.

(** ** Machine integers *)

(** [size_t] on the Cortex-M4 targets of the driver is 32 bits wide,
    [uint64_t] is 64 bits wide.  Arithmetic on them wraps. *)
Definition size_t (x : Z) : Z := x mod 2 ^ 32.
Definition uint64_t (x : Z) : Z := x mod 2 ^ 64.

(** [MIN(a, b)] of [os_port.h]. *)
Definition MIN (a b : Z) : Z := if a <? b then a else b.

(** Digest sizes in bytes, from [hash/md5.h] and [hash/sha1.h]. *)
Definition MD5_DIGEST_SIZE : Z := 16.
Definition SHA1_DIGEST_SIZE : Z := 20.

(** ** Platform parameters

    The register bit masks come from the vendor header [apm32f4xx.h] and
    from [apm32f4xx_crypto_hash.h]; neither is part of the driver sources,
    so the masks are parameters.  [compress] is the compression function the
    peripheral applies to one 16-word block: it receives the value of the
    control register (which selects the algorithm), the eight words of the
    current-state bank and the block.  [latency] is the number of status
    polls during which the peripheral reports BUSY after a block has been
    triggered. *)
Class Platform := {
  HASH_CTRL_DTYPE_8B : Z;
  HASH_CTRL_INITCAL : Z;
  HASH_CTRL_ALGSEL_MD5 : Z;
  HASH_CTRL_ALGSEL_SHA1 : Z;
  HASH_STS_BUSY : Z;
  compress : Z -> list Z -> list Z -> list Z;
  latency : nat
}.

(** ** The machine *)

(** Registers of [HASH_TypeDef] touched by the driver. *)
Inductive Reg : Type :=
| R_CTRL
| R_INDATA
| R_STS
| R_CTSWAP (k : nat).

(** One entry of the access log. *)
Inductive Event : Type :=
| EvAcquire
| EvRelease
| EvWrite (r : Reg) (v : Z)
| EvRead (r : Reg) (v : Z).

(** Modelled from the spec: the HASH peripheral (section 4.3, BlockEngine
    contract) is hardware and has no source.  The model keeps the control
    register, the 54 context-swap registers, the words written to INDATA
    for the block being assembled, and a countdown for the BUSY flag. *)
Record HASH_TypeDef : Type := {
  CTRL : Z;
  CTSWAP : list Z;
  INFIFO : list Z;
  busy : nat
}.

Record Machine : Type := {
  apm32f4xxCryptoMutex : bool;      (* true when the mutex is held *)
  HASH : HASH_TypeDef;
  trace : list Event                (* oldest access first *)
}.

Inductive Fault : Type :=
| Deadlock          (* acquiring a mutex that is already held *)
| BufferOverflow    (* a copy that leaves the 64-byte buffer *)
| LoopBound.        (* an iteration bound of the model was reached *)

Inductive Outcome (A : Type) : Type :=
| Done (a : A) (m : Machine)
| Stuck (f : Fault).
Arguments Done {A} a m.
Arguments Stuck {A} f.

Definition M (A : Type) : Type := Machine -> Outcome A.

Definition ret {A} (a : A) : M A := fun m => Done a m.
Definition bind {A B} (c : M A) (k : A -> M B) : M B :=
  fun m => match c m with
           | Done a m' => k a m'
           | Stuck f => Stuck f
           end.
Definition stuck {A} (f : Fault) : M A := fun _ => Stuck f.

Declare Scope drv_scope.
Delimit Scope drv_scope with drv.
Notation "x <- c ;; k" := (bind c (fun x => k))
  (at level 100, c at next level, right associativity) : drv_scope.
Notation "c ;;; k" := (bind c (fun _ => k))
  (at level 100, right associativity) : drv_scope.
Open Scope drv_scope.

Section Driver.
Context {P : Platform}.

(** *** Reference model of the peripheral *)

(** The current-state bank is [CTSWAP[14..21]]. *)
Definition current_bank (regs : list Z) : list Z := take 8 (drop 14 regs).

(** Digest of one complete block: the current-state bank is replaced by
    its image under [compress]. *)
Definition digest (ctrl : Z) (regs : list Z) (block : list Z) : list Z :=
  list_inserts 14 (take 8 (compress ctrl (current_bank regs) block)) regs.

(** Effect of a register write.  Setting INITCAL starts a new calculation
    and empties the input FIFO.  Writing the first word of the next block
    makes the peripheral digest the complete block it holds (the driver's
    comment: partial digest computation is triggered each time the
    application writes the first word of the next block). *)
Definition hw_write (r : Reg) (v : Z) (hw : HASH_TypeDef) : HASH_TypeDef :=
  match r with
  | R_CTRL =>
      if Z.land v HASH_CTRL_INITCAL =? HASH_CTRL_INITCAL
      then {| CTRL := v; CTSWAP := CTSWAP hw; INFIFO := []; busy := 0 |}
      else {| CTRL := v; CTSWAP := CTSWAP hw; INFIFO := INFIFO hw; busy := busy hw |}
  | R_CTSWAP k =>
      {| CTRL := CTRL hw; CTSWAP := <[k := v]> (CTSWAP hw);
         INFIFO := INFIFO hw; busy := busy hw |}
  | R_INDATA =>
      if (length (INFIFO hw) =? 16)%nat
      then {| CTRL := CTRL hw; CTSWAP := digest (CTRL hw) (CTSWAP hw) (INFIFO hw);
              INFIFO := [v]; busy := latency |}
      else {| CTRL := CTRL hw; CTSWAP := CTSWAP hw;
              INFIFO := INFIFO hw ++ [v]; busy := busy hw |}
  | R_STS => hw
  end.

(** Effect and result of a register read.  Each poll of the status
    register lets one unit of the BUSY countdown elapse. *)
Definition hw_read (r : Reg) (hw : HASH_TypeDef) : Z * HASH_TypeDef :=
  match r with
  | R_CTRL => (CTRL hw, hw)
  | R_CTSWAP k => (nth k (CTSWAP hw) 0, hw)
  | R_INDATA => (0, hw)
  | R_STS =>
      match busy hw with
      | O => (0, hw)
      | S b => (HASH_STS_BUSY,
                {| CTRL := CTRL hw; CTSWAP := CTSWAP hw;
                   INFIFO := INFIFO hw; busy := b |})
      end
  end.

(** *** Primitive operations of the driver *)

(** Modelled from the spec: [osAcquireMutex] and [osReleaseMutex] belong to
    the OS port, which is not part of the driver sources.  Section 4.2:
    acquire blocks until no other context holds the lock, the protocol is
    not reentrant; release makes the lock available.  In a sequential run
    an acquire of a held mutex blocks for ever. *)
Definition osAcquireMutex : M unit :=
  fun m => if apm32f4xxCryptoMutex m then Stuck Deadlock
           else Done tt {| apm32f4xxCryptoMutex := true; HASH := HASH m;
                           trace := trace m ++ [EvAcquire] |}.

Definition osReleaseMutex : M unit :=
  fun m => Done tt {| apm32f4xxCryptoMutex := false; HASH := HASH m;
                      trace := trace m ++ [EvRelease] |}.

Definition reg_write (r : Reg) (v : Z) : M unit :=
  fun m => Done tt {| apm32f4xxCryptoMutex := apm32f4xxCryptoMutex m;
                      HASH := hw_write r v (HASH m);
                      trace := trace m ++ [EvWrite r v] |}.

Definition reg_read (r : Reg) : M Z :=
  fun m => let '(v, hw) := hw_read r (HASH m) in
           Done v {| apm32f4xxCryptoMutex := apm32f4xxCryptoMutex m;
                     HASH := hw;
                     trace := trace m ++ [EvRead r v] |}.

(** [__UNALIGNED_UINT32_READ(p)]: the little-endian word at [p]. *)
Definition __UNALIGNED_UINT32_READ (p : list Z) : Z :=
  Z.lor (Z.lor (Z.lor (nth 0 p 0) (Z.shiftl (nth 1 p 0) 8))
               (Z.shiftl (nth 2 p 0) 16))
        (Z.shiftl (nth 3 p 0) 24).

(** [while((HASH->STS & HASH_STS_BUSY) != 0) {}].  The bound on the number
    of polls is the peripheral's own countdown, see [wait_BUSY]. *)
Fixpoint poll_BUSY (fuel : nat) : M unit :=
  sts <- reg_read R_STS ;;
  if Z.land sts HASH_STS_BUSY =? 0 then ret tt
  else match fuel with
       | O => stuck LoopBound
       | S fuel' => poll_BUSY fuel'
       end.

Definition wait_BUSY : M unit :=
  fun m => poll_BUSY (busy (HASH m)) m.

(** *** [hashProcessData] *)

(** [for(i = 0; i < hLen; i++) { CTSWAP[6 + i] = h[i]; CTSWAP[14 + i] = h[i]; }]
    with [n] iterations left. *)
Fixpoint restore_hash (n : nat) (i : nat) (h : list Z) : M unit :=
  match n with
  | O => ret tt
  | S n' =>
      reg_write (R_CTSWAP (6 + i)) (nth i h 0) ;;;
      reg_write (R_CTSWAP (14 + i)) (nth i h 0) ;;;
      restore_hash n' (S i) h
  end.

(** The words of a block after the first one: offsets 4, 8, ..., 60. *)
Fixpoint write_rest (k : nat) (p : list Z) : M unit :=
  match k with
  | O => ret tt
  | S k' =>
      reg_write R_INDATA (__UNALIGNED_UINT32_READ p) ;;;
      write_rest k' (drop 4 p)
  end.

(** [while(length >= 64) { ...; data += 64; length -= 64; }] *)
Fixpoint feed_blocks (fuel : nat) (data : list Z) (len : Z) : M unit :=
  if 64 <=? len then
    match fuel with
    | O => stuck LoopBound
    | S fuel' =>
        reg_write R_INDATA (__UNALIGNED_UINT32_READ data) ;;;
        wait_BUSY ;;;
        write_rest 15 (drop 4 data) ;;;
        feed_blocks fuel' (drop 64 data) (len - 64)
    end
  else ret tt.

(** [for(i = 0; i < hLen; i++) { h[i] = CTSWAP[14 + i]; }] *)
Fixpoint save_hash (n : nat) (i : nat) (h : list Z) : M (list Z) :=
  match n with
  | O => ret h
  | S n' =>
      v <- reg_read (R_CTSWAP (14 + i)) ;;
      save_hash n' (S i) (<[i := v]> h)
  end.

Definition hashProcessData (algo : Z) (data : list Z) (len : Z)
    (h : list Z) (hLen : nat) : M (list Z) :=
  osAcquireMutex ;;;
  reg_write R_CTRL (Z.lor HASH_CTRL_DTYPE_8B algo) ;;;
  c <- reg_read R_CTRL ;;
  reg_write R_CTRL (Z.lor c HASH_CTRL_INITCAL) ;;;
  restore_hash hLen 0 h ;;;
  feed_blocks (Z.to_nat (len / 64)) data len ;;;
  reg_write R_INDATA 0 ;;;
  wait_BUSY ;;;
  h' <- save_hash hLen 0 h ;;
  osReleaseMutex ;;;
  ret h'.

(** *** The hash contexts *)

(** Modelled from the spec: [Md5Context] and [Sha1Context] are declared in
    [hash/md5.h] and [hash/sha1.h], which are not part of the driver
    sources.  Section 3 (Session): [state] is the field [h], [buffer] the
    64-byte block buffer, [bufferedCount] the field [size] (a [size_t]) and
    [totalLength] the field [totalSize] (a [uint64_t]).  The two structures
    differ only in the number of words of [h]. *)
Record HashContext : Type := {
  ctx_h : list Z;
  ctx_buffer : list Z;
  ctx_size : Z;
  ctx_totalSize : Z
}.

Definition Md5Context : Type := HashContext.
Definition Sha1Context : Type := HashContext.

(** [osMemcpy(context->buffer + off, src, n)].  The buffer is an array of
    64 bytes; a copy that would leave it has no defined result. *)
Definition osMemcpy (buffer : list Z) (off : Z) (src : list Z) (n : Z)
    : M (list Z) :=
  if (0 <=? off) && (0 <=? n) && (off + n <=? 64)
  then ret (list_inserts (Z.to_nat off) (take (Z.to_nat n) src) buffer)
  else stuck BufferOverflow.

(** *** [md5Update] and [sha1Update]

    The two functions have the same body; they differ in the algorithm
    selector and in the number of state words passed to [hashProcessData].
    [update_iteration] is one turn of the [while(length > 0)] loop: it
    returns the context and the data still to be processed (the data
    pointer advanced by [n], the length reduced by [n]). *)
Definition update_iteration (algo : Z) (hLen : nat)
    (context : HashContext) (data : list Z) : M (HashContext * list Z) :=
  let len := Z.of_nat (length data) in
  if (ctx_size context =? 0) && (64 <=? len) then
    let n := len - len mod 64 in
    h' <- hashProcessData algo data n (ctx_h context) hLen ;;
    ret ({| ctx_h := h';
            ctx_buffer := ctx_buffer context;
            ctx_size := ctx_size context;
            ctx_totalSize := uint64_t (ctx_totalSize context + n) |},
         drop (Z.to_nat n) data)
  else
    let n := MIN len (size_t (64 - ctx_size context)) in
    buffer' <- osMemcpy (ctx_buffer context) (ctx_size context) data n ;;
    let size' := size_t (ctx_size context + n) in
    let totalSize' := uint64_t (ctx_totalSize context + n) in
    if size' =? 64 then
      h' <- hashProcessData algo buffer' size' (ctx_h context) hLen ;;
      ret ({| ctx_h := h'; ctx_buffer := buffer'; ctx_size := 0;
              ctx_totalSize := totalSize' |},
           drop (Z.to_nat n) data)
    else
      ret ({| ctx_h := ctx_h context; ctx_buffer := buffer'; ctx_size := size';
              ctx_totalSize := totalSize' |},
           drop (Z.to_nat n) data).

(** [while(length > 0) { ... }] with a bound on the number of turns. *)
Fixpoint update_loop (fuel : nat) (algo : Z) (hLen : nat)
    (context : HashContext) (data : list Z) : M HashContext :=
  if 0 <? Z.of_nat (length data) then
    match fuel with
    | O => stuck LoopBound
    | S fuel' =>
        r <- update_iteration algo hLen context data ;;
        update_loop fuel' algo hLen r.1 r.2
    end
  else ret context.

Definition md5Update_fuel (fuel : nat) (context : Md5Context)
    (data : list Z) : M Md5Context :=
  update_loop fuel HASH_CTRL_ALGSEL_MD5 (Z.to_nat (MD5_DIGEST_SIZE / 4))
    context data.

Definition sha1Update_fuel (fuel : nat) (context : Sha1Context)
    (data : list Z) : M Sha1Context :=
  update_loop fuel HASH_CTRL_ALGSEL_SHA1 (Z.to_nat (SHA1_DIGEST_SIZE / 4))
    context data.

(** The functions themselves.  One more turn than there are bytes is
    always enough: the bound of [update_loop] is never reached. *)
Definition md5Update (context : Md5Context) (data : list Z) : M Md5Context :=
  md5Update_fuel (S (length data)) context data.

Definition sha1Update (context : Sha1Context) (data : list Z)
    : M Sha1Context :=
  sha1Update_fuel (S (length data)) context data.

Definition md5ProcessBlock (context : Md5Context) : M Md5Context :=
  h' <- hashProcessData HASH_CTRL_ALGSEL_MD5 (ctx_buffer context) 64
          (ctx_h context) (Z.to_nat (MD5_DIGEST_SIZE / 4)) ;;
  ret {| ctx_h := h'; ctx_buffer := ctx_buffer context;
         ctx_size := ctx_size context;
         ctx_totalSize := ctx_totalSize context |}.

Definition sha1ProcessBlock (context : Sha1Context) : M Sha1Context :=
  h' <- hashProcessData HASH_CTRL_ALGSEL_SHA1 (ctx_buffer context) 64
          (ctx_h context) (Z.to_nat (SHA1_DIGEST_SIZE / 4)) ;;
  ret {| ctx_h := h'; ctx_buffer := ctx_buffer context;
         ctx_size := ctx_size context;
         ctx_totalSize := ctx_totalSize context |}.

End Driver.

(** ** A concrete platform for running the model *)

(** Register masks of the STM32F4-compatible HASH peripheral, and a toy
    compression function that mixes the control value and the block into
    every state word. *)
Definition toy_compress (ctrl : Z) (st : list Z) (block : list Z) : list Z :=
  map (fun x => (3 * x + ctrl + foldr Z.add 0 block) mod 2 ^ 32) st.

Definition toy_platform : Platform := {|
  HASH_CTRL_DTYPE_8B := 32;
  HASH_CTRL_INITCAL := 4;
  HASH_CTRL_ALGSEL_MD5 := 128;
  HASH_CTRL_ALGSEL_SHA1 := 0;
  HASH_STS_BUSY := 8;
  compress := toy_compress;
  latency := 2
|}.

Definition idle_machine : Machine := {|
  apm32f4xxCryptoMutex := false;
  HASH := {| CTRL := 0; CTSWAP := replicate 54 0; INFIFO := []; busy := 0 |};
  trace := []
|}.

Definition demo_context : HashContext := {|
  ctx_h := [1; 2; 3; 4];
  ctx_buffer := replicate 64 0;
  ctx_size := 0;
  ctx_totalSize := 0
|}.

(** ** What one invocation of the block engine does *)

Section Engine.
Context {P : Platform}.

(** The register file after the restore loop. *)
Fixpoint restore_regs (n : nat) (i : nat) (h : list Z) (regs : list Z)
    : list Z :=
  match n with
  | O => regs
  | S n' =>
      restore_regs n' (S i) h
        (<[(14 + i)%nat := nth i h 0]> (<[(6 + i)%nat := nth i h 0]> regs))
  end.

(** The accesses of the restore loop. *)
Fixpoint restore_events (n : nat) (i : nat) (h : list Z) : list Event :=
  match n with
  | O => []
  | S n' =>
      EvWrite (R_CTSWAP (6 + i)) (nth i h 0)
        :: EvWrite (R_CTSWAP (14 + i)) (nth i h 0)
        :: restore_events n' (S i) h
  end.

(** The intermediate hash value after the save loop. *)
Fixpoint save_regs (n : nat) (i : nat) (h : list Z) (regs : list Z)
    : list Z :=
  match n with
  | O => h
  | S n' => save_regs n' (S i) (<[i := nth (14 + i) regs 0]> h) regs
  end.

(** The accesses of the save loop. *)
Fixpoint save_events (n : nat) (i : nat) (regs : list Z) : list Event :=
  match n with
  | O => []
  | S n' =>
      EvRead (R_CTSWAP (14 + i)) (nth (14 + i) regs 0)
        :: save_events n' (S i) regs
  end.

(** The [k] little-endian words at [p]; [words 16 p] is one block. *)
Fixpoint words (k : nat) (p : list Z) : list Z :=
  match k with
  | O => []
  | S k' => __UNALIGNED_UINT32_READ p :: words k' (drop 4 p)
  end.

(** The first [n] blocks at [data]. *)
Fixpoint data_blocks (n : nat) (data : list Z) : list (list Z) :=
  match n with
  | O => []
  | S n' => words 16 data :: data_blocks n' (drop 64 data)
  end.

(** The value of the control register during a run. *)
Definition run_ctrl (algo : Z) : Z :=
  Z.lor (Z.lor HASH_CTRL_DTYPE_8B algo) HASH_CTRL_INITCAL.

(** Accesses of the input phase: words pushed to INDATA and status polls. *)
Definition is_input_event (e : Event) : bool :=
  match e with
  | EvWrite R_INDATA _ => true
  | EvRead R_STS _ => true
  | _ => false
  end.

Definition is_mutex_event (e : Event) : bool :=
  match e with
  | EvAcquire | EvRelease => true
  | _ => false
  end.

(** A machine from its components. *)
Definition mk (mx : bool) (c : Z) (regs fifo : list Z) (b : nat)
    (tr : list Event) : Machine :=
  {| apm32f4xxCryptoMutex := mx;
     HASH := {| CTRL := c; CTSWAP := regs; INFIFO := fifo; busy := b |};
     trace := tr |}.

(** The register file as it will be once the block held in the FIFO has
    been digested. *)
Definition pending_regs (c : Z) (regs fifo : list Z) : list Z :=
  if (length fifo =? 16)%nat then digest c regs fifo else regs.

Definition fifo_ready (fifo : list Z) : Prop :=
  fifo = [] \/ length fifo = 16%nat.

(** The register file at the end of a run: the restored state, advanced by
    every block in order. *)
Definition run_regs (algo : Z) (data : list Z) (len : Z) (h : list Z)
    (hLen : nat) (regs : list Z) : list Z :=
  foldl (digest (run_ctrl algo)) (restore_regs hLen 0 h regs)
    (data_blocks (Z.to_nat (len / 64)) data).

(** The accesses of one invocation, with [mid] the accesses of the input
    phase. *)
Definition run_events (algo : Z) (h : list Z) (hLen : nat)
    (mid : list Event) (regs' : list Z) : list Event :=
  [EvAcquire;
   EvWrite R_CTRL (Z.lor HASH_CTRL_DTYPE_8B algo);
   EvRead R_CTRL (Z.lor HASH_CTRL_DTYPE_8B algo);
   EvWrite R_CTRL (run_ctrl algo)]
  ++ restore_events hLen 0 h
  ++ mid
  ++ save_events hLen 0 regs'
  ++ [EvRelease].

End Engine.

(** ** One turn of the update loop *)

Section Iteration.
Context {P : Platform}.

Definition buffered (context : HashContext) (buffer' : list Z) (size' : Z)
    (n : Z) : HashContext :=
  {| ctx_h := ctx_h context; ctx_buffer := buffer'; ctx_size := size';
     ctx_totalSize := uint64_t (ctx_totalSize context + n) |}.

Definition processed (context : HashContext) (h' buffer' : list Z)
    (size' : Z) (n : Z) : HashContext :=
  {| ctx_h := h'; ctx_buffer := buffer'; ctx_size := size';
     ctx_totalSize := uint64_t (ctx_totalSize context + n) |}.

End Iteration.

(** ** Counting engine invocations in the access log *)

(** Every invocation of [hashProcessData] starts by acquiring the mutex, so
    the number of acquisitions in the log is the number of invocations. *)
Fixpoint invocations (tr : list Event) : nat :=
  match tr with
  | [] => O
  | EvAcquire :: tr' => S (invocations tr')
  | _ :: tr' => invocations tr'
  end.

(** A sequence of update calls on one session. *)
Fixpoint update_calls (update : HashContext -> list Z -> M HashContext)
    (context : HashContext) (chunks : list (list Z)) : M HashContext :=
  match chunks with
  | [] => ret context
  | data :: chunks' =>
      context' <- update context data ;;
      update_calls update context' chunks'
  end.

(** The sum of the length arguments of a sequence of calls. *)
Definition total_length (chunks : list (list Z)) : Z :=
  foldr (fun data acc => Z.of_nat (length data) + acc) 0 chunks.

(** A session as the init functions leave it: nothing buffered, nothing
    counted. *)
Definition fresh (context : HashContext) : Prop :=
  ctx_size context = 0 /\ ctx_totalSize context = 0.

(** ** Concrete runs *)

(** The bytes 1, 2, ..., n. *)
Definition bytes (n : nat) : list Z := map (fun k => Z.of_nat k mod 256) (seq 1 n).

(** A session with 60 bytes in the buffer. *)
Definition nearly_full_context : HashContext := {|
  ctx_h := [1; 2; 3; 4];
  ctx_buffer := replicate 64 0;
  ctx_size := 60;
  ctx_totalSize := 60
|}.

(** A context that breaks the invariant: [size] is 64. *)
Definition overfull_context : HashContext := {|
  ctx_h := [1; 2; 3; 4];
  ctx_buffer := replicate 64 0;
  ctx_size := 64;
  ctx_totalSize := 64
|}.

(** A context that breaks the invariant further: [size] is 65. *)
Definition overrun_context : HashContext := {|
  ctx_h := [1; 2; 3; 4];
  ctx_buffer := replicate 64 0;
  ctx_size := 65;
  ctx_totalSize := 65
|}.

(** ** The stream of blocks seen by the engine *)

Section Stream.
Context {P : Platform}.

(** The registers from [CTSWAP[14]] on, advanced by one block. *)
Definition tail_step (c : Z) (t : list Z) (block : list Z) : list Z :=
  list_inserts 0 (take 8 (compress c (take 8 t) block)) t.

(** The registers from [CTSWAP[14]] on, after [h] has been restored. *)
Fixpoint seed_tail (n : nat) (i : nat) (h : list Z) (t : list Z) : list Z :=
  match n with
  | O => t
  | S n' => seed_tail n' (S i) h (<[i := nth i h 0]> t)
  end.

(** The engine state a session stands for: the current-state side of the
    register file with the session's [h] restored into it. *)
Definition engine_view (hLen : nat) (h : list Z) (regs : list Z) : list Z :=
  seed_tail hLen 0 h (drop 14 regs).

(** The number of complete 64-byte blocks of a byte sequence. *)
Definition nblocks (l : list Z) : nat := Z.to_nat (Z.of_nat (length l) / 64).

(** What a stream of bytes does to a session with engine state [t] and
    pending bytes [pend]: every complete block of the pending bytes
    followed by the data advances the engine state, the rest stays
    pending. *)
Definition stream_update (c : Z) (t : list Z) (pend data : list Z)
    : list Z * list Z :=
  (foldl (tail_step c) t (data_blocks (nblocks (pend ++ data)) (pend ++ data)),
   drop (64 * nblocks (pend ++ data)) (pend ++ data)).

(** The bytes held in the buffer. *)
Definition pending (context : HashContext) : list Z :=
  take (Z.to_nat (ctx_size context)) (ctx_buffer context).

(** Well-formed session on an idle machine: the mutex is free, the
    register file has its 54 registers, [h] has [hLen] words, the buffer
    has 64 bytes of which fewer than 64 are in use, and [totalSize] is a
    [uint64_t]. *)
Definition well_formed (hLen : nat) (context : HashContext) (m : Machine)
    : Prop :=
  apm32f4xxCryptoMutex m = false
  /\ length (CTSWAP (HASH m)) = 54%nat
  /\ length (ctx_h context) = hLen
  /\ (hLen <= 8)%nat
  /\ 0 <= ctx_size context < 64
  /\ length (ctx_buffer context) = 64%nat
  /\ 0 <= ctx_totalSize context < 2 ^ 64.

End Stream.

(** ** Chunk-size independence *)

(** Two sessions that stand for the same stream: same state words, same
    number of buffered bytes, same buffered bytes, same byte count.  The
    bytes of the buffer beyond [size] are left over from earlier blocks and
    are not part of the session. *)
Definition same_session (c1 c2 : HashContext) : Prop :=
  ctx_h c1 = ctx_h c2
  /\ ctx_size c1 = ctx_size c2
  /\ ctx_totalSize c1 = ctx_totalSize c2
  /\ pending c1 = pending c2.

(** A SHA-1 session. *)
Definition sha1_demo_context : HashContext := {|
  ctx_h := [1; 2; 3; 4; 5];
  ctx_buffer := replicate 64 0;
  ctx_size := 0;
  ctx_totalSize := 0
|}.

(** ** Finalization *)

(** The bytes of [x], least significant first. *)
Definition le_bytes (n : nat) (x : Z) : list Z :=
  map (fun k => Z.land (Z.shiftr x (8 * Z.of_nat k)) 255) (seq 0 n).

(** The padding: a byte 0x80 followed by zero bytes. *)
Definition padding : list Z := 128 :: replicate 63 0.

Section Final.
Context {P : Platform}.

(** Modelled from the spec: the finalizers [md5Final] and [sha1Final] are
    in [hash/md5.c] and [hash/sha1.c], which are not part of the driver
    sources.  Section 4.4: the finalizer pads the trailing partial block
    (the buffered bytes, then the padding up to 56 modulo 64, then the
    total length in bits in the byte order of the algorithm), which makes
    one or two final blocks, and passes them through the block engine as
    an update does; afterwards [h] holds the digest.  The context has no
    field that records that it was finalized. *)
Definition hashFinal (update : HashContext -> list Z -> M HashContext)
    (processBlock : HashContext -> M HashContext)
    (encode_length : Z -> list Z) (context : HashContext) : M HashContext :=
  let totalSize := uint64_t (ctx_totalSize context * 8) in
  let paddingSize := if ctx_size context <? 56
                     then 56 - ctx_size context
                     else 64 + 56 - ctx_size context in
  context' <- update context (take (Z.to_nat paddingSize) padding) ;;
  processBlock
    {| ctx_h := ctx_h context';
       ctx_buffer := list_inserts 56 (encode_length totalSize)
                       (ctx_buffer context');
       ctx_size := ctx_size context';
       ctx_totalSize := ctx_totalSize context' |}.

Definition md5Final (context : Md5Context) : M Md5Context :=
  hashFinal md5Update md5ProcessBlock (le_bytes 8) context.

Definition sha1Final (context : Sha1Context) : M Sha1Context :=
  hashFinal sha1Update sha1ProcessBlock (fun x => rev (le_bytes 8 x)) context.

End Final.

(** ** [msp432e4CryptoInit] *)

(** Modelled from the spec: the error codes are declared in [error.h],
    which is not part of the driver sources.  Section 7 names the failure
    of the creation of the lock; [NO_ERROR] is the zero code, so that
    [!error] holds exactly for it. *)
Inductive error_t : Type :=
| NO_ERROR
| ERROR_OUT_OF_RESOURCES.

Definition error_is_set (error : error_t) : bool :=
  match error with
  | NO_ERROR => false
  | ERROR_OUT_OF_RESOURCES => true
  end.

(** Calls made to the OS port and to the system-control driver. *)
Inductive Call : Type :=
| CallCreateMutex
| CallPeripheralEnable
| CallPeripheralReset
| CallPeripheralReady.

(** Modelled from the spec: the OS port and the system-control driver of
    the MSP432E4 are not part of the driver sources.  The board keeps how
    many mutexes the OS can still create (creation fails when none is
    left, the resource unavailability of section 7), whether the crypto
    mutex exists, the state of the CCM peripheral, for how many more polls
    the peripheral reports that it is not ready, and the calls made. *)
Record Board : Type := {
  os_mutexes_left : nat;
  msp432e4CryptoMutex : bool;
  ccm_enabled : bool;
  ccm_resets : nat;
  ccm_not_ready : nat;
  calls : list Call
}.

(** [osCreateMutex(&msp432e4CryptoMutex)]: [TRUE] on success. *)
Definition osCreateMutex (b : Board) : bool * Board :=
  match os_mutexes_left b with
  | O => (false,
          {| os_mutexes_left := O;
             msp432e4CryptoMutex := msp432e4CryptoMutex b;
             ccm_enabled := ccm_enabled b; ccm_resets := ccm_resets b;
             ccm_not_ready := ccm_not_ready b;
             calls := calls b ++ [CallCreateMutex] |})
  | S k => (true,
            {| os_mutexes_left := k;
               msp432e4CryptoMutex := true;
               ccm_enabled := ccm_enabled b; ccm_resets := ccm_resets b;
               ccm_not_ready := ccm_not_ready b;
               calls := calls b ++ [CallCreateMutex] |})
  end.

Definition SysCtlPeripheralEnable (b : Board) : Board :=
  {| os_mutexes_left := os_mutexes_left b;
     msp432e4CryptoMutex := msp432e4CryptoMutex b;
     ccm_enabled := true; ccm_resets := ccm_resets b;
     ccm_not_ready := ccm_not_ready b;
     calls := calls b ++ [CallPeripheralEnable] |}.

Definition SysCtlPeripheralReset (b : Board) : Board :=
  {| os_mutexes_left := os_mutexes_left b;
     msp432e4CryptoMutex := msp432e4CryptoMutex b;
     ccm_enabled := ccm_enabled b; ccm_resets := S (ccm_resets b);
     ccm_not_ready := ccm_not_ready b;
     calls := calls b ++ [CallPeripheralReset] |}.

Definition SysCtlPeripheralReady (b : Board) : bool * Board :=
  match ccm_not_ready b with
  | O => (true,
          {| os_mutexes_left := os_mutexes_left b;
             msp432e4CryptoMutex := msp432e4CryptoMutex b;
             ccm_enabled := ccm_enabled b; ccm_resets := ccm_resets b;
             ccm_not_ready := O;
             calls := calls b ++ [CallPeripheralReady] |})
  | S k => (false,
            {| os_mutexes_left := os_mutexes_left b;
               msp432e4CryptoMutex := msp432e4CryptoMutex b;
               ccm_enabled := ccm_enabled b; ccm_resets := ccm_resets b;
               ccm_not_ready := k;
               calls := calls b ++ [CallPeripheralReady] |})
  end.

(** [while(!SysCtlPeripheralReady(SYSCTL_PERIPH_CCM0)) {}], with a bound
    on the number of polls. *)
Fixpoint wait_ready (fuel : nat) (b : Board) : option Board :=
  let '(ready, b') := SysCtlPeripheralReady b in
  if negb ready then
    match fuel with
    | O => None
    | S fuel' => wait_ready fuel' b'
    end
  else Some b'.

(** The function returns [None] when the wait loop exceeds the bound of
    the model, which is the peripheral's own countdown and is never
    exceeded. *)
Definition msp432e4CryptoInit (b : Board) : option (error_t * Board) :=
  let error := NO_ERROR in
  let '(created, b1) := osCreateMutex b in
  let error := if negb created then ERROR_OUT_OF_RESOURCES else error in
  if negb (error_is_set error) then
    let b2 := SysCtlPeripheralReset (SysCtlPeripheralEnable b1) in
    match wait_ready (ccm_not_ready b2) b2 with
    | Some b3 => Some (error, b3)
    | None => None
    end
  else Some (error, b1).

(** The number of attempts to create the mutex among the calls made. *)
Fixpoint create_attempts (l : list Call) : nat :=
  match l with
  | [] => O
  | CallCreateMutex :: l' => S (create_attempts l')
  | _ :: l' => create_attempts l'
  end.

Definition exhausted_board : Board := {|
  os_mutexes_left := 0; msp432e4CryptoMutex := false; ccm_enabled := false;
  ccm_resets := 0; ccm_not_ready := 3; calls := []
|}.

(** ** Concurrent use of the block engine *)

(** The accesses a computation makes when it runs on machine [m]. *)
Definition accesses {A} (c : M A) (m : Machine) : list Event :=
  match c m with
  | Done _ m' => drop (length (trace m)) (trace m')
  | Stuck _ => []
  end.

(** What an execution context asks of the driver: one invocation of the
    block engine, or an update of an MD5 or of a SHA-1 session. *)
Inductive Job : Type :=
| JobProcessData (algo : Z) (data : list Z) (len : Z) (h : list Z) (hLen : nat)
| JobMd5Update (context : Md5Context) (data : list Z)
| JobSha1Update (context : Sha1Context) (data : list Z).

(** The accesses of a job that finds the machine in state [m]. *)
Definition job_accesses {P : Platform} (jm : Job * Machine) : list Event :=
  match jm.1 with
  | JobProcessData algo data len h hLen =>
      accesses (hashProcessData algo data len h hLen) jm.2
  | JobMd5Update context data => accesses (md5Update context data) jm.2
  | JobSha1Update context data => accesses (sha1Update context data) jm.2
  end.

(** A job is admissible when the session it updates has a buffer that is
    not full and when it finds the mutex free. *)
Definition job_ok (jm : Job * Machine) : Prop :=
  apm32f4xxCryptoMutex jm.2 = false
  /\ match jm.1 with
     | JobProcessData _ _ _ _ _ => True
     | JobMd5Update context _ | JobSha1Update context _ =>
         0 <= ctx_size context < 64
     end.

(** The accesses of a context that runs a sequence of jobs. *)
Definition context_accesses {P : Platform} (jobs : list (Job * Machine))
    : list Event :=
  concat (map job_accesses jobs).

(** Modelled from the spec: the scheduler and the blocking behaviour of
    the mutex belong to the OS, which is not part of the driver sources.
    Sections 4.2 and 5: execution contexts are interleaved access by
    access; an acquire blocks while another context holds the mutex; a
    release frees it; nothing but the mutex guards the engine.  The system
    keeps the holder of the mutex, the accesses each context still has to
    make, and the log of the accesses made, each with the context that
    made it. *)
Record System : Type := {
  holder : option nat;
  contexts : list (list Event);
  engine_log : list (nat * Event)
}.

(** The scheduler lets context [i] make its next access.  A context that
    has finished, or that is blocked on the mutex, does nothing. *)
Definition sys_exec (i : nat) (s : System) : System :=
  match contexts s !! i with
  | Some (e :: rest) =>
      match e, holder s with
      | EvAcquire, Some _ => s
      | EvAcquire, None =>
          {| holder := Some i; contexts := <[i := rest]> (contexts s);
             engine_log := engine_log s ++ [(i, e)] |}
      | EvRelease, _ =>
          {| holder := None; contexts := <[i := rest]> (contexts s);
             engine_log := engine_log s ++ [(i, e)] |}
      | _, _ =>
          {| holder := holder s; contexts := <[i := rest]> (contexts s);
             engine_log := engine_log s ++ [(i, e)] |}
      end
  | _ => s
  end.

Definition run_schedule (schedule : list nat) (s : System) : System :=
  foldl (fun s i => sys_exec i s) s schedule.

(** Replay of a log against the mutex discipline: an acquire needs a free
    mutex, every other access must come from the holder.  The result is
    the holder at the end, or [None] if some access overlaps the critical
    section of another context or lies outside any critical section. *)
Fixpoint replay (h : option nat) (l : list (nat * Event))
    : option (option nat) :=
  match l with
  | [] => Some h
  | (i, e) :: l' =>
      match e, h with
      | EvAcquire, None => replay (Some i) l'
      | EvAcquire, Some _ => None
      | EvRelease, Some j => if (i =? j)%nat then replay None l' else None
      | _, Some j => if (i =? j)%nat then replay h l' else None
      | _, None => None
      end
  end.

Definition exclusive (l : list (nat * Event)) : bool :=
  match replay None l with
  | Some _ => true
  | None => false
  end.

Definition is_access (e : Event) : bool := negb (is_mutex_event e).

(** The next mutex operation among the accesses a context has left. *)
Fixpoint next_mutex_event (t : list Event) : option Event :=
  match t with
  | [] => None
  | e :: t' => if is_mutex_event e then Some e else next_mutex_event t'
  end.

(** A context is in a critical section when the next thing it does to the
    mutex is to release it. *)
Definition in_critical_section (t : list Event) : bool :=
  match next_mutex_event t with
  | Some EvRelease => true
  | _ => false
  end.

(** The accesses of one critical section: an acquire, register accesses,
    a release. *)
Definition bracketed (p : list Event) : Prop :=
  exists body, p = EvAcquire :: body ++ [EvRelease]
               /\ forallb is_access body = true.

(** The accesses left to a context that does not hold the mutex. *)
Definition at_rest (t : list Event) : Prop :=
  exists sections, t = concat sections /\ Forall bracketed sections.

(** The accesses left to a context that holds the mutex. *)
Definition inside (t : list Event) : Prop :=
  exists body sections,
    t = body ++ EvRelease :: concat sections
    /\ forallb is_access body = true
    /\ Forall bracketed sections.

Definition sys_inv (s : System) : Prop :=
  replay None (engine_log s) = Some (holder s)
  /\ forall i t, contexts s !! i = Some t ->
       (holder s = Some i -> inside t)
       /\ (holder s <> Some i -> at_rest t).

(** Two contexts: the first updates an MD5 session with 130 bytes, which
    takes two invocations of the engine once the buffer has filled up; the
    second invokes the engine on one block of a SHA-1 session. *)
Definition two_sessions : list (list (Job * Machine)) :=
  [ [ (JobMd5Update nearly_full_context (bytes 130), idle_machine) ];
    [ (JobProcessData 0 (bytes 64) 64 [5; 6; 7; 8; 9] 5, idle_machine) ] ].

(** A schedule that switches between the two contexts after every
    access. *)
Definition alternating_schedule : list nat :=
  concat (replicate 130 [0; 1]%nat).

(** ** More on one invocation of the block engine *)

(** The words written to INDATA, in order. *)
Fixpoint indata_words (tr : list Event) : list Z :=
  match tr with
  | [] => []
  | EvWrite R_INDATA v :: tr' => v :: indata_words tr'
  | _ :: tr' => indata_words tr'
  end.

(** ** Independence from the state of the peripheral *)

Section Isolation.
Context {P : Platform}.

(** The compression under control word [c] is local to the first [n]
    state words: its first [n] output words are computed from the first
    [n] state words and the block.  This is what an algorithm with [n]
    words of state asks of the engine. *)
Definition word_local (c : Z) (n : nat) : Prop :=
  forall st st' block,
    take n st = take n st' ->
    take n (compress c st block) = take n (compress c st' block).

End Isolation.

(** ** Concrete runs of the further properties *)

(** A peripheral left in some state by earlier use. *)
Definition stale_machine : Machine := {|
  apm32f4xxCryptoMutex := false;
  HASH := {| CTRL := 99; CTSWAP := replicate 54 7; INFIFO := [5; 6];
             busy := 1 |};
  trace := []
|}.

(** A board on which the OS can create one more mutex and the CCM needs
    three polls to become ready. *)
Definition fresh_board : Board := {|
  os_mutexes_left := 1; msp432e4CryptoMutex := false; ccm_enabled := false;
  ccm_resets := 0; ccm_not_ready := 3; calls := []
|}.

(** * Properties *)

(** ** What one invocation of the block engine does *)

Section Engine.
Context {P : Platform}.

Lemma restore_hash_run n : forall i h mx c regs fifo b tr,
  restore_hash n i h (mk mx c regs fifo b tr)
  = Done tt (mk mx c (restore_regs n i h regs) fifo b
               (tr ++ restore_events n i h)).
Proof.
  induction n as [|n IH]; intros i h mx c regs fifo b tr; simpl.
  - unfold ret. by rewrite app_nil_r.
  - unfold bind, reg_write; simpl. unfold mk in IH. rewrite IH.
    by rewrite <- !app_assoc.
Qed.

Lemma save_hash_run n : forall i h mx c regs fifo b tr,
  save_hash n i h (mk mx c regs fifo b tr)
  = Done (save_regs n i h regs)
         (mk mx c regs fifo b (tr ++ save_events n i regs)).
Proof.
  induction n as [|n IH]; intros i h mx c regs fifo b tr; simpl.
  - unfold ret. by rewrite app_nil_r.
  - unfold bind, reg_read; simpl. unfold mk in IH. rewrite IH.
    by rewrite <- !app_assoc.
Qed.

Lemma poll_BUSY_run b : forall fuel mx c regs fifo tr,
  (b <= fuel)%nat ->
  exists b' evs,
    poll_BUSY fuel (mk mx c regs fifo b tr)
    = Done tt (mk mx c regs fifo b' (tr ++ evs))
    /\ forallb is_input_event evs = true.
Proof.
  induction b as [|b IH]; intros fuel mx c regs fifo tr Hle.
  - exists O, [EvRead R_STS 0].
    destruct fuel; simpl; unfold bind, reg_read, ret; simpl; done.
  - destruct fuel as [|fuel]; [lia|].
    simpl. unfold bind, reg_read; simpl.
    destruct (Z.land HASH_STS_BUSY HASH_STS_BUSY =? 0).
    + exists b, [EvRead R_STS HASH_STS_BUSY]. done.
    + destruct (IH fuel mx c regs fifo (tr ++ [EvRead R_STS HASH_STS_BUSY]))
        as (b' & evs & Hrun & Hin); [lia|].
      exists b', (EvRead R_STS HASH_STS_BUSY :: evs).
      unfold mk in *. rewrite Hrun. by rewrite <- app_assoc.
Qed.

Lemma wait_BUSY_run mx c regs fifo b tr :
  exists b' evs,
    wait_BUSY (mk mx c regs fifo b tr)
    = Done tt (mk mx c regs fifo b' (tr ++ evs))
    /\ forallb is_input_event evs = true.
Proof. unfold wait_BUSY; simpl. by apply poll_BUSY_run. Qed.

Lemma write_rest_run k : forall p mx c regs fifo b tr,
  (length fifo + k <= 16)%nat -> (0 < length fifo)%nat ->
  exists evs,
    write_rest k p (mk mx c regs fifo b tr)
    = Done tt (mk mx c regs (fifo ++ words k p) b (tr ++ evs))
    /\ forallb is_input_event evs = true.
Proof.
  induction k as [|k IH]; intros p mx c regs fifo b tr Hlen Hpos; simpl.
  - exists []. unfold ret. by rewrite !app_nil_r.
  - unfold bind, reg_write; simpl.
    destruct (Nat.eqb_spec (length fifo) 16) as [E|_]; [lia|].
    destruct (IH (drop 4 p) mx c regs (fifo ++ [__UNALIGNED_UINT32_READ p]) b
                (tr ++ [EvWrite R_INDATA (__UNALIGNED_UINT32_READ p)]))
      as (evs & Hrun & Hin).
    { rewrite length_app; simpl; lia. }
    { rewrite length_app; simpl; lia. }
    exists (EvWrite R_INDATA (__UNALIGNED_UINT32_READ p) :: evs).
    unfold mk in *. rewrite Hrun. by rewrite <- !app_assoc.
Qed.

Lemma nth_take_lt (l : list Z) i n :
  (i < n)%nat -> nth i (take n l) 0 = nth i l 0.
Proof.
  revert i n; induction l as [|x l IH]; intros i n Hi.
  - by rewrite take_nil.
  - destruct n as [|n]; [lia|]. destruct i as [|i]; simpl; [done|].
    apply IH. lia.
Qed.

(** The words of a block depend only on the bytes of the block. *)
Lemma words_take k : forall p n,
  (4 * k <= n)%nat -> words k (take n p) = words k p.
Proof.
  induction k as [|k IH]; intros p n Hn; simpl; [done|].
  f_equal.
  - unfold __UNALIGNED_UINT32_READ. by rewrite !nth_take_lt by lia.
  - replace n with (4 + (n - 4))%nat by lia.
    rewrite <- take_drop_commute. apply IH. lia.
Qed.

Lemma data_blocks_take k : forall data n,
  (64 * k <= n)%nat -> data_blocks k (take n data) = data_blocks k data.
Proof.
  induction k as [|k IH]; intros data n Hn; cbn [data_blocks]; [done|].
  f_equal.
  - apply words_take. lia.
  - replace n with (64 + (n - 64))%nat by lia.
    rewrite <- take_drop_commute. apply IH. lia.
Qed.

Lemma length_words k : forall p, length (words k p) = k.
Proof. induction k as [|k IH]; intros p; simpl; [done | by rewrite IH]. Qed.

Lemma feed_blocks_run fuel : forall data len mx c regs fifo b tr,
  (Z.to_nat (len / 64) <= fuel)%nat ->
  fifo_ready fifo ->
  exists regs' fifo' b' evs,
    feed_blocks fuel data len (mk mx c regs fifo b tr)
    = Done tt (mk mx c regs' fifo' b' (tr ++ evs))
    /\ fifo_ready fifo'
    /\ pending_regs c regs' fifo'
       = foldl (digest c) (pending_regs c regs fifo)
           (data_blocks (Z.to_nat (len / 64)) data)
    /\ forallb is_input_event evs = true.
Proof.
  induction fuel as [|fuel IH]; intros data len mx c regs fifo b tr Hfuel Hfifo.
  - assert (Hlt : len < 64).
    { destruct (Z.lt_ge_cases len 64) as [|Hge]; [done|].
      assert (1 <= len / 64) by (apply Z.div_le_lower_bound; lia). lia. }
    cbn [feed_blocks]. destruct (Z.leb_spec 64 len); [lia|].
    exists regs, fifo, b, []. unfold ret. rewrite app_nil_r.
    replace (Z.to_nat (len / 64)) with O by lia. done.
  - cbn [feed_blocks]. destruct (Z.leb_spec 64 len) as [Hge|Hlt].
    + assert (Hq : Z.to_nat (len / 64) = S (Z.to_nat ((len - 64) / 64))).
      { replace len with ((len - 64) + 1 * 64) at 1 by lia.
        rewrite Z.div_add by lia.
        assert (0 <= (len - 64) / 64) by (apply Z.div_pos; lia). lia. }
      set (w0 := __UNALIGNED_UINT32_READ data).
      unfold bind at 1. unfold reg_write at 1.
      cbn [HASH apm32f4xxCryptoMutex trace mk].
      assert (Hw : exists b1,
        hw_write R_INDATA w0
          {| CTRL := c; CTSWAP := regs; INFIFO := fifo; busy := b |}
        = {| CTRL := c; CTSWAP := pending_regs c regs fifo;
             INFIFO := [w0]; busy := b1 |}).
      { unfold pending_regs, hw_write; cbn [INFIFO CTRL CTSWAP busy].
        destruct Hfifo as [-> | Hl]; simpl; [by exists b|].
        rewrite Hl; simpl. by exists latency. }
      destruct Hw as (b1 & ->).
      destruct (wait_BUSY_run mx c (pending_regs c regs fifo) [w0] b1
                  (tr ++ [EvWrite R_INDATA w0])) as (b2 & ev1 & Hwait & Hin1).
      unfold bind at 1. unfold mk in Hwait. rewrite Hwait.
      destruct (write_rest_run 15 (drop 4 data) mx c
                  (pending_regs c regs fifo) [w0] b2
                  ((tr ++ [EvWrite R_INDATA w0]) ++ ev1))
        as (ev2 & Hrest & Hin2); [simpl; lia | simpl; lia |].
      unfold bind at 1. unfold mk in Hrest. rewrite Hrest.
      change ([w0] ++ words 15 (drop 4 data)) with (words 16 data).
      destruct (IH (drop 64 data) (len - 64) mx c (pending_regs c regs fifo)
                  (words 16 data) b2
                  (((tr ++ [EvWrite R_INDATA w0]) ++ ev1) ++ ev2))
        as (regs' & fifo' & b' & ev3 & Hrun & Hready & Hregs & Hin3).
      { lia. }
      { right. apply length_words. }
      exists regs', fifo', b', (EvWrite R_INDATA w0 :: ev1 ++ ev2 ++ ev3).
      unfold mk in Hrun. rewrite Hrun. split.
      { unfold mk. by rewrite <- !app_assoc. }
      split; [done|]. split.
      { rewrite Hregs, Hq. cbn [data_blocks foldl].
        unfold pending_regs at 1. by rewrite length_words. }
      simpl. rewrite !forallb_app, Hin1, Hin2, Hin3. done.
    + exists regs, fifo, b, []. unfold ret. rewrite app_nil_r.
      assert (len / 64 <= 0).
      { destruct (Z.lt_ge_cases len 0).
        - assert (len / 64 < 0) by (apply Z.div_lt_upper_bound; lia). lia.
        - rewrite Z.div_small; lia. }
      replace (Z.to_nat (len / 64)) with O by lia. done.
Qed.

Lemma land_lor_same a b : Z.land (Z.lor a b) b = b.
Proof.
  apply Z.bits_inj'. intros n Hn.
  rewrite Z.land_spec, Z.lor_spec. destruct (Z.testbit a n), (Z.testbit b n); done.
Qed.

Lemma hashProcessData_run algo data len h hLen m :
  apm32f4xxCryptoMutex m = false ->
  exists b mid,
    hashProcessData algo data len h hLen m
    = Done (save_regs hLen 0 h (run_regs algo data len h hLen (CTSWAP (HASH m))))
        (mk false (run_ctrl algo)
           (run_regs algo data len h hLen (CTSWAP (HASH m))) [0] b
           (trace m
            ++ run_events algo h hLen mid
                 (run_regs algo data len h hLen (CTSWAP (HASH m)))))
    /\ forallb is_input_event mid = true
    /\ mid <> [].
Proof.
  destruct m as [mx [c regs fifo b] tr]; simpl. intros ->.
  unfold hashProcessData.
  unfold bind at 1. unfold osAcquireMutex at 1.
  cbn [HASH apm32f4xxCryptoMutex trace].
  unfold bind at 1. unfold reg_write at 1.
  cbn [HASH apm32f4xxCryptoMutex trace].
  set (c0 := Z.lor HASH_CTRL_DTYPE_8B algo).
  assert (Hc0 : exists fifo0 b0,
    hw_write R_CTRL c0 {| CTRL := c; CTSWAP := regs; INFIFO := fifo; busy := b |}
    = {| CTRL := c0; CTSWAP := regs; INFIFO := fifo0; busy := b0 |}).
  { unfold hw_write; cbn [INFIFO CTRL CTSWAP busy]. destruct (_ =? _); eauto. }
  destruct Hc0 as (fifo0 & b0 & ->).
  unfold bind at 1. unfold reg_read at 1.
  cbn [HASH apm32f4xxCryptoMutex trace hw_read CTRL].
  unfold bind at 1. unfold reg_write at 1.
  cbn [HASH apm32f4xxCryptoMutex trace].
  change (Z.lor c0 HASH_CTRL_INITCAL) with (run_ctrl algo).
  assert (Hc1 :
    hw_write R_CTRL (run_ctrl algo)
      {| CTRL := c0; CTSWAP := regs; INFIFO := fifo0; busy := b0 |}
    = {| CTRL := run_ctrl algo; CTSWAP := regs; INFIFO := []; busy := 0 |}).
  { unfold hw_write; cbn [INFIFO CTRL CTSWAP busy].
    unfold run_ctrl. by rewrite land_lor_same, Z.eqb_refl. }
  rewrite Hc1.
  unfold bind at 1.
  pose proof (restore_hash_run hLen 0 h true (run_ctrl algo) regs [] O) as Hres.
  unfold mk in Hres. rewrite Hres. clear Hres.
  set (tr1 := (((tr ++ [EvAcquire]) ++ [EvWrite R_CTRL c0])
               ++ [EvRead R_CTRL c0]) ++ [EvWrite R_CTRL (run_ctrl algo)]).
  destruct (feed_blocks_run (Z.to_nat (len / 64)) data len true
              (run_ctrl algo) (restore_regs hLen 0 h regs) [] O
              (tr1 ++ restore_events hLen 0 h))
    as (regs1 & fifo1 & b1 & ev1 & Hfeed & Hready & Hregs & Hin1);
    [lia | by left |].
  unfold bind at 1. unfold mk in Hfeed. rewrite Hfeed. clear Hfeed.
  unfold bind at 1. unfold reg_write at 1.
  cbn [HASH apm32f4xxCryptoMutex trace].
  assert (Hflush : exists b2,
    hw_write R_INDATA 0
      {| CTRL := run_ctrl algo; CTSWAP := regs1; INFIFO := fifo1; busy := b1 |}
    = {| CTRL := run_ctrl algo;
         CTSWAP := run_regs algo data len h hLen regs;
         INFIFO := [0]; busy := b2 |}).
  { unfold hw_write; cbn [INFIFO CTRL CTSWAP busy].
    unfold run_regs. unfold pending_regs in Hregs. simpl in Hregs.
    rewrite <- Hregs.
    destruct Hready as [-> | Hl]; simpl; [by exists b1|].
    rewrite Hl; simpl. by exists latency. }
  destruct Hflush as (b2 & ->).
  set (regs' := run_regs algo data len h hLen regs).
  destruct (wait_BUSY_run true (run_ctrl algo) regs' [0] b2
              (((tr1 ++ restore_events hLen 0 h) ++ ev1)
               ++ [EvWrite R_INDATA 0]))
    as (b3 & ev2 & Hwait & Hin2).
  unfold bind at 1. unfold mk in Hwait. rewrite Hwait. clear Hwait.
  unfold bind at 1.
  pose proof (save_hash_run hLen 0 h true (run_ctrl algo) regs' [0] b3) as Hsave.
  unfold mk in Hsave. rewrite Hsave. clear Hsave.
  unfold bind, osReleaseMutex, ret; simpl.
  exists b3, (ev1 ++ EvWrite R_INDATA 0 :: ev2).
  split; [|split].
  - unfold mk, run_events, tr1. f_equal. f_equal.
    rewrite <- !app_assoc. reflexivity.
  - rewrite forallb_app. simpl. by rewrite Hin1, Hin2.
  - by destruct ev1.
Qed.

End Engine.

(** ** One turn of the update loop *)

Section Iteration.
Context {P : Platform}.

(** The direct-processing branch. *)
Lemma iteration_direct algo hLen context data m :
  ctx_size context = 0 ->
  64 <= Z.of_nat (length data) ->
  apm32f4xxCryptoMutex m = false ->
  let len := Z.of_nat (length data) in
  let n := len - len mod 64 in
  let regs' := run_regs algo data n (ctx_h context) hLen (CTSWAP (HASH m)) in
  exists b mid,
    update_iteration algo hLen context data m
    = Done (processed context (save_regs hLen 0 (ctx_h context) regs')
              (ctx_buffer context) (ctx_size context) n,
            drop (Z.to_nat n) data)
        (mk false (run_ctrl algo) regs' [0] b
           (trace m ++ run_events algo (ctx_h context) hLen mid regs'))
    /\ hashProcessData algo data n (ctx_h context) hLen m
       = Done (save_regs hLen 0 (ctx_h context) regs')
           (mk false (run_ctrl algo) regs' [0] b
              (trace m ++ run_events algo (ctx_h context) hLen mid regs'))
    /\ forallb is_input_event mid = true
    /\ mid <> [].
Proof.
  intros Hsize Hlen Hfree len n regs'.
  destruct (hashProcessData_run algo data n (ctx_h context) hLen m Hfree)
    as (b & mid & Hrun & Hin & Hne).
  exists b, mid. split; [|done].
  unfold update_iteration. fold len.
  assert (Hbranch : (ctx_size context =? 0) && (64 <=? len) = true).
  { destruct (Z.eqb_spec (ctx_size context) 0); [|done].
    destruct (Z.leb_spec 64 len); [done|lia]. }
  rewrite Hbranch.
  fold n. unfold bind. rewrite Hrun. reflexivity.
Qed.

(** The buffering branch when the buffer does not fill up. *)
Lemma iteration_buffer_partial algo hLen context data m :
  0 <= ctx_size context < 64 ->
  ctx_size context + Z.of_nat (length data) < 64 ->
  update_iteration algo hLen context data m
  = Done (buffered context
            (list_inserts (Z.to_nat (ctx_size context)) data
               (ctx_buffer context))
            (ctx_size context + Z.of_nat (length data))
            (Z.of_nat (length data)),
          [])
      m.
Proof.
  intros Hsize Hroom.
  unfold update_iteration.
  set (len := Z.of_nat (length data)) in *.
  assert (Hbranch : (ctx_size context =? 0) && (64 <=? len) = false).
  { destruct (Z.leb_spec 64 len); [lia|]. by rewrite andb_false_r. }
  rewrite Hbranch.
  assert (Hn : MIN len (size_t (64 - ctx_size context)) = len).
  { unfold MIN, size_t. rewrite Z.mod_small by lia.
    destruct (Z.ltb_spec len (64 - ctx_size context)); lia. }
  rewrite Hn. unfold bind, osMemcpy.
  destruct (Z.leb_spec 0 (ctx_size context)); [|lia].
  destruct (Z.leb_spec 0 len); [|lia].
  destruct (Z.leb_spec (ctx_size context + len) 64); [|lia].
  cbn [andb]. unfold ret.
  assert (Hs : size_t (ctx_size context + len) = ctx_size context + len).
  { unfold size_t. apply Z.mod_small. lia. }
  rewrite Hs.
  destruct (Z.eqb_spec (ctx_size context + len) 64); [lia|].
  unfold len. rewrite Nat2Z.id, take_ge, drop_ge by lia. reflexivity.
Qed.

(** The buffering branch when the buffer fills up: the full buffer goes
    through the block engine and [size] is reset. *)
Lemma iteration_buffer_flush algo hLen context data m :
  0 <= ctx_size context < 64 ->
  ~ (ctx_size context = 0 /\ 64 <= Z.of_nat (length data)) ->
  64 <= ctx_size context + Z.of_nat (length data) ->
  apm32f4xxCryptoMutex m = false ->
  let n := 64 - ctx_size context in
  let buffer' := list_inserts (Z.to_nat (ctx_size context))
                   (take (Z.to_nat n) data) (ctx_buffer context) in
  let regs' := run_regs algo buffer' 64 (ctx_h context) hLen (CTSWAP (HASH m)) in
  exists b mid,
    update_iteration algo hLen context data m
    = Done (processed context (save_regs hLen 0 (ctx_h context) regs')
              buffer' 0 n,
            drop (Z.to_nat n) data)
        (mk false (run_ctrl algo) regs' [0] b
           (trace m ++ run_events algo (ctx_h context) hLen mid regs'))
    /\ hashProcessData algo buffer' 64 (ctx_h context) hLen m
       = Done (save_regs hLen 0 (ctx_h context) regs')
           (mk false (run_ctrl algo) regs' [0] b
              (trace m ++ run_events algo (ctx_h context) hLen mid regs'))
    /\ forallb is_input_event mid = true
    /\ mid <> [].
Proof.
  intros Hsize Hnot Hfill Hfree n buffer' regs'.
  destruct (hashProcessData_run algo buffer' 64 (ctx_h context) hLen m Hfree)
    as (b & mid & Hrun & Hin & Hne).
  exists b, mid. split; [|done].
  unfold update_iteration.
  set (len := Z.of_nat (length data)) in *.
  assert (Hbranch : (ctx_size context =? 0) && (64 <=? len) = false).
  { destruct (Z.eqb_spec (ctx_size context) 0); [|done].
    destruct (Z.leb_spec 64 len); [|done]. exfalso. by apply Hnot. }
  rewrite Hbranch.
  assert (Hn : MIN len (size_t (64 - ctx_size context)) = n).
  { unfold MIN, size_t. rewrite Z.mod_small by lia.
    destruct (Z.ltb_spec len (64 - ctx_size context)); unfold n; lia. }
  rewrite Hn. unfold bind at 1. unfold osMemcpy.
  destruct (Z.leb_spec 0 (ctx_size context)); [|lia].
  destruct (Z.leb_spec 0 n); [|unfold n in *; lia].
  destruct (Z.leb_spec (ctx_size context + n) 64); [|unfold n in *; lia].
  cbn [andb]. unfold ret at 1. fold buffer'.
  assert (Hs : size_t (ctx_size context + n) = 64).
  { unfold size_t, n. replace (ctx_size context + (64 - ctx_size context))
      with 64 by lia. reflexivity. }
  rewrite Hs. simpl (64 =? 64).
  unfold bind. rewrite Hrun. reflexivity.
Qed.

End Iteration.

(** ** The update loop *)

Section Loop.
Context {P : Platform}.

Lemma update_loop_nil fuel algo hLen context m :
  update_loop fuel algo hLen context [] m = Done context m.
Proof. destruct fuel; reflexivity. Qed.

Lemma update_loop_step fuel algo hLen context data m context' rest m' :
  data <> [] ->
  update_iteration algo hLen context data m = Done (context', rest) m' ->
  update_loop (S fuel) algo hLen context data m
  = update_loop fuel algo hLen context' rest m'.
Proof.
  intros Hne Hit. cbn [update_loop].
  destruct (Z.ltb_spec 0 (Z.of_nat (length data))) as [_|Hz].
  - unfold bind. rewrite Hit. reflexivity.
  - destruct data; [done | simpl in Hz; lia].
Qed.

Lemma uint64_t_range x : 0 <= uint64_t x < 2 ^ 64.
Proof. unfold uint64_t. apply Z.mod_pos_bound. lia. Qed.

Lemma uint64_t_add x a b : uint64_t (uint64_t (x + a) + b) = uint64_t (x + (a + b)).
Proof. unfold uint64_t. rewrite Z.add_mod_idemp_l by lia. f_equal. lia. Qed.

(** Starting from a buffer that is not full, the loop needs at most one
    turn per byte; it leaves a buffer that is not full and has counted
    every byte once. *)
Lemma update_loop_ok algo hLen N : forall data context m,
  (length data <= N)%nat ->
  0 <= ctx_size context < 64 ->
  apm32f4xxCryptoMutex m = false ->
  exists context' m',
    (forall fuel, (length data <= fuel)%nat ->
       update_loop fuel algo hLen context data m = Done context' m')
    /\ apm32f4xxCryptoMutex m' = false
    /\ ctx_size context'
       = (ctx_size context + Z.of_nat (length data)) mod 64
    /\ (0 <= ctx_totalSize context < 2 ^ 64 ->
        ctx_totalSize context'
        = uint64_t (ctx_totalSize context + Z.of_nat (length data))).
Proof.
  induction N as [|N IH]; intros data context m HN Hsize Hfree.
  - destruct data; [|simpl in HN; lia].
    exists context, m. split; [intros; apply update_loop_nil|].
    split; [done|]. split.
    + simpl. rewrite Z.add_0_r, Z.mod_small; lia.
    + intros Ht. simpl. unfold uint64_t. rewrite Z.add_0_r, Z.mod_small; lia.
  - destruct (decide (data = [])) as [-> | Hne].
    { exists context, m. split; [intros; apply update_loop_nil|].
      split; [done|]. split.
      + simpl. rewrite Z.add_0_r, Z.mod_small; lia.
      + intros Ht. simpl. unfold uint64_t.
        rewrite Z.add_0_r, Z.mod_small; lia. }
    assert (Hpos : 0 < Z.of_nat (length data)).
    { destruct data; [done | simpl; lia]. }
    set (len := Z.of_nat (length data)) in *.
    destruct (decide (ctx_size context = 0 /\ 64 <= len)) as [[Hz Hge] | Hnd].
    + (* direct processing *)
      destruct (iteration_direct algo hLen context data m Hz Hge Hfree)
        as (b & mid & Hit & _ & _ & _).
      fold len in Hit. set (n := len - len mod 64) in *.
      assert (Hn : 64 <= n <= len /\ n mod 64 = 0).
      { unfold n. pose proof (Z.mod_pos_bound len 64).
        pose proof (Z.div_mod len 64).
        assert (1 <= len / 64) by (apply Z.div_le_lower_bound; lia).
        split; [lia|].
        replace (len - len mod 64) with (len / 64 * 64) by lia.
        apply Z.mod_mul; lia. }
      match type of Hit with _ = Done (?c, ?r) ?mm =>
        set (c1 := c) in *; set (rest := r) in *; set (m1 := mm) in * end.
      assert (Hrest : Z.of_nat (length rest) = len - n).
      { unfold rest. rewrite length_drop. unfold len. lia. }
      destruct (IH rest c1 m1) as (c' & m' & Hloop & Hfree' & Hsize' & Htot').
      { unfold len in *. lia. }
      { unfold c1; simpl. lia. }
      { reflexivity. }
      exists c', m'. split.
      { intros fuel Hfuel. destruct fuel as [|fuel]; [unfold len in *; lia|].
        rewrite (update_loop_step _ _ _ _ _ _ _ _ _ Hne Hit).
        apply Hloop. unfold len in *. lia. }
      split; [done|]. split.
      { rewrite Hsize', Hrest. unfold c1; simpl. rewrite Hz.
        replace (0 + len) with ((len - n) + n) by lia.
        rewrite <- (Z.add_mod_idemp_r (len - n) n) by lia.
        destruct Hn as [_ ->]. by rewrite Z.add_0_r. }
      { intros Ht. rewrite Htot', Hrest.
        - unfold c1; simpl. rewrite uint64_t_add. f_equal. lia.
        - unfold c1; simpl. apply uint64_t_range. }
    + destruct (Z.lt_ge_cases (ctx_size context + len) 64) as [Hroom | Hfill].
      * (* the data fits into the buffer *)
        pose proof (iteration_buffer_partial algo hLen context data m
                      Hsize Hroom) as Hit.
        fold len in Hit.
        match type of Hit with _ = Done (?c, _) _ => set (c1 := c) in * end.
        exists c1, m. split.
        { intros fuel Hfuel. destruct fuel as [|fuel]; [unfold len in *; lia|].
          rewrite (update_loop_step _ _ _ _ _ _ _ _ _ Hne Hit).
          apply update_loop_nil. }
        split; [done|]. split.
        { unfold c1; simpl. rewrite Z.mod_small; lia. }
        { intros _. reflexivity. }
      * (* the buffer fills up and is flushed *)
        destruct (iteration_buffer_flush algo hLen context data m
                    Hsize Hnd Hfill Hfree) as (b & mid & Hit & _ & _ & _).
        set (n := 64 - ctx_size context) in *.
        match type of Hit with _ = Done (?c, ?r) ?mm =>
          set (c1 := c) in *; set (rest := r) in *; set (m1 := mm) in * end.
        assert (Hrest : Z.of_nat (length rest) = len - n).
        { unfold rest. rewrite length_drop. unfold len, n in *. lia. }
        destruct (IH rest c1 m1) as (c' & m' & Hloop & Hfree' & Hsize' & Htot').
        { unfold len, n in *. lia. }
        { unfold c1; simpl. lia. }
        { reflexivity. }
        exists c', m'. split.
        { intros fuel Hfuel. destruct fuel as [|fuel]; [unfold len in *; lia|].
          rewrite (update_loop_step _ _ _ _ _ _ _ _ _ Hne Hit).
          apply Hloop. unfold len, n in *. lia. }
        split; [done|]. split.
        { rewrite Hsize', Hrest. unfold c1; simpl.
          replace (ctx_size context + len) with ((len - n) + 1 * 64)
            by (unfold n; lia).
          rewrite Z.mod_add by lia. by rewrite Z.add_0_l. }
        { intros Ht. rewrite Htot', Hrest.
          - unfold c1; simpl. rewrite uint64_t_add. f_equal. lia.
          - unfold c1; simpl. apply uint64_t_range. }
Qed.

End Loop.

Section Log.
Context {P : Platform}.

Lemma invocations_app tr1 tr2 :
  invocations (tr1 ++ tr2) = (invocations tr1 + invocations tr2)%nat.
Proof.
  induction tr1 as [|e tr1 IH]; [done|].
  destruct e; simpl; rewrite IH; done.
Qed.

Lemma invocations_input evs :
  forallb is_input_event evs = true -> invocations evs = O.
Proof.
  induction evs as [|e evs IH]; [done|]. simpl.
  intros [He Hevs]%andb_prop. destruct e; try done; by apply IH.
Qed.

Lemma invocations_restore n : forall i h, invocations (restore_events n i h) = O.
Proof. induction n as [|n IH]; intros i h; simpl; [done | apply IH]. Qed.

Lemma invocations_save n : forall i regs, invocations (save_events n i regs) = O.
Proof. induction n as [|n IH]; intros i regs; simpl; [done | apply IH]. Qed.

Lemma invocations_run algo h hLen mid regs' :
  forallb is_input_event mid = true ->
  invocations (run_events algo h hLen mid regs') = 1%nat.
Proof.
  intros Hmid. unfold run_events. simpl.
  rewrite !invocations_app, invocations_restore, invocations_save,
    (invocations_input mid Hmid). reflexivity.
Qed.

Lemma restore_events_flat n : forall i h,
  restore_events n i h
  = flat_map (fun k => [EvWrite (R_CTSWAP (6 + k)) (nth k h 0);
                        EvWrite (R_CTSWAP (14 + k)) (nth k h 0)])
      (seq i n).
Proof. induction n as [|n IH]; intros i h; simpl; [done | by rewrite IH]. Qed.

Lemma save_events_map n : forall i regs,
  save_events n i regs
  = map (fun k => EvRead (R_CTSWAP (14 + k)) (nth (14 + k) regs 0)) (seq i n).
Proof. induction n as [|n IH]; intros i regs; simpl; [done | by rewrite IH]. Qed.

Lemma length_save_regs n : forall i h regs,
  length (save_regs n i h regs) = length h.
Proof.
  induction n as [|n IH]; intros i h regs; simpl; [done|].
  by rewrite IH, length_insert.
Qed.

Lemma nth_insert_eq (l : list Z) i v :
  (i < length l)%nat -> nth i (<[i := v]> l) 0 = v.
Proof.
  revert i; induction l as [|x l IH]; intros [|i] Hi; simpl in *;
    try lia; try done. apply IH; lia.
Qed.

Lemma nth_insert_ne (l : list Z) i j v :
  i <> j -> nth j (<[i := v]> l) 0 = nth j l 0.
Proof.
  revert i j; induction l as [|x l IH]; intros [|i] [|j] Hij; simpl;
    try done. apply IH. lia.
Qed.

Lemma save_regs_below n : forall i h regs j,
  (j < i)%nat -> nth j (save_regs n i h regs) 0 = nth j h 0.
Proof.
  induction n as [|n IH]; intros i h regs j Hj; simpl; [done|].
  rewrite IH by lia. apply nth_insert_ne. lia.
Qed.

(** Word [j] of the saved hash value is the register [CTSWAP[14 + j]]. *)
Lemma save_regs_nth n : forall i h regs j,
  (i <= j < i + n)%nat -> (j < length h)%nat ->
  nth j (save_regs n i h regs) 0 = nth (14 + j) regs 0.
Proof.
  induction n as [|n IH]; intros i h regs j Hj Hlen; simpl; [lia|].
  destruct (decide (j = i)) as [-> | Hne].
  - rewrite save_regs_below by lia. by apply nth_insert_eq.
  - apply IH; [lia | by rewrite length_insert].
Qed.

End Log.

(** ** The update functions *)

Section Update.
Context {P : Platform}.

Lemma hashProcessData_held algo data len h hLen m :
  apm32f4xxCryptoMutex m = true ->
  hashProcessData algo data len h hLen m = Stuck Deadlock.
Proof.
  intros Hheld. unfold hashProcessData, bind, osAcquireMutex.
  by rewrite Hheld.
Qed.

(** A turn of the loop on any session, with data left: it fails on a held
    mutex or on a copy that leaves the buffer, never on a bound of the
    model; when it completes, either no data is left or the session has
    [size < 64] and the mutex is free. *)
Lemma update_iteration_outcome algo hLen context data m :
  match update_iteration algo hLen context data m with
  | Done r m' =>
      (length r.2 <= length data)%nat
      /\ (r.2 = [] \/ (0 <= ctx_size r.1 < 64
                       /\ apm32f4xxCryptoMutex m' = false))
  | Stuck f => f <> LoopBound
  end.
Proof.
  unfold update_iteration.
  set (len := Z.of_nat (length data)).
  destruct ((ctx_size context =? 0) && (64 <=? len)) eqn:Hbranch.
  - apply andb_prop in Hbranch as [Hz%Z.eqb_eq _].
    destruct (apm32f4xxCryptoMutex m) eqn:Hm.
    + unfold bind. by rewrite hashProcessData_held.
    + destruct (hashProcessData_run algo data (len - len mod 64)
                  (ctx_h context) hLen m Hm) as (b & mid & Hrun & _).
      unfold bind. rewrite Hrun. unfold ret. cbn [fst snd].
      split; [rewrite length_drop; lia|]. right.
      cbn [ctx_size mk apm32f4xxCryptoMutex]. split; [lia | done].
  - set (n := MIN len (size_t (64 - ctx_size context))).
    unfold bind at 1. unfold osMemcpy.
    destruct (Z.leb_spec 0 (ctx_size context)) as [Hs0|]; [|done].
    destruct (Z.leb_spec 0 n) as [Hn0|]; [|done].
    destruct (Z.leb_spec (ctx_size context + n) 64) as [Hn1|]; [|done].
    cbn [andb]. unfold ret at 1.
    assert (Hs : size_t (ctx_size context + n) = ctx_size context + n).
    { unfold size_t. apply Z.mod_small. lia. }
    rewrite Hs.
    destruct (Z.eqb_spec (ctx_size context + n) 64) as [Hfull | Hroom].
    + destruct (apm32f4xxCryptoMutex m) eqn:Hm.
      * unfold bind. by rewrite hashProcessData_held.
      * match goal with |- context [hashProcessData ?a ?d ?l ?h ?k] =>
          destruct (hashProcessData_run a d l h k m Hm)
            as (b & mid & Hrun & _) end.
        unfold bind. rewrite Hrun. unfold ret. cbn [fst snd].
        split; [rewrite length_drop; lia|]. right.
        cbn [ctx_size mk apm32f4xxCryptoMutex]. split; [lia | done].
    + unfold ret. cbn [fst snd].
      split; [rewrite length_drop; lia|]. left.
      assert (Hle : ctx_size context <= 64) by lia.
      assert (Hn : n = len).
      { revert Hn1 Hroom. clear Hn0 Hs. unfold n, MIN, size_t.
        rewrite Z.mod_small by lia.
        destruct (Z.ltb_spec len (64 - ctx_size context)); lia. }
      rewrite Hn. unfold len. rewrite Nat2Z.id. by apply drop_ge.
Qed.

(** The effect of one update call on a session whose buffer is not full,
    for either algorithm. *)
Lemma update_ok algo hLen context data m :
  0 <= ctx_size context < 64 ->
  apm32f4xxCryptoMutex m = false ->
  exists context' m',
    (forall fuel, (length data <= fuel)%nat ->
       update_loop fuel algo hLen context data m = Done context' m')
    /\ apm32f4xxCryptoMutex m' = false
    /\ 0 <= ctx_size context' < 64
    /\ ctx_size context'
       = (ctx_size context + Z.of_nat (length data)) mod 64
    /\ (0 <= ctx_totalSize context < 2 ^ 64 ->
        ctx_totalSize context'
        = uint64_t (ctx_totalSize context + Z.of_nat (length data))).
Proof.
  intros Hsize Hfree.
  destruct (update_loop_ok algo hLen (length data) data context m
              (Nat.le_refl _) Hsize Hfree)
    as (c' & m' & Hloop & Hfree' & Hsize' & Htot').
  exists c', m'. repeat split; try done.
  - rewrite Hsize'. apply Z.mod_pos_bound. lia.
  - rewrite Hsize'. apply Z.mod_pos_bound. lia.
Qed.

(** On any session and any machine, the bound on the number of turns
    that [md5Update] and [sha1Update] give to the loop is not reached. *)
Lemma update_loop_bound_unreached algo hLen context data m :
  update_loop (S (length data)) algo hLen context data m <> Stuck LoopBound.
Proof.
  destruct (decide (data = [])) as [-> | Hne]; [done|].
  pose proof (update_iteration_outcome algo hLen context data m) as Hout.
  cbn [update_loop].
  destruct (Z.ltb_spec 0 (Z.of_nat (length data))) as [_|Hz];
    [|destruct data; [done | simpl in Hz; lia]].
  unfold bind.
  destruct (update_iteration algo hLen context data m) as [[c rest] m'|f];
    [|by intros [= ->]].
  cbn [fst snd] in *. destruct Hout as (Hlen & [-> | (Hsize & Hfree)]).
  - by rewrite update_loop_nil.
  - destruct (update_ok algo hLen c rest m' Hsize Hfree)
      as (c' & m'' & Hloop & _).
    by rewrite Hloop.
Qed.

(** C9.  An update with length 0 is a no-op: [md5Update] and [sha1Update]
    return the context with the state words, the buffer, [size] and
    [totalSize] as they were, and leave the machine, including the log of
    engine accesses, untouched, so the block engine is not invoked. *)
Theorem empty_update_noop (context : HashContext) (m : Machine) :
  md5Update context [] m = Done context m
  /\ sha1Update context [] m = Done context m.
Proof. split; reflexivity. Qed.

(** C2.  Buffer invariant: an update call on a session with
    [0 <= size < 64] returns a session with [0 <= size < 64] (the new
    [size] is the old one plus the length, modulo 64); and a turn of the
    loop whose copy brings the buffer to exactly 64 bytes passes the full
    buffer to the block engine and leaves [size] at 0. *)
Theorem buffer_invariant (context : HashContext) (data : list Z) (m : Machine) :
  0 <= ctx_size context < 64 ->
  apm32f4xxCryptoMutex m = false ->
  (exists c1 m1,
     md5Update context data m = Done c1 m1
     /\ 0 <= ctx_size c1 < 64
     /\ ctx_size c1 = (ctx_size context + Z.of_nat (length data)) mod 64)
  /\ (exists c2 m2,
        sha1Update context data m = Done c2 m2
        /\ 0 <= ctx_size c2 < 64
        /\ ctx_size c2 = (ctx_size context + Z.of_nat (length data)) mod 64)
  /\ (forall algo hLen,
        ~ (ctx_size context = 0 /\ 64 <= Z.of_nat (length data)) ->
        ctx_size context
          + MIN (Z.of_nat (length data)) (size_t (64 - ctx_size context)) = 64 ->
        let n := 64 - ctx_size context in
        let full := list_inserts (Z.to_nat (ctx_size context))
                      (take (Z.to_nat n) data) (ctx_buffer context) in
        exists h' m',
          hashProcessData algo full 64 (ctx_h context) hLen m = Done h' m'
          /\ update_iteration algo hLen context data m
             = Done ({| ctx_h := h'; ctx_buffer := full; ctx_size := 0;
                        ctx_totalSize := uint64_t (ctx_totalSize context + n) |},
                     drop (Z.to_nat n) data) m'
          /\ invocations (trace m') = S (invocations (trace m))).
Proof.
  intros Hsize Hfree. split; [|split].
  - destruct (update_ok HASH_CTRL_ALGSEL_MD5 (Z.to_nat (MD5_DIGEST_SIZE / 4))
                context data m Hsize Hfree)
      as (c' & m' & Hloop & _ & Hrange & Hsize' & _).
    exists c', m'. split; [|done]. apply Hloop. lia.
  - destruct (update_ok HASH_CTRL_ALGSEL_SHA1 (Z.to_nat (SHA1_DIGEST_SIZE / 4))
                context data m Hsize Hfree)
      as (c' & m' & Hloop & _ & Hrange & Hsize' & _).
    exists c', m'. split; [|done]. apply Hloop. lia.
  - intros algo hLen Hnd Hfull n full.
    assert (Hfill : 64 <= ctx_size context + Z.of_nat (length data)).
    { revert Hfull. unfold MIN, size_t. rewrite Z.mod_small by lia.
      destruct (Z.ltb_spec (Z.of_nat (length data)) (64 - ctx_size context)); lia. }
    destruct (iteration_buffer_flush algo hLen context data m
                Hsize Hnd Hfill Hfree) as (b & mid & Hit & Hrun & Hmid & _).
    eexists _, _. split; [exact Hrun|]. split; [exact Hit|].
    simpl. rewrite invocations_app, (invocations_run _ _ _ _ _ Hmid). lia.
Qed.

Lemma update_calls_ok algo hLen : forall chunks context m,
  0 <= ctx_size context < 64 ->
  0 <= ctx_totalSize context < 2 ^ 64 ->
  apm32f4xxCryptoMutex m = false ->
  exists context' m',
    update_calls
      (fun c d => update_loop (S (length d)) algo hLen c d) context chunks m
    = Done context' m'
    /\ apm32f4xxCryptoMutex m' = false
    /\ 0 <= ctx_size context' < 64
    /\ ctx_totalSize context'
       = uint64_t (ctx_totalSize context + total_length chunks).
Proof.
  induction chunks as [|data chunks IH]; intros context m Hsize Htot Hfree.
  - exists context, m. split; [done|]. split; [done|]. split; [done|].
    unfold total_length; cbn [foldr].
    unfold uint64_t. rewrite Z.add_0_r, Z.mod_small; lia.
  - destruct (update_ok algo hLen context data m Hsize Hfree)
      as (c1 & m1 & Hloop & Hfree1 & Hsize1 & _ & Htot1).
    specialize (Htot1 Htot).
    destruct (IH c1 m1 Hsize1) as (c' & m' & Hcalls & Hfree' & Hsize' & Htot');
      [rewrite Htot1; apply uint64_t_range | done |].
    exists c', m'. cbn [update_calls]. unfold bind at 1.
    rewrite Hloop by lia. split; [done|]. split; [done|]. split; [done|].
    rewrite Htot', Htot1. cbn [total_length foldr].
    apply uint64_t_add.
Qed.

(** C3.  Total-length accounting: after any sequence of update calls on a
    fresh session, [totalSize] is the sum of the length arguments of the
    calls, as a [uint64_t]: it is the sum reduced modulo [2^64], hence
    the sum itself as long as the sum fits the counter. *)
Theorem total_length_accounting (context : HashContext)
    (chunks : list (list Z)) (m : Machine) :
  fresh context ->
  apm32f4xxCryptoMutex m = false ->
  (exists c1 m1,
     update_calls md5Update context chunks m = Done c1 m1
     /\ ctx_totalSize c1 = uint64_t (total_length chunks)
     /\ (total_length chunks < 2 ^ 64 ->
         ctx_totalSize c1 = total_length chunks))
  /\ (exists c2 m2,
        update_calls sha1Update context chunks m = Done c2 m2
        /\ ctx_totalSize c2 = uint64_t (total_length chunks)
        /\ (total_length chunks < 2 ^ 64 ->
            ctx_totalSize c2 = total_length chunks)).
Proof.
  intros [Hsize Htot] Hfree.
  assert (Hnn : 0 <= total_length chunks).
  { induction chunks as [|d ds IH]; simpl; lia. }
  split.
  - destruct (update_calls_ok HASH_CTRL_ALGSEL_MD5
                (Z.to_nat (MD5_DIGEST_SIZE / 4)) chunks context m)
      as (c' & m' & Hcalls & _ & _ & Htot'); [lia | lia | done |].
    exists c', m'. split; [exact Hcalls|].
    rewrite Htot', Htot, Z.add_0_l. split; [done|].
    intros Hfit. unfold uint64_t. apply Z.mod_small. lia.
  - destruct (update_calls_ok HASH_CTRL_ALGSEL_SHA1
                (Z.to_nat (SHA1_DIGEST_SIZE / 4)) chunks context m)
      as (c' & m' & Hcalls & _ & _ & Htot'); [lia | lia | done |].
    exists c', m'. split; [exact Hcalls|].
    rewrite Htot', Htot, Z.add_0_l. split; [done|].
    intros Hfit. unfold uint64_t. apply Z.mod_small. lia.
Qed.

(** C4.  Direct-processing branch: when the buffer is empty and at least
    64 bytes remain, a turn of the loop computes
    [n = length - length mod 64], the largest multiple of 64 that does not
    exceed the length; it invokes [hashProcessData] exactly once, on the
    current state and on the data with length [n], and the state it gets
    back is the one obtained from the [n / 64] blocks of the first [n]
    bytes; it adds [n] to [totalSize] (a [uint64_t]), leaves the buffer
    and [size] alone, and goes on with the data after the first [n]
    bytes. *)
Theorem direct_processing_branch (algo : Z) (hLen : nat)
    (context : HashContext) (data : list Z) (m : Machine) (fuel : nat) :
  ctx_size context = 0 ->
  64 <= Z.of_nat (length data) ->
  apm32f4xxCryptoMutex m = false ->
  let len := Z.of_nat (length data) in
  let n := len - len mod 64 in
  n mod 64 = 0 /\ n <= len < n + 64
  /\ exists h' m',
       hashProcessData algo data n (ctx_h context) hLen m = Done h' m'
       /\ h' = save_regs hLen 0 (ctx_h context)
                 (foldl (digest (run_ctrl algo))
                    (restore_regs hLen 0 (ctx_h context) (CTSWAP (HASH m)))
                    (data_blocks (Z.to_nat (n / 64)) (take (Z.to_nat n) data)))
       /\ invocations (trace m') = S (invocations (trace m))
       /\ update_iteration algo hLen context data m
          = Done ({| ctx_h := h'; ctx_buffer := ctx_buffer context;
                     ctx_size := ctx_size context;
                     ctx_totalSize := uint64_t (ctx_totalSize context + n) |},
                  drop (Z.to_nat n) data) m'
       /\ update_loop (S fuel) algo hLen context data m
          = update_loop fuel algo hLen
              {| ctx_h := h'; ctx_buffer := ctx_buffer context;
                 ctx_size := ctx_size context;
                 ctx_totalSize := uint64_t (ctx_totalSize context + n) |}
              (drop (Z.to_nat n) data) m'.
Proof.
  intros Hsize Hlen Hfree len n.
  assert (Hn : n = len / 64 * 64).
  { unfold n. pose proof (Z.div_mod len 64). lia. }
  split; [rewrite Hn; apply Z.mod_mul; lia|].
  split; [unfold n; pose proof (Z.mod_pos_bound len 64); lia|].
  destruct (iteration_direct algo hLen context data m Hsize Hlen Hfree)
    as (b & mid & Hit & Hrun & Hmid & _).
  fold len in Hit, Hrun. fold n in Hit, Hrun.
  eexists _, _. split; [exact Hrun|]. split; [|split; [|split]].
  - unfold run_regs. f_equal. f_equal.
    symmetry. apply data_blocks_take.
    rewrite Hn, Z.div_mul by lia.
    assert (0 <= len / 64) by (apply Z.div_pos; lia). lia.
  - simpl. rewrite invocations_app, (invocations_run _ _ _ _ _ Hmid). lia.
  - exact Hit.
  - apply update_loop_step; [|exact Hit].
    destruct data; [simpl in Hlen; lia | done].
Qed.

(** C7.  Double state-register seeding: an invocation of
    [hashProcessData] acquires the mutex, programs the control register,
    then writes every word [h[i]], [i < hLen], of the carried-over state
    to [CTSWAP[6 + i]] and to [CTSWAP[14 + i]] before any input word is
    pushed; after the input phase, which touches only INDATA and the
    status register, it reads the final state from [CTSWAP[14 + i]],
    [i < hLen], and from no other context-swap register, stores what it
    read in [h[i]], and releases the mutex. *)
Theorem double_state_seeding (algo : Z) (data : list Z) (len : Z)
    (h : list Z) (hLen : nat) (m : Machine) :
  apm32f4xxCryptoMutex m = false ->
  exists h' m' mid,
    hashProcessData algo data len h hLen m = Done h' m'
    /\ trace m'
       = trace m
         ++ [EvAcquire;
             EvWrite R_CTRL (Z.lor HASH_CTRL_DTYPE_8B algo);
             EvRead R_CTRL (Z.lor HASH_CTRL_DTYPE_8B algo);
             EvWrite R_CTRL
               (Z.lor (Z.lor HASH_CTRL_DTYPE_8B algo) HASH_CTRL_INITCAL)]
         ++ flat_map (fun i => [EvWrite (R_CTSWAP (6 + i)) (nth i h 0);
                                EvWrite (R_CTSWAP (14 + i)) (nth i h 0)])
              (seq 0 hLen)
         ++ mid
         ++ map (fun i => EvRead (R_CTSWAP (14 + i))
                            (nth (14 + i) (CTSWAP (HASH m')) 0))
              (seq 0 hLen)
         ++ [EvRelease]
    /\ forallb is_input_event mid = true
    /\ mid <> []
    /\ (forall i, (i < hLen)%nat -> (i < length h)%nat ->
          nth i h' 0 = nth (14 + i) (CTSWAP (HASH m')) 0).
Proof.
  intros Hfree.
  destruct (hashProcessData_run algo data len h hLen m Hfree)
    as (b & mid & Hrun & Hmid & Hne).
  eexists _, _, mid. split; [exact Hrun|].
  split; [|split; [done|split; [done|]]].
  - cbn [trace mk HASH CTSWAP]. unfold run_events.
    by rewrite restore_events_flat, save_events_map.
  - intros i Hi Hlen. cbn [mk HASH CTSWAP].
    apply save_regs_nth; lia.
Qed.

Lemma iteration_full_buffer algo hLen context data m :
  ctx_size context = 64 ->
  apm32f4xxCryptoMutex m = false ->
  exists h' m1,
    hashProcessData algo (ctx_buffer context) 64 (ctx_h context) hLen m
    = Done h' m1
    /\ update_iteration algo hLen context data m
       = Done (processed context h' (ctx_buffer context) 0 0, data) m1
    /\ apm32f4xxCryptoMutex m1 = false.
Proof.
  intros Hsize Hfree.
  destruct (hashProcessData_run algo (ctx_buffer context) 64 (ctx_h context)
              hLen m Hfree) as (b & mid & Hrun & _).
  eexists _, _. split; [exact Hrun|]. split; [|reflexivity].
  unfold update_iteration. rewrite Hsize.
  change (64 =? 0) with false. cbn [andb].
  change (size_t (64 - 64)) with 0.
  assert (Hn : MIN (Z.of_nat (length data)) 0 = 0).
  { unfold MIN. destruct (Z.ltb_spec (Z.of_nat (length data)) 0); lia. }
  rewrite Hn. unfold bind at 1. unfold osMemcpy.
  change ((0 <=? 64) && (0 <=? 0) && (64 + 0 <=? 64)) with true.
  unfold ret at 1. change (Z.to_nat 0) with O. rewrite take_0, drop_0.
  cbn [list_inserts]. change (size_t (64 + 0)) with 64.
  change (64 =? 64) with true.
  unfold bind. rewrite Hrun. reflexivity.
Qed.

Lemma update_loop_full_buffer algo hLen context data m :
  ctx_size context = 64 ->
  data <> [] ->
  apm32f4xxCryptoMutex m = false ->
  exists c1 m1,
    update_loop (S (length data)) algo hLen context data m = Done c1 m1
    /\ ctx_size c1 = Z.of_nat (length data) mod 64
    /\ ctx_totalSize c1
       = uint64_t (ctx_totalSize context + Z.of_nat (length data)).
Proof.
  intros Hsize Hne Hfree.
  destruct (iteration_full_buffer algo hLen context data m Hsize Hfree)
    as (h' & m1 & _ & Hit & Hfree1).
  rewrite (update_loop_step _ _ _ _ _ _ _ _ _ Hne Hit).
  destruct (update_ok algo hLen
              (processed context h' (ctx_buffer context) 0 0) data m1)
    as (c' & m' & Hrun & _ & _ & Hsz & Htot);
    [cbn [processed ctx_size]; lia | exact Hfree1 |].
  exists c', m'. split; [apply Hrun; lia|]. split.
  - rewrite Hsz. cbn [processed ctx_size]. by rewrite Z.add_0_l.
  - rewrite Htot by (cbn [processed ctx_totalSize]; apply uint64_t_range).
    cbn [processed ctx_totalSize]. rewrite uint64_t_add. reflexivity.
Qed.

Lemma iteration_overrun algo hLen context data m :
  64 < ctx_size context ->
  update_iteration algo hLen context data m = Stuck BufferOverflow.
Proof.
  intros Hsize. unfold update_iteration.
  destruct (Z.eqb_spec (ctx_size context) 0) as [Hz|_]; [lia|]. cbn [andb].
  set (n := MIN _ _).
  assert (Hn : 0 <= n).
  { unfold n, MIN, size_t.
    destruct (Z.ltb_spec (Z.of_nat (length data))
                ((64 - ctx_size context) mod 2 ^ 32)); [lia|].
    apply Z.mod_pos_bound. lia. }
  unfold bind at 1. unfold osMemcpy.
  destruct (Z.leb_spec 0 (ctx_size context)); [|lia].
  destruct (Z.leb_spec 0 n); [|lia].
  destruct (Z.leb_spec (ctx_size context + n) 64); [lia|]. reflexivity.
Qed.

Lemma update_loop_overrun fuel algo hLen context data m :
  64 < ctx_size context ->
  data <> [] ->
  update_loop (S fuel) algo hLen context data m = Stuck BufferOverflow.
Proof.
  intros Hsize Hne. cbn [update_loop].
  destruct (Z.ltb_spec 0 (Z.of_nat (length data))) as [_|Hz].
  - unfold bind. by rewrite iteration_overrun.
  - destruct data; [done | simpl in Hz; lia].
Qed.

(** C10.  Termination of the update loop.  When [size < 64] on entry,
    [md5Update] and [sha1Update] return, and the loop needs no more turns
    than there are bytes: every turn consumes at least one byte of the
    remaining data and leaves [size < 64].  Without the bound the loop
    does not stall either.  With [size = 64] and data left, the first
    turn copies no byte, hands the full buffer to the engine and resets
    [size] to 0, after which the call consumes the data and returns.
    With [size > 64] and data left, [64 - size] wraps, and the copy of
    the first turn leaves the 64-byte buffer. *)
Theorem update_terminates :
  (forall (context : HashContext) (data : list Z) (m : Machine),
     0 <= ctx_size context < 64 ->
     apm32f4xxCryptoMutex m = false ->
     (exists c1 m1,
        md5Update context data m = Done c1 m1
        /\ forall fuel, (length data <= fuel)%nat ->
             md5Update_fuel fuel context data m = Done c1 m1)
     /\ (exists c2 m2,
           sha1Update context data m = Done c2 m2
           /\ forall fuel, (length data <= fuel)%nat ->
                sha1Update_fuel fuel context data m = Done c2 m2)
     /\ (data <> [] ->
         forall algo hLen,
         exists c r m',
           update_iteration algo hLen context data m = Done (c, r) m'
           /\ (length r < length data)%nat
           /\ 0 <= ctx_size c < 64
           /\ apm32f4xxCryptoMutex m' = false))
  /\ (forall (context : HashContext) (data : list Z) (m : Machine),
        ctx_size context = 64 ->
        data <> [] ->
        apm32f4xxCryptoMutex m = false ->
        (forall algo hLen,
         exists h' m1,
           hashProcessData algo (ctx_buffer context) 64 (ctx_h context)
             hLen m = Done h' m1
           /\ update_iteration algo hLen context data m
              = Done ({| ctx_h := h'; ctx_buffer := ctx_buffer context;
                         ctx_size := 0;
                         ctx_totalSize :=
                           uint64_t (ctx_totalSize context + 0) |},
                      data) m1)
        /\ (exists c1 m1,
              md5Update context data m = Done c1 m1
              /\ ctx_size c1 = Z.of_nat (length data) mod 64
              /\ ctx_totalSize c1
                 = uint64_t (ctx_totalSize context
                             + Z.of_nat (length data)))
        /\ (exists c2 m2,
              sha1Update context data m = Done c2 m2
              /\ ctx_size c2 = Z.of_nat (length data) mod 64
              /\ ctx_totalSize c2
                 = uint64_t (ctx_totalSize context
                             + Z.of_nat (length data))))
  /\ (forall (context : HashContext) (data : list Z) (m : Machine),
        64 < ctx_size context ->
        data <> [] ->
        (forall algo hLen,
           update_iteration algo hLen context data m = Stuck BufferOverflow)
        /\ md5Update context data m = Stuck BufferOverflow
        /\ sha1Update context data m = Stuck BufferOverflow).
Proof.
  split; [|split].
  - intros context data m Hsize Hfree. split; [|split].
    + destruct (update_ok HASH_CTRL_ALGSEL_MD5 (Z.to_nat (MD5_DIGEST_SIZE / 4))
                  context data m Hsize Hfree) as (c' & m' & Hloop & _).
      exists c', m'. split; [apply Hloop; lia | exact Hloop].
    + destruct (update_ok HASH_CTRL_ALGSEL_SHA1
                  (Z.to_nat (SHA1_DIGEST_SIZE / 4))
                  context data m Hsize Hfree) as (c' & m' & Hloop & _).
      exists c', m'. split; [apply Hloop; lia | exact Hloop].
    + intros Hne algo hLen.
      assert (Hpos : 0 < Z.of_nat (length data)).
      { destruct data; [done | simpl; lia]. }
      set (len := Z.of_nat (length data)) in *.
      destruct (decide (ctx_size context = 0 /\ 64 <= len)) as [[Hz Hge]|Hnd].
      * destruct (iteration_direct algo hLen context data m Hz Hge Hfree)
          as (b & mid & Hit & _).
        eexists _, _, _. split; [exact Hit|].
        fold len. pose proof (Z.mod_pos_bound len 64).
        split; [rewrite length_drop; unfold len in *; lia|].
        split; [simpl; lia | reflexivity].
      * destruct (Z.lt_ge_cases (ctx_size context + len) 64) as [Hroom|Hfill].
        -- pose proof (iteration_buffer_partial algo hLen context data m
                         Hsize Hroom) as Hit.
           eexists _, _, _. split; [exact Hit|].
           split; [simpl; unfold len in *; lia|].
           split; [simpl; unfold len in *; lia | done].
        -- destruct (iteration_buffer_flush algo hLen context data m
                       Hsize Hnd Hfill Hfree) as (b & mid & Hit & _).
           eexists _, _, _. split; [exact Hit|].
           split; [rewrite length_drop; unfold len in *; lia|].
           split; [simpl; lia | reflexivity].
  - intros context data m Hsize Hne Hfree. split; [|split].
    + intros algo hLen.
      destruct (iteration_full_buffer algo hLen context data m Hsize Hfree)
        as (h' & m1 & Hrun & Hit & _).
      exists h', m1. split; [exact Hrun | exact Hit].
    + exact (update_loop_full_buffer HASH_CTRL_ALGSEL_MD5
               (Z.to_nat (MD5_DIGEST_SIZE / 4)) context data m Hsize Hne
               Hfree).
    + exact (update_loop_full_buffer HASH_CTRL_ALGSEL_SHA1
               (Z.to_nat (SHA1_DIGEST_SIZE / 4)) context data m Hsize Hne
               Hfree).
  - intros context data m Hsize Hne. split; [|split].
    + intros algo hLen. by apply iteration_overrun.
    + exact (update_loop_overrun (length data) HASH_CTRL_ALGSEL_MD5
               (Z.to_nat (MD5_DIGEST_SIZE / 4)) context data m Hsize Hne).
    + exact (update_loop_overrun (length data) HASH_CTRL_ALGSEL_SHA1
               (Z.to_nat (SHA1_DIGEST_SIZE / 4)) context data m Hsize Hne).
Qed.

End Update.

Lemma buffer_invariant_witness :
  (exists c1 m1,
     md5Update (P := toy_platform) nearly_full_context (bytes 10) idle_machine
     = Done c1 m1 /\ ctx_size c1 = 6)
  /\ (exists h' m',
        update_iteration (P := toy_platform) 128 4 nearly_full_context
          (bytes 10) idle_machine
        = Done ({| ctx_h := h';
                   ctx_buffer := replicate 60 0 ++ [1; 2; 3; 4];
                   ctx_size := 0; ctx_totalSize := 64 |},
                drop 4 (bytes 10)) m'
        /\ invocations (trace m') = 1%nat).
Proof.
  destruct (@buffer_invariant toy_platform nearly_full_context (bytes 10)
              idle_machine) as (H1 & _ & H3); [simpl; lia | reflexivity |].
  split.
  - destruct H1 as (c1 & m1 & Hrun & _ & Hsize). exists c1, m1.
    split; [exact Hrun | exact Hsize].
  - destruct (H3 128 4%nat) as (h' & m' & _ & Hit & Hinv).
    + simpl. lia.
    + reflexivity.
    + exists h', m'. split; [exact Hit | exact Hinv].
Defined.

Lemma total_length_accounting_witness :
  exists c1 m1,
    update_calls (md5Update (P := toy_platform)) demo_context
      [bytes 3; bytes 70; []; bytes 64] idle_machine = Done c1 m1
    /\ ctx_totalSize c1 = 137.
Proof.
  destruct (@total_length_accounting toy_platform demo_context
              [bytes 3; bytes 70; []; bytes 64] idle_machine)
    as ((c1 & m1 & Hrun & _ & Hsum) & _).
  - split; reflexivity.
  - reflexivity.
  - exists c1, m1. split; [exact Hrun|]. apply Hsum. reflexivity.
Defined.

Lemma direct_processing_branch_witness :
  exists h' m',
    hashProcessData (P := toy_platform) 128 (bytes 130) 128 [1; 2; 3; 4] 4
      idle_machine = Done h' m'
    /\ update_iteration (P := toy_platform) 128 4 demo_context (bytes 130)
         idle_machine
       = Done ({| ctx_h := h'; ctx_buffer := replicate 64 0; ctx_size := 0;
                  ctx_totalSize := 128 |}, [129; 130]) m'
    /\ invocations (trace m') = 1%nat.
Proof.
  destruct (@direct_processing_branch toy_platform 128 4 demo_context
              (bytes 130) idle_machine 0)
    as (_ & _ & h' & m' & Hrun & _ & Hinv & Hit & _).
  - reflexivity.
  - simpl. lia.
  - reflexivity.
  - exists h', m'. split; [exact Hrun|]. split; [exact Hit | exact Hinv].
Defined.

Lemma double_state_seeding_witness :
  exists h' m',
    hashProcessData (P := toy_platform) 128 (bytes 64) 64 [1; 2; 3; 4] 4
      idle_machine = Done h' m'
    /\ take 12 (trace m')
       = [EvAcquire; EvWrite R_CTRL 160; EvRead R_CTRL 160; EvWrite R_CTRL 164;
          EvWrite (R_CTSWAP 6) 1; EvWrite (R_CTSWAP 14) 1;
          EvWrite (R_CTSWAP 7) 2; EvWrite (R_CTSWAP 15) 2;
          EvWrite (R_CTSWAP 8) 3; EvWrite (R_CTSWAP 16) 3;
          EvWrite (R_CTSWAP 9) 4; EvWrite (R_CTSWAP 17) 4].
Proof.
  destruct (@double_state_seeding toy_platform 128 (bytes 64) 64 [1; 2; 3; 4]
              4 idle_machine) as (h' & m' & mid & Hrun & Htrace & _).
  - reflexivity.
  - exists h', m'. split; [exact Hrun|]. rewrite Htrace. reflexivity.
Defined.

Lemma update_terminates_witness :
  (exists c1 m1,
     md5Update_fuel (P := toy_platform) 70 demo_context (bytes 70) idle_machine
     = Done c1 m1)
  /\ (exists c1 m1,
        md5Update (P := toy_platform) overfull_context [7] idle_machine
        = Done c1 m1
        /\ ctx_size c1 = 1)
  /\ sha1Update (P := toy_platform) overrun_context [7] idle_machine
     = Stuck BufferOverflow.
Proof.
  split; [|split].
  - destruct (proj1 (@update_terminates toy_platform) demo_context (bytes 70)
                idle_machine) as ((c1 & m1 & _ & Hfuel) & _).
    + simpl. lia.
    + reflexivity.
    + exists c1, m1. apply Hfuel. reflexivity.
  - destruct (proj1 (proj2 (@update_terminates toy_platform)) overfull_context
                [7] idle_machine) as (_ & (c1 & m1 & Hrun & Hsize & _) & _).
    + reflexivity.
    + discriminate.
    + reflexivity.
    + exists c1, m1. split; [exact Hrun | exact Hsize].
  - apply (proj2 (proj2 (@update_terminates toy_platform)) overrun_context
             [7] idle_machine).
    + simpl. lia.
    + discriminate.
Defined.

(** C10 as stated fails in its last clause: from a session with
    [size = 64] an update with one byte makes progress and returns.  The
    first turn flushes the full buffer and resets [size]; the byte is then
    buffered and counted. *)
Lemma update_overfull_counterexample :
  exists c m',
    md5Update (P := toy_platform) overfull_context [7] idle_machine
    = Done c m'
    /\ ctx_size c = 1
    /\ ctx_totalSize c = 65
    /\ nth 0 (ctx_buffer c) 0 = 7
    /\ invocations (trace m') = 1%nat.
Proof.
  eexists _, _.
  split; [vm_compute; reflexivity|].
  repeat split.
Qed.

(** ** The stream of blocks seen by the engine *)

Section Stream.
Context {P : Platform}.

Lemma length_digest c regs block : length (digest c regs block) = length regs.
Proof. unfold digest. apply length_inserts. Qed.

Lemma length_foldl_digest c blocks : forall regs,
  length (foldl (digest c) regs blocks) = length regs.
Proof.
  induction blocks as [|b blocks IH]; intros regs; simpl; [done|].
  by rewrite IH, length_digest.
Qed.

Lemma length_restore_regs n : forall i h regs,
  length (restore_regs n i h regs) = length regs.
Proof.
  induction n as [|n IH]; intros i h regs; simpl; [done|].
  by rewrite IH, !length_insert.
Qed.

Lemma length_run_regs algo data len h hLen regs :
  length (run_regs algo data len h hLen regs) = length regs.
Proof. unfold run_regs. by rewrite length_foldl_digest, length_restore_regs. Qed.

Lemma drop14_digest c regs block :
  (14 <= length regs)%nat ->
  drop 14 (digest c regs block) = tail_step c (drop 14 regs) block.
Proof.
  intros Hlen. unfold digest, tail_step, current_bank.
  set (k := take 8 (compress c (take 8 (drop 14 regs)) block)).
  pose proof (list_inserts_app_r k (take 14 regs) (drop 14 regs) 0) as H.
  rewrite take_drop, length_take_le, Nat.add_0_r in H by lia.
  rewrite H. apply drop_app_length'. by rewrite length_take_le by lia.
Qed.

Lemma drop14_foldl c blocks : forall regs,
  (14 <= length regs)%nat ->
  drop 14 (foldl (digest c) regs blocks)
  = foldl (tail_step c) (drop 14 regs) blocks.
Proof.
  induction blocks as [|b blocks IH]; intros regs Hlen; simpl; [done|].
  rewrite IH by (by rewrite length_digest). by rewrite drop14_digest.
Qed.

Lemma drop14_restore n : forall i h regs,
  (i + n <= 8)%nat ->
  drop 14 (restore_regs n i h regs) = seed_tail n i h (drop 14 regs).
Proof.
  induction n as [|n IH]; intros i h regs Hi; simpl; [done|].
  rewrite IH by lia. f_equal.
  rewrite drop_insert_ge by lia. rewrite drop_insert_lt by lia.
  f_equal. lia.
Qed.

Lemma insert_nth_same (t : list Z) : forall i, <[i := nth i t 0]> t = t.
Proof.
  induction t as [|x t IH]; intros [|i]; simpl; try done.
  by rewrite IH.
Qed.

Lemma seed_tail_same n : forall i h t,
  (forall j, (i <= j < i + n)%nat -> nth j h 0 = nth j t 0) ->
  seed_tail n i h t = t.
Proof.
  induction n as [|n IH]; intros i h t Hsame; simpl; [done|].
  rewrite Hsame by lia. rewrite insert_nth_same.
  apply IH. intros j Hj. apply Hsame. lia.
Qed.

Lemma length_seed_tail n : forall i h t, length (seed_tail n i h t) = length t.
Proof.
  induction n as [|n IH]; intros i h t; simpl; [done|].
  by rewrite IH, length_insert.
Qed.

Lemma seed_tail_below n : forall i h t j,
  (j < i)%nat -> nth j (seed_tail n i h t) 0 = nth j t 0.
Proof.
  induction n as [|n IH]; intros i h t j Hj; simpl; [done|].
  rewrite IH by lia. apply nth_insert_ne. lia.
Qed.

Lemma seed_tail_nth n : forall i h t j,
  (i <= j < i + n)%nat -> (j < length t)%nat ->
  nth j (seed_tail n i h t) 0 = nth j h 0.
Proof.
  induction n as [|n IH]; intros i h t j Hj Hlen; simpl; [lia|].
  destruct (decide (j = i)) as [-> | Hne].
  - rewrite seed_tail_below by lia. by apply nth_insert_eq.
  - apply IH; [lia | by rewrite length_insert].
Qed.

(** Restoring the state that was just saved changes nothing on the
    current-state side. *)
Lemma seed_after_save hLen h regs :
  (hLen <= length h)%nat ->
  seed_tail hLen 0 (save_regs hLen 0 h regs) (drop 14 regs) = drop 14 regs.
Proof.
  intros Hlen. apply seed_tail_same. intros j Hj.
  rewrite save_regs_nth by lia. by rewrite nth_skipn.
Qed.

(** One invocation of the engine advances the engine state of the session
    by the blocks it was given. *)
Lemma engine_view_run algo data len h hLen regs :
  (14 <= length regs)%nat -> (hLen <= 8)%nat -> (hLen <= length h)%nat ->
  engine_view hLen
    (save_regs hLen 0 h (run_regs algo data len h hLen regs))
    (run_regs algo data len h hLen regs)
  = foldl (tail_step (run_ctrl algo)) (engine_view hLen h regs)
      (data_blocks (Z.to_nat (len / 64)) data).
Proof.
  intros Hregs H8 Hh. unfold engine_view.
  rewrite seed_after_save by done. unfold run_regs.
  rewrite drop14_foldl by (by rewrite length_restore_regs).
  by rewrite drop14_restore by lia.
Qed.

(** The session's [h] can be read off its engine state. *)
Lemma engine_view_h hLen h1 regs1 h2 regs2 :
  length h1 = hLen -> length h2 = hLen ->
  (14 + hLen <= length regs1)%nat -> (14 + hLen <= length regs2)%nat ->
  engine_view hLen h1 regs1 = engine_view hLen h2 regs2 ->
  h1 = h2.
Proof.
  intros Hl1 Hl2 Hr1 Hr2 Hview.
  apply (nth_ext _ _ 0 0); [congruence|].
  intros j Hj.
  rewrite <- (seed_tail_nth hLen 0 h1 (drop 14 regs1) j)
    by (rewrite ?length_drop; lia).
  rewrite <- (seed_tail_nth hLen 0 h2 (drop 14 regs2) j)
    by (rewrite ?length_drop; lia).
  unfold engine_view in Hview. by rewrite Hview.
Qed.

Lemma words_app k l1 l2 :
  (4 * k <= length l1)%nat -> words k (l1 ++ l2) = words k l1.
Proof.
  intros Hlen.
  rewrite <- (words_take k (l1 ++ l2) (length l1)) by done.
  by rewrite take_app_length.
Qed.

Lemma data_blocks_split k : forall j l1 l2,
  length l1 = (64 * k)%nat ->
  data_blocks (k + j) (l1 ++ l2) = data_blocks k l1 ++ data_blocks j l2.
Proof.
  induction k as [|k IH]; intros j l1 l2 Hlen.
  - destruct l1; [done | simpl in Hlen; lia].
  - cbn [Nat.add data_blocks app]. f_equal.
    + apply words_app. lia.
    + rewrite drop_app_le by lia. apply IH. rewrite length_drop. lia.
Qed.

Lemma nblocks_split l1 l2 k :
  length l1 = (64 * k)%nat -> nblocks (l1 ++ l2) = (k + nblocks l2)%nat.
Proof.
  intros Hlen. unfold nblocks. rewrite length_app, Hlen.
  replace (Z.of_nat (64 * k + length l2))
    with (Z.of_nat k * 64 + Z.of_nat (length l2)) by lia.
  rewrite Z.div_add_l by lia.
  assert (0 <= Z.of_nat (length l2) / 64) by (apply Z.div_pos; lia). lia.
Qed.

Lemma to_nat_mul64 z : 0 <= z -> Z.to_nat (z * 64) = (64 * Z.to_nat z)%nat.
Proof. lia. Qed.

Lemma nblocks_small l : (length l < 64)%nat -> nblocks l = O.
Proof. intros Hlen. unfold nblocks. rewrite Z.div_small; lia. Qed.

Lemma nblocks_le l : (64 * nblocks l <= length l)%nat.
Proof.
  unfold nblocks.
  pose proof (Z.div_mod (Z.of_nat (length l)) 64).
  pose proof (Z.mod_pos_bound (Z.of_nat (length l)) 64).
  assert (0 <= Z.of_nat (length l) / 64) by (apply Z.div_pos; lia). lia.
Qed.

Lemma stream_split (l : list Z) q :
  (64 * q <= length l)%nat ->
  nblocks l = (q + nblocks (drop (64 * q) l))%nat
  /\ (forall j, data_blocks (q + j) l
               = data_blocks q l ++ data_blocks j (drop (64 * q) l))
  /\ (forall j, drop (64 * (q + j)) l = drop (64 * j) (drop (64 * q) l)).
Proof.
  intros Hlen.
  assert (Hl : length (take (64 * q) l) = (64 * q)%nat)
    by (by apply length_take_le).
  split; [|split].
  - pose proof (nblocks_split (take (64 * q) l) (drop (64 * q) l) q Hl) as H.
    by rewrite take_drop in H.
  - intros j.
    pose proof (data_blocks_split q j (take (64 * q) l) (drop (64 * q) l) Hl)
      as H.
    rewrite take_drop in H. by rewrite data_blocks_take in H by lia.
  - intros j. rewrite drop_drop. f_equal. lia.
Qed.

(** Feeding [d1] and then [d2] is feeding [d1 ++ d2]. *)
Lemma stream_update_app c t pend d1 d2 :
  stream_update c (stream_update c t pend d1).1
    (stream_update c t pend d1).2 d2
  = stream_update c t pend (d1 ++ d2).
Proof.
  unfold stream_update; cbn [fst snd].
  set (all1 := pend ++ d1). set (q1 := nblocks all1).
  set (all2 := drop (64 * q1) all1 ++ d2).
  assert (Hall : pend ++ d1 ++ d2 = take (64 * q1) all1 ++ all2).
  { unfold all2. rewrite app_assoc, (app_assoc (take _ _)), take_drop. done. }
  assert (Hlen : length (take (64 * q1) all1) = (64 * q1)%nat).
  { apply length_take_le. apply nblocks_le. }
  rewrite Hall.
  rewrite (nblocks_split _ _ q1 Hlen).
  rewrite (data_blocks_split q1 _ _ _ Hlen), foldl_app.
  rewrite data_blocks_take by lia.
  f_equal.
  replace (64 * (q1 + nblocks all2))%nat with (64 * q1 + 64 * nblocks all2)%nat
    by lia.
  by rewrite drop_app_add'.
Qed.

Lemma inserts_split (d buf : list Z) s :
  (s + length d <= length buf)%nat ->
  list_inserts s d buf = take s buf ++ d ++ drop (s + length d) buf.
Proof.
  intros Hlen.
  pose proof (list_inserts_app_r d (take s buf) (drop s buf) 0) as H.
  rewrite take_drop, length_take_le, Nat.add_0_r in H by lia.
  rewrite H. f_equal.
  rewrite <- (take_drop (length d) (drop s buf)) at 1.
  rewrite list_inserts_0_r by (rewrite length_take_le; rewrite ?length_drop; lia).
  by rewrite drop_drop.
Qed.

Lemma well_formed_run algo data len hLen context m size' buffer' n b tr :
  well_formed hLen context m ->
  0 <= size' < 64 -> length buffer' = 64%nat ->
  well_formed hLen
    (processed context
       (save_regs hLen 0 (ctx_h context)
          (run_regs algo data len (ctx_h context) hLen (CTSWAP (HASH m))))
       buffer' size' n)
    (mk false (run_ctrl algo)
       (run_regs algo data len (ctx_h context) hLen (CTSWAP (HASH m)))
       [0] b tr).
Proof.
  intros (Hfree & Hregs & Hh & H8 & Hsize & Hbuf & Htot) Hsize' Hbuf'.
  unfold well_formed; cbn [processed mk ctx_h ctx_buffer ctx_size ctx_totalSize
    HASH CTSWAP apm32f4xxCryptoMutex].
  rewrite length_run_regs, length_save_regs.
  repeat split; try done; try lia; apply uint64_t_range.
Qed.

(** The update loop refines [stream_update]. *)
Lemma update_loop_view algo hLen N : forall data context m fuel context' m',
  (length data <= N)%nat ->
  well_formed hLen context m ->
  update_loop fuel algo hLen context data m = Done context' m' ->
  well_formed hLen context' m'
  /\ (engine_view hLen (ctx_h context') (CTSWAP (HASH m')), pending context')
     = stream_update (run_ctrl algo)
         (engine_view hLen (ctx_h context) (CTSWAP (HASH m)))
         (pending context) data.
Proof.
  induction N as [|N IH]; intros data context m fuel context' m' HN Hwf Hrun.
  - destruct data; [|simpl in HN; lia].
    rewrite update_loop_nil in Hrun. injection Hrun as <- <-.
    split; [done|].
    destruct Hwf as (_ & _ & _ & _ & Hsize & Hbuf & _).
    unfold stream_update. rewrite app_nil_r.
    rewrite nblocks_small by (unfold pending; rewrite length_take; lia).
    reflexivity.
  - destruct (decide (data = [])) as [-> | Hne].
    { rewrite update_loop_nil in Hrun. injection Hrun as <- <-.
      split; [done|].
      destruct Hwf as (_ & _ & _ & _ & Hsize & Hbuf & _).
      unfold stream_update. rewrite app_nil_r.
      rewrite nblocks_small by (unfold pending; rewrite length_take; lia).
      reflexivity. }
    pose proof Hwf as (Hfree & Hregs & Hh & H8 & Hsize & Hbuf & Htot).
    assert (Hpos : 0 < Z.of_nat (length data)).
    { destruct data; [done | simpl; lia]. }
    destruct fuel as [|fuel].
    { cbn [update_loop] in Hrun.
      destruct (Z.ltb_spec 0 (Z.of_nat (length data))); [discriminate | lia]. }
    set (len := Z.of_nat (length data)) in *.
    destruct (decide (ctx_size context = 0 /\ 64 <= len)) as [[Hz Hge] | Hnd].
    + (* direct processing *)
      destruct (iteration_direct algo hLen context data m Hz Hge Hfree)
        as (b & mid & Hit & _ & _ & _).
      fold len in Hit. set (n := len - len mod 64) in *.
      assert (Hn : n = len / 64 * 64).
      { unfold n. pose proof (Z.div_mod len 64). lia. }
      assert (Hq : 1 <= len / 64) by (apply Z.div_le_lower_bound; lia).
      rewrite (update_loop_step _ _ _ _ _ _ _ _ _ Hne Hit) in Hrun.
      eapply IH in Hrun.
      2:{ rewrite length_drop. unfold len in *. lia. }
      2:{ apply well_formed_run; [done | lia | done]. }
      destruct Hrun as (Hwf' & Hview). split; [done|].
      rewrite Hview. clear Hview.
      cbn [processed mk ctx_h ctx_buffer ctx_size HASH CTSWAP].
      rewrite engine_view_run by lia.
      unfold pending; cbn [processed ctx_size ctx_buffer]. rewrite Hz.
      change (take (Z.to_nat 0) (ctx_buffer context)) with (@nil Z).
      unfold stream_update. rewrite !app_nil_l.
      set (q := Z.to_nat (n / 64)).
      assert (Hq' : Z.to_nat n = (64 * q)%nat).
      { unfold q. rewrite Hn, Z.div_mul by lia. apply to_nat_mul64. lia. }
      assert (Hnle : 0 <= n <= len).
      { unfold n. pose proof (Z.mod_pos_bound len 64). lia. }
      clearbody q n.
      rewrite Hq'.
      destruct (stream_split data q) as (Hnb & Hblocks & Hdrop);
        [unfold len in *; lia|].
      rewrite Hnb, Hblocks, Hdrop, foldl_app. reflexivity.
    + destruct (Z.lt_ge_cases (ctx_size context + len) 64) as [Hroom | Hfill].
      * (* the data fits into the buffer *)
        pose proof (iteration_buffer_partial algo hLen context data m
                      Hsize Hroom) as Hit.
        fold len in Hit.
        rewrite (update_loop_step _ _ _ _ _ _ _ _ _ Hne Hit) in Hrun.
        rewrite update_loop_nil in Hrun. injection Hrun as <- <-.
        split.
        { unfold well_formed, buffered; cbn [ctx_h ctx_buffer ctx_size
            ctx_totalSize]. rewrite length_inserts.
          repeat split; try done; try lia; apply uint64_t_range. }
        unfold stream_update.
        rewrite nblocks_small
          by (unfold pending; rewrite length_app, length_take;
              unfold len in *; lia).
        cbn [data_blocks foldl buffered ctx_h]. rewrite Nat.mul_0_r, drop_0.
        f_equal. unfold pending; cbn [buffered ctx_size ctx_buffer].
        rewrite inserts_split by (unfold len in *; lia).
        replace (Z.to_nat (ctx_size context + len))
          with (Z.to_nat (ctx_size context) + length data)%nat
          by (unfold len; lia).
        rewrite app_assoc.
        rewrite take_app_length'; [done|].
        rewrite length_app, length_take_le; lia.
      * (* the buffer fills up and is flushed *)
        destruct (iteration_buffer_flush algo hLen context data m
                    Hsize Hnd Hfill Hfree) as (b & mid & Hit & _ & _ & _).
        set (n := 64 - ctx_size context) in *.
        set (buffer' := list_inserts (Z.to_nat (ctx_size context))
                          (take (Z.to_nat n) data) (ctx_buffer context)) in *.
        assert (Hlt : length (take (Z.to_nat n) data) = Z.to_nat n).
        { apply length_take_le. unfold len, n in *. lia. }
        assert (Hbuf' : buffer' = pending context ++ take (Z.to_nat n) data).
        { unfold buffer'. rewrite inserts_split by (rewrite Hlt; unfold n; lia).
          rewrite drop_ge by (rewrite Hlt; unfold n; lia).
          by rewrite app_nil_r. }
        assert (Hlb : length buffer' = 64%nat).
        { unfold buffer'. by rewrite length_inserts. }
        rewrite (update_loop_step _ _ _ _ _ _ _ _ _ Hne Hit) in Hrun.
        eapply IH in Hrun.
        2:{ rewrite length_drop. unfold len, n in *. lia. }
        2:{ apply well_formed_run; [done | lia | done]. }
        destruct Hrun as (Hwf' & Hview). split; [done|].
        rewrite Hview. clear Hview.
        cbn [processed mk ctx_h ctx_buffer ctx_size HASH CTSWAP].
        rewrite engine_view_run by lia.
        unfold pending at 1; cbn [processed ctx_size ctx_buffer].
        change (take (Z.to_nat 0) buffer') with (@nil Z).
        unfold stream_update. rewrite !app_nil_l.
        assert (Hall : pending context ++ data
                       = buffer' ++ drop (Z.to_nat n) data).
        { rewrite Hbuf', <- app_assoc, take_drop. done. }
        rewrite Hall.
        assert (Hlb1 : length buffer' = (64 * 1)%nat) by lia.
        rewrite (nblocks_split _ _ 1 Hlb1).
        rewrite (data_blocks_split 1 _ _ _ Hlb1), foldl_app.
        change (Z.to_nat (64 / 64)) with 1%nat.
        f_equal.
        replace (64 * (1 + nblocks (drop (Z.to_nat n) data)))%nat
          with (64 + 64 * nblocks (drop (Z.to_nat n) data))%nat by lia.
        by rewrite drop_app_add'.
Qed.

End Stream.

Section Chunking.
Context {P : Platform}.

Lemma stream_update_nil c t pend :
  (length pend < 64)%nat -> stream_update c t pend [] = (t, pend).
Proof.
  intros Hlen. unfold stream_update. rewrite app_nil_r.
  by rewrite nblocks_small.
Qed.

Lemma length_pending context :
  0 <= ctx_size context < 64 -> length (ctx_buffer context) = 64%nat ->
  length (pending context) = Z.to_nat (ctx_size context).
Proof. intros Hsize Hbuf. unfold pending. rewrite length_take. lia. Qed.

Lemma update_calls_view algo hLen : forall chunks context m context' m',
  well_formed hLen context m ->
  update_calls (fun c d => update_loop (S (length d)) algo hLen c d)
    context chunks m = Done context' m' ->
  well_formed hLen context' m'
  /\ (engine_view hLen (ctx_h context') (CTSWAP (HASH m')), pending context')
     = stream_update (run_ctrl algo)
         (engine_view hLen (ctx_h context) (CTSWAP (HASH m)))
         (pending context) (concat chunks).
Proof.
  induction chunks as [|d chunks IH]; intros context m context' m' Hwf Hrun.
  - cbn [update_calls] in Hrun. injection Hrun as <- <-. split; [done|].
    destruct Hwf as (_ & _ & _ & _ & Hsize & Hbuf & _).
    cbn [concat]. rewrite stream_update_nil; [done|].
    rewrite length_pending; lia.
  - cbn [update_calls] in Hrun. unfold bind in Hrun.
    destruct (update_loop (S (length d)) algo hLen context d m)
      as [c1 m1|] eqn:Hd; [|discriminate].
    destruct (update_loop_view algo hLen (length d) d context m _ c1 m1
                (Nat.le_refl _) Hwf Hd) as (Hwf1 & Hview1).
    destruct (IH c1 m1 context' m' Hwf1 Hrun) as (Hwf' & Hview').
    split; [done|].
    rewrite Hview'. cbn [concat].
    rewrite <- stream_update_app. by rewrite <- Hview1.
Qed.

Lemma total_length_concat chunks :
  total_length chunks = Z.of_nat (length (concat chunks)).
Proof.
  induction chunks as [|d chunks IH]; [done|].
  cbn [total_length foldr concat]. rewrite length_app.
  unfold total_length in IH. lia.
Qed.

Lemma chunking algo hLen context chunks m :
  well_formed hLen context m ->
  exists c1 m1 c2 m2,
    update_loop (S (length (concat chunks))) algo hLen context
      (concat chunks) m = Done c1 m1
    /\ update_calls (fun c d => update_loop (S (length d)) algo hLen c d)
         context chunks m = Done c2 m2
    /\ same_session c1 c2.
Proof.
  intros Hwf. pose proof Hwf as (Hfree & Hregs & Hh & H8 & Hsize & Hbuf & Htot).
  destruct (update_ok algo hLen context (concat chunks) m Hsize Hfree)
    as (c1 & m1 & Hloop1 & _ & _ & _ & Htot1).
  specialize (Hloop1 (S (length (concat chunks))) ltac:(lia)).
  destruct (update_calls_ok algo hLen chunks context m Hsize Htot Hfree)
    as (c2 & m2 & Hcalls & _ & _ & Htot2).
  destruct (update_loop_view algo hLen _ _ _ _ _ _ _ (Nat.le_refl _) Hwf Hloop1)
    as (Hwf1 & Hview1).
  destruct (update_calls_view algo hLen _ _ _ _ _ Hwf Hcalls)
    as (Hwf2 & Hview2).
  exists c1, m1, c2, m2. split; [done|]. split; [done|].
  rewrite <- Hview2 in Hview1. injection Hview1 as Hengine Hpending.
  destruct Hwf1 as (_ & Hregs1 & Hh1 & _ & Hsize1 & Hbuf1 & _).
  destruct Hwf2 as (_ & Hregs2 & Hh2 & _ & Hsize2 & Hbuf2 & _).
  unfold same_session. split; [|split; [|split]].
  - apply (engine_view_h hLen _ (CTSWAP (HASH m1)) _ (CTSWAP (HASH m2)));
      try done; lia.
  - pose proof (length_pending c1 Hsize1 Hbuf1).
    pose proof (length_pending c2 Hsize2 Hbuf2).
    rewrite Hpending in *. lia.
  - rewrite Htot1, Htot2 by done. by rewrite total_length_concat.
  - done.
Qed.

(** C1, as amended.  Chunk-size independence: feeding a byte sequence to
    [md5Update] (or [sha1Update]) in one call and feeding any partition of
    it into consecutive chunks, one call per chunk, leave the same state
    words [h], the same [size], the same [totalSize] and the same [size]
    buffered bytes.  (The bytes of the buffer array beyond [size] may
    differ.) *)
Theorem chunk_size_independence (context : HashContext)
    (chunks : list (list Z)) (m : Machine) :
  (well_formed (Z.to_nat (MD5_DIGEST_SIZE / 4)) context m ->
   exists c1 m1 c2 m2,
     md5Update context (concat chunks) m = Done c1 m1
     /\ update_calls md5Update context chunks m = Done c2 m2
     /\ same_session c1 c2)
  /\ (well_formed (Z.to_nat (SHA1_DIGEST_SIZE / 4)) context m ->
      exists c1 m1 c2 m2,
        sha1Update context (concat chunks) m = Done c1 m1
        /\ update_calls sha1Update context chunks m = Done c2 m2
        /\ same_session c1 c2).
Proof.
  split; intros Hwf.
  - exact (chunking HASH_CTRL_ALGSEL_MD5 _ context chunks m Hwf).
  - exact (chunking HASH_CTRL_ALGSEL_SHA1 _ context chunks m Hwf).
Qed.

End Chunking.

Lemma demo_well_formed : well_formed 4 demo_context idle_machine.
Proof.
  unfold well_formed; simpl. repeat split; try reflexivity; try lia.
Defined.

Lemma sha1_demo_well_formed : well_formed 5 sha1_demo_context idle_machine.
Proof.
  unfold well_formed; simpl. repeat split; try reflexivity; try lia.
Defined.

Lemma chunk_size_independence_witness :
  (exists c1 m1 c2 m2,
     md5Update (P := toy_platform) demo_context
       (concat [bytes 30; bytes 100; bytes 5]) idle_machine = Done c1 m1
     /\ update_calls (md5Update (P := toy_platform)) demo_context
          [bytes 30; bytes 100; bytes 5] idle_machine = Done c2 m2
     /\ same_session c1 c2)
  /\ (exists c1 m1 c2 m2,
        sha1Update (P := toy_platform) sha1_demo_context
          (concat [bytes 30; bytes 100; bytes 5]) idle_machine = Done c1 m1
        /\ update_calls (sha1Update (P := toy_platform)) sha1_demo_context
             [bytes 30; bytes 100; bytes 5] idle_machine = Done c2 m2
        /\ same_session c1 c2).
Proof.
  split.
  - exact (proj1 (@chunk_size_independence toy_platform demo_context
                    [bytes 30; bytes 100; bytes 5] idle_machine)
             demo_well_formed).
  - exact (proj2 (@chunk_size_independence toy_platform sha1_demo_context
                    [bytes 30; bytes 100; bytes 5] idle_machine)
             sha1_demo_well_formed).
Defined.

(** C1 as stated fails on the buffer: hashing 64 bytes in one call goes
    through the direct-processing branch and never touches the buffer,
    hashing them as 32 + 32 bytes fills the buffer before it is flushed.
    The two sessions agree on [h], [size] and [totalSize] and differ in
    the contents of the buffer. *)
Lemma chunking_buffer_counterexample :
  exists c1 m1 c2 m2,
    md5Update (P := toy_platform) demo_context (bytes 32 ++ drop 32 (bytes 64))
      idle_machine = Done c1 m1
    /\ update_calls (md5Update (P := toy_platform)) demo_context
         [bytes 32; drop 32 (bytes 64)] idle_machine = Done c2 m2
    /\ ctx_h c1 = ctx_h c2
    /\ ctx_size c1 = ctx_size c2
    /\ ctx_totalSize c1 = ctx_totalSize c2
    /\ ctx_buffer c1 = replicate 64 0
    /\ ctx_buffer c2 = bytes 64
    /\ ctx_buffer c1 <> ctx_buffer c2.
Proof.
  eexists _, _, _, _.
  split; [vm_compute; reflexivity|].
  split; [vm_compute; reflexivity|].
  cbn [ctx_h ctx_size ctx_totalSize ctx_buffer].
  repeat split; try reflexivity. discriminate.
Qed.

Section Final.
Context {P : Platform}.

Lemma uint64_t_add_ne t n :
  0 <= t < 2 ^ 64 -> 0 < n < 2 ^ 64 -> uint64_t (t + n) <> t.
Proof.
  intros Ht Hn. unfold uint64_t. intros Heq.
  pose proof (Z.div_mod (t + n) (2 ^ 64)) as Hdm.
  rewrite Heq in Hdm.
  assert (Hq : n = 2 ^ 64 * ((t + n) / 2 ^ 64)) by lia.
  destruct (Z.lt_trichotomy ((t + n) / 2 ^ 64) 0) as [Hneg | [Hz | Hpos]].
  - assert (2 ^ 64 * ((t + n) / 2 ^ 64) < 0) by nia. lia.
  - rewrite Hz in Hq. lia.
  - assert (2 ^ 64 <= 2 ^ 64 * ((t + n) / 2 ^ 64)) by nia. lia.
Qed.

(** A finalized session is an ordinary session: its buffer is not full,
    its byte count is in range, and the mutex is free again. *)
Lemma hashFinal_ok algo hLen encode_length context m :
  0 <= ctx_size context < 64 ->
  0 <= ctx_totalSize context < 2 ^ 64 ->
  apm32f4xxCryptoMutex m = false ->
  exists c' m',
    hashFinal (fun c d => update_loop (S (length d)) algo hLen c d)
      (fun c =>
         h' <- hashProcessData algo (ctx_buffer c) 64 (ctx_h c) hLen ;;
         ret {| ctx_h := h'; ctx_buffer := ctx_buffer c;
                ctx_size := ctx_size c; ctx_totalSize := ctx_totalSize c |})
      encode_length context m = Done c' m'
    /\ 0 <= ctx_size c' < 64
    /\ 0 <= ctx_totalSize c' < 2 ^ 64
    /\ apm32f4xxCryptoMutex m' = false.
Proof.
  intros Hsize Htot Hfree. unfold hashFinal.
  set (pad := take _ padding).
  destruct (update_ok algo hLen context pad m Hsize Hfree)
    as (c1 & m1 & Hloop & Hfree1 & Hsize1 & _ & Htot1).
  specialize (Htot1 Htot).
  unfold bind at 1. rewrite Hloop by lia.
  set (c2 := {| ctx_h := ctx_h c1; ctx_buffer := _; ctx_size := _;
                ctx_totalSize := _ |}).
  destruct (hashProcessData_run algo (ctx_buffer c2) 64 (ctx_h c2) hLen m1
              Hfree1) as (b & mid & Hrun & _).
  unfold bind. rewrite Hrun. unfold ret.
  eexists _, _. split; [reflexivity|].
  cbn [ctx_size ctx_totalSize c2 mk apm32f4xxCryptoMutex].
  split; [done|]. split; [|done].
  rewrite Htot1. apply uint64_t_range.
Qed.

(** C5, as amended.  There is no post-finalize lockout in the update
    functions: the context records nothing about finalization and
    [md5Update] and [sha1Update] have no error result, so an update on a
    finalized session is processed like any other.  With non-empty data
    it completes and advances [totalSize] by the length, which changes
    the session. *)
Theorem no_post_finalize_lockout (context : HashContext) (m : Machine)
    (data : list Z) :
  0 <= ctx_size context < 64 ->
  0 <= ctx_totalSize context < 2 ^ 64 ->
  apm32f4xxCryptoMutex m = false ->
  data <> [] ->
  Z.of_nat (length data) < 2 ^ 64 ->
  (exists c1 m1 c1' m1',
     md5Final context m = Done c1 m1
     /\ md5Update c1 data m1 = Done c1' m1'
     /\ ctx_totalSize c1'
        = uint64_t (ctx_totalSize c1 + Z.of_nat (length data))
     /\ ctx_totalSize c1' <> ctx_totalSize c1)
  /\ (exists c2 m2 c2' m2',
        sha1Final context m = Done c2 m2
        /\ sha1Update c2 data m2 = Done c2' m2'
        /\ ctx_totalSize c2'
           = uint64_t (ctx_totalSize c2 + Z.of_nat (length data))
        /\ ctx_totalSize c2' <> ctx_totalSize c2).
Proof.
  intros Hsize Htot Hfree Hne Hlen.
  assert (Hpos : 0 < Z.of_nat (length data)).
  { destruct data; [done | simpl; lia]. }
  split.
  - destruct (hashFinal_ok HASH_CTRL_ALGSEL_MD5
                (Z.to_nat (MD5_DIGEST_SIZE / 4)) (le_bytes 8) context m
                Hsize Htot Hfree) as (c1 & m1 & Hfin & Hsize1 & Htot1 & Hfree1).
    destruct (update_ok HASH_CTRL_ALGSEL_MD5 (Z.to_nat (MD5_DIGEST_SIZE / 4))
                c1 data m1 Hsize1 Hfree1)
      as (c1' & m1' & Hloop & _ & _ & _ & Htot1').
    exists c1, m1, c1', m1'. split; [exact Hfin|].
    split; [apply Hloop; lia|].
    rewrite Htot1' by done. split; [done|].
    by apply uint64_t_add_ne.
  - destruct (hashFinal_ok HASH_CTRL_ALGSEL_SHA1
                (Z.to_nat (SHA1_DIGEST_SIZE / 4))
                (fun x => rev (le_bytes 8 x)) context m
                Hsize Htot Hfree) as (c1 & m1 & Hfin & Hsize1 & Htot1 & Hfree1).
    destruct (update_ok HASH_CTRL_ALGSEL_SHA1
                (Z.to_nat (SHA1_DIGEST_SIZE / 4))
                c1 data m1 Hsize1 Hfree1)
      as (c1' & m1' & Hloop & _ & _ & _ & Htot1').
    exists c1, m1, c1', m1'. split; [exact Hfin|].
    split; [apply Hloop; lia|].
    rewrite Htot1' by done. split; [done|].
    by apply uint64_t_add_ne.
Qed.

End Final.

Lemma no_post_finalize_lockout_witness :
  exists c1 m1 c1' m1',
    md5Final (P := toy_platform) demo_context idle_machine = Done c1 m1
    /\ md5Update (P := toy_platform) c1 [7] m1 = Done c1' m1'
    /\ ctx_totalSize c1' <> ctx_totalSize c1.
Proof.
  destruct (@no_post_finalize_lockout toy_platform demo_context idle_machine
              [7]) as ((c1 & m1 & c1' & m1' & Hfin & Hupd & _ & Hne) & _).
  - simpl. lia.
  - simpl. lia.
  - reflexivity.
  - discriminate.
  - simpl. lia.
  - exists c1, m1, c1', m1'. split; [exact Hfin|]. split; [exact Hupd|].
    exact Hne.
Defined.

(** C5 as stated fails: after [md5Final], an update with one byte is
    accepted (the call completes, no error is raised) and the session
    changes: the byte is buffered and counted. *)
Lemma post_finalize_update_counterexample :
  exists c m c' m',
    md5Final (P := toy_platform) demo_context idle_machine = Done c m
    /\ md5Update (P := toy_platform) c [7] m = Done c' m'
    /\ ctx_size c = 56 /\ ctx_size c' = 57
    /\ ctx_totalSize c = 56 /\ ctx_totalSize c' = 57
    /\ nth 56 (ctx_buffer c') 0 = 7
    /\ c' <> c.
Proof.
  eexists _, _, _, _.
  split; [vm_compute; reflexivity|].
  split; [vm_compute; reflexivity|].
  repeat split; discriminate.
Qed.

Lemma create_attempts_app l1 l2 :
  create_attempts (l1 ++ l2) = (create_attempts l1 + create_attempts l2)%nat.
Proof.
  induction l1 as [|c l1 IH]; [done|]. destruct c; simpl; by rewrite ?IH.
Qed.

Lemma wait_ready_ok k : forall fuel mx en rs os cs,
  (k <= fuel)%nat ->
  exists cs',
    wait_ready fuel
      {| os_mutexes_left := os; msp432e4CryptoMutex := mx; ccm_enabled := en;
         ccm_resets := rs; ccm_not_ready := k; calls := cs |}
    = Some {| os_mutexes_left := os; msp432e4CryptoMutex := mx;
              ccm_enabled := en; ccm_resets := rs; ccm_not_ready := O;
              calls := cs ++ cs' |}
    /\ create_attempts cs' = O.
Proof.
  induction k as [|k IH]; intros fuel mx en rs os cs Hle.
  - exists [CallPeripheralReady]. destruct fuel; done.
  - destruct fuel as [|fuel]; [lia|].
    destruct (IH fuel mx en rs os (cs ++ [CallPeripheralReady]))
      as (cs' & Hrun & Hcount); [lia|].
    exists (CallPeripheralReady :: cs'). cbn [wait_ready].
    unfold SysCtlPeripheralReady; cbn [ccm_not_ready negb].
    cbn [os_mutexes_left msp432e4CryptoMutex ccm_enabled ccm_resets calls].
    rewrite Hrun. by rewrite <- app_assoc.
Qed.

(** C8.  Init failure reporting: [msp432e4CryptoInit] returns; it returns
    [ERROR_OUT_OF_RESOURCES] exactly when the creation of the mutex fails
    and [NO_ERROR] exactly when it succeeds; the creation is attempted
    once, a failure is returned as it is, and in that case the peripheral
    is not touched. *)
Theorem init_failure_reporting (b : Board) :
  exists error b',
    msp432e4CryptoInit b = Some (error, b')
    /\ (error = ERROR_OUT_OF_RESOURCES <-> (osCreateMutex b).1 = false)
    /\ (error = NO_ERROR <-> (osCreateMutex b).1 = true)
    /\ create_attempts (calls b') = S (create_attempts (calls b))
    /\ (error = ERROR_OUT_OF_RESOURCES ->
        calls b' = calls b ++ [CallCreateMutex]).
Proof.
  destruct b as [os mx en rs nr cs].
  unfold msp432e4CryptoInit, osCreateMutex; cbn [os_mutexes_left].
  destruct os as [|os]; cbn [negb error_is_set fst snd].
  - eexists _, _. split; [reflexivity|].
    cbn [calls fst]. rewrite create_attempts_app. simpl.
    repeat split; try done; lia.
  - cbn [ccm_not_ready SysCtlPeripheralReset SysCtlPeripheralEnable].
    destruct (wait_ready_ok nr nr true true (S rs) os
                (((cs ++ [CallCreateMutex]) ++ [CallPeripheralEnable])
                 ++ [CallPeripheralReset]) (Nat.le_refl _))
      as (cs' & Hrun & Hcount).
    unfold SysCtlPeripheralReset, SysCtlPeripheralEnable;
      cbn [os_mutexes_left msp432e4CryptoMutex ccm_enabled ccm_resets
           ccm_not_ready calls].
    rewrite Hrun. eexists _, _. split; [reflexivity|].
    cbn [calls fst]. rewrite !create_attempts_app, Hcount. simpl.
    repeat split; try done; lia.
Qed.

Lemma init_failure_reporting_witness :
  exists b', msp432e4CryptoInit exhausted_board
             = Some (ERROR_OUT_OF_RESOURCES, b').
Proof.
  destruct (init_failure_reporting exhausted_board)
    as (error & b' & Hrun & Hfail & _).
  exists b'. rewrite Hrun. f_equal. f_equal. apply Hfail. reflexivity.
Defined.

Section Exclusion.
Context {P : Platform}.

Lemma replay_snoc l : forall h0 h x,
  replay h0 l = Some h -> replay h0 (l ++ [x]) = replay h [x].
Proof.
  induction l as [|[i e] l IH]; intros h0 h x Hl.
  - simpl in Hl. by injection Hl as ->.
  - cbn [app replay] in *.
    destruct e, h0 as [j|]; try discriminate;
      try (destruct (i =? j)%nat; [|discriminate]); by apply IH.
Qed.

Lemma inside_head e rest :
  inside (e :: rest) ->
  (e = EvRelease /\ at_rest rest)
  \/ (is_access e = true /\ inside rest).
Proof.
  intros (body & sections & Heq & Hbody & Hsections).
  destruct body as [|b body]; simpl in Heq.
  - injection Heq as -> ->. left. split; [done|]. by exists sections.
  - injection Heq as -> ->. simpl in Hbody.
    apply andb_prop in Hbody as [Hb Hbody]. right. split; [done|].
    by exists body, sections.
Qed.

Lemma at_rest_head e rest :
  at_rest (e :: rest) -> e = EvAcquire /\ inside rest.
Proof.
  intros (sections & Heq & Hsections).
  destruct Hsections as [|p sections (body & -> & Hbody) Hsections];
    [discriminate|].
  cbn [concat app] in Heq. injection Heq as -> ->. split; [done|].
  exists body, sections. by rewrite <- app_assoc.
Qed.

Lemma sys_exec_inv i s : sys_inv s -> sys_inv (sys_exec i s).
Proof.
  intros Hs. pose proof Hs as [Hlog Hctx]. unfold sys_exec.
  destruct (contexts s !! i) as [[|e rest]|] eqn:Hi; try done.
  assert (Hlen : (i < length (contexts s))%nat) by (by eapply lookup_lt_Some).
  destruct (Hctx i _ Hi) as [Hin Hout].
  assert (Hupd : forall h',
    (h' = Some i -> inside rest) ->
    (h' <> Some i -> at_rest rest) ->
    (forall j, j <> i -> h' <> Some j -> holder s <> Some j) ->
    (forall j, j <> i -> h' = Some j -> holder s = Some j) ->
    forall j t, <[i := rest]> (contexts s) !! j = Some t ->
      (h' = Some j -> inside t) /\ (h' <> Some j -> at_rest t)).
  { intros h' Hi1 Hi2 Ho1 Ho2 j t Hj.
    destruct (decide (j = i)) as [-> | Hne].
    - rewrite list_lookup_insert_eq in Hj by done. injection Hj as <-. done.
    - rewrite list_lookup_insert_ne in Hj by done.
      destruct (Hctx j t Hj) as [Hjin Hjout]. split.
      + intros Hh. apply Hjin. by apply Ho2.
      + intros Hh. apply Hjout. by apply Ho1. }
  destruct (decide (holder s = Some i)) as [Hheld | Hfree].
  - (* context i holds the mutex *)
    destruct (inside_head _ _ (Hin Hheld)) as [[-> Hrest] | [Hacc Hrest]].
    + split; cbn [holder contexts engine_log].
      * rewrite (replay_snoc _ _ _ _ Hlog), Hheld. simpl.
        by rewrite Nat.eqb_refl.
      * apply Hupd; try done.
        intros j Hne _ Hj. rewrite Hheld in Hj. by injection Hj as ->.
    + rewrite Hheld.
      destruct e; try discriminate.
      * split; cbn [holder contexts engine_log].
        -- rewrite (replay_snoc _ _ _ _ Hlog), Hheld. simpl.
           by rewrite Nat.eqb_refl.
        -- apply Hupd; try done.
           ++ intros j Hne Hj. by rewrite Hheld.
           ++ intros j Hne Hj. by rewrite Hheld.
      * split; cbn [holder contexts engine_log].
        -- rewrite (replay_snoc _ _ _ _ Hlog), Hheld. simpl.
           by rewrite Nat.eqb_refl.
        -- apply Hupd; try done.
           ++ intros j Hne Hj. by rewrite Hheld.
           ++ intros j Hne Hj. by rewrite Hheld.
  - (* context i does not hold the mutex *)
    destruct (at_rest_head _ _ (Hout Hfree)) as [-> Hrest].
    destruct (holder s) as [k|] eqn:Hk; [exact Hs|].
    split; cbn [holder contexts engine_log].
    + by rewrite (replay_snoc _ _ _ _ Hlog).
    + apply Hupd; try done.
      intros j Hne Hj. injection Hj as ->. done.
Qed.

Lemma run_schedule_inv schedule : forall s,
  sys_inv s -> sys_inv (run_schedule schedule s).
Proof.
  induction schedule as [|i schedule IH]; intros s Hs; [done|].
  apply IH. by apply sys_exec_inv.
Qed.

Lemma at_rest_not_critical t :
  at_rest t -> in_critical_section t = false.
Proof.
  intros (sections & -> & Hsections).
  destruct Hsections as [|p sections (body & -> & _) _]; done.
Qed.

Lemma at_rest_app t1 t2 : at_rest t1 -> at_rest t2 -> at_rest (t1 ++ t2).
Proof.
  intros (s1 & -> & H1) (s2 & -> & H2). exists (s1 ++ s2).
  split; [by rewrite concat_app | by apply Forall_app].
Qed.

Lemma forallb_access_input evs :
  forallb is_input_event evs = true -> forallb is_access evs = true.
Proof.
  induction evs as [|e evs IH]; [done|]. simpl.
  intros [He Hevs]%andb_prop. rewrite IH by done.
  destruct e as [| |r v|r v]; try done.
Qed.

Lemma forallb_access_restore n : forall i h,
  forallb is_access (restore_events n i h) = true.
Proof. induction n as [|n IH]; intros i h; simpl; [done | apply IH]. Qed.

Lemma forallb_access_save n : forall i regs,
  forallb is_access (save_events n i regs) = true.
Proof. induction n as [|n IH]; intros i regs; simpl; [done | apply IH]. Qed.

(** The accesses of one invocation are one critical section. *)
Lemma run_events_bracketed algo h hLen mid regs' :
  forallb is_input_event mid = true ->
  bracketed (run_events algo h hLen mid regs').
Proof.
  intros Hmid. unfold run_events.
  exists ([EvWrite R_CTRL (Z.lor HASH_CTRL_DTYPE_8B algo);
           EvRead R_CTRL (Z.lor HASH_CTRL_DTYPE_8B algo);
           EvWrite R_CTRL (run_ctrl algo)]
          ++ restore_events hLen 0 h ++ mid ++ save_events hLen 0 regs').
  split.
  - cbn [app]. do 4 f_equal. by rewrite <- !app_assoc.
  - cbn [app forallb is_access is_mutex_event negb andb].
    rewrite !forallb_app, forallb_access_restore, forallb_access_save,
      (forallb_access_input _ Hmid). reflexivity.
Qed.

Lemma hashProcessData_bracketed algo data len h hLen m :
  apm32f4xxCryptoMutex m = false ->
  bracketed (accesses (hashProcessData algo data len h hLen) m).
Proof.
  intros Hfree. unfold accesses.
  destruct (hashProcessData_run algo data len h hLen m Hfree)
    as (b & mid & Hrun & Hmid & _).
  rewrite Hrun. cbn [mk trace]. rewrite drop_app_length.
  by apply run_events_bracketed.
Qed.

(** The accesses of an update call are a sequence of critical sections,
    one for each invocation of the block engine. *)
Lemma update_loop_sections algo hLen N :
  forall data context m fuel context' m',
  (length data <= N)%nat ->
  0 <= ctx_size context < 64 ->
  apm32f4xxCryptoMutex m = false ->
  update_loop fuel algo hLen context data m = Done context' m' ->
  exists sections,
    trace m' = trace m ++ concat sections /\ Forall bracketed sections.
Proof.
  induction N as [|N IH]; intros data context m fuel context' m'
    HN Hsize Hfree Hrun.
  - destruct data; [|simpl in HN; lia].
    rewrite update_loop_nil in Hrun. injection Hrun as <- <-.
    exists []. by rewrite app_nil_r.
  - destruct (decide (data = [])) as [-> | Hne].
    { rewrite update_loop_nil in Hrun. injection Hrun as <- <-.
      exists []. by rewrite app_nil_r. }
    assert (Hpos : 0 < Z.of_nat (length data)).
    { destruct data; [done | simpl; lia]. }
    destruct fuel as [|fuel].
    { cbn [update_loop] in Hrun.
      destruct (Z.ltb_spec 0 (Z.of_nat (length data))); [discriminate | lia]. }
    set (len := Z.of_nat (length data)) in *.
    destruct (decide (ctx_size context = 0 /\ 64 <= len)) as [[Hz Hge] | Hnd].
    + destruct (iteration_direct algo hLen context data m Hz Hge Hfree)
        as (b & mid & Hit & _ & Hmid & _).
      fold len in Hit.
      assert (Hn : 64 <= len - len mod 64).
      { pose proof (Z.div_mod len 64).
        assert (1 <= len / 64) by (apply Z.div_le_lower_bound; lia). lia. }
      rewrite (update_loop_step _ _ _ _ _ _ _ _ _ Hne Hit) in Hrun.
      eapply IH in Hrun; [| rewrite length_drop; unfold len in *; lia
                          | simpl; lia | reflexivity].
      destruct Hrun as (sections & Htrace & Hsections).
      eexists (_ :: sections). cbn [concat].
      split; [rewrite Htrace; cbn [mk trace]; by rewrite <- app_assoc|].
      constructor; [by apply run_events_bracketed | done].
    + destruct (Z.lt_ge_cases (ctx_size context + len) 64) as [Hroom | Hfill].
      * pose proof (iteration_buffer_partial algo hLen context data m
                      Hsize Hroom) as Hit.
        rewrite (update_loop_step _ _ _ _ _ _ _ _ _ Hne Hit) in Hrun.
        rewrite update_loop_nil in Hrun. injection Hrun as <- <-.
        exists []. by rewrite app_nil_r.
      * destruct (iteration_buffer_flush algo hLen context data m
                    Hsize Hnd Hfill Hfree) as (b & mid & Hit & _ & Hmid & _).
        rewrite (update_loop_step _ _ _ _ _ _ _ _ _ Hne Hit) in Hrun.
        eapply IH in Hrun; [| rewrite length_drop; unfold len in *; lia
                            | simpl; lia | reflexivity].
        destruct Hrun as (sections & Htrace & Hsections).
        eexists (_ :: sections). cbn [concat].
        split; [rewrite Htrace; cbn [mk trace]; by rewrite <- app_assoc|].
        constructor; [by apply run_events_bracketed | done].
Qed.

Lemma update_at_rest algo hLen context data m :
  0 <= ctx_size context < 64 ->
  apm32f4xxCryptoMutex m = false ->
  at_rest (accesses (update_loop (S (length data)) algo hLen context data) m).
Proof.
  intros Hsize Hfree. unfold accesses.
  destruct (update_loop (S (length data)) algo hLen context data m)
    as [c' m'|] eqn:Hrun; [|by exists []].
  destruct (update_loop_sections algo hLen (length data) data context m _ c' m'
              (Nat.le_refl _) Hsize Hfree Hrun) as (sections & -> & Hsections).
  rewrite drop_app_length. by exists sections.
Qed.

Lemma job_at_rest jm : job_ok jm -> at_rest (job_accesses jm).
Proof.
  destruct jm as [[algo data len h hLen | context data | context data] m];
    intros [Hfree Hjob]; cbn [fst snd] in *; unfold job_accesses; cbn [fst snd].
  - exists [accesses (hashProcessData algo data len h hLen) m].
    split; [cbn [concat]; by rewrite app_nil_r|].
    constructor; [by apply hashProcessData_bracketed | done].
  - exact (update_at_rest HASH_CTRL_ALGSEL_MD5
             (Z.to_nat (MD5_DIGEST_SIZE / 4)) context data m Hjob Hfree).
  - exact (update_at_rest HASH_CTRL_ALGSEL_SHA1
             (Z.to_nat (SHA1_DIGEST_SIZE / 4)) context data m Hjob Hfree).
Qed.

Lemma context_at_rest jobs :
  Forall job_ok jobs -> at_rest (context_accesses jobs).
Proof.
  unfold context_accesses.
  induction 1 as [|jm jobs Hjm _ IH]; [by exists []|].
  cbn [map concat]. apply at_rest_app; [by apply job_at_rest | done].
Qed.

(** C6.  Engine exclusivity: every invocation of [hashProcessData]
    acquires the mutex before its first register access and releases it
    after its last one; and however the scheduler interleaves the
    contexts, each of which runs invocations and update calls of its own
    sessions, the log of accesses respects the mutex discipline (between
    an acquire and the matching release every access comes from the
    context that acquired, and no access lies outside a critical section)
    and no two contexts are in a critical section at the same time. *)
Theorem engine_exclusivity (sessions : list (list (Job * Machine)))
    (schedule : list nat) :
  Forall (Forall job_ok) sessions ->
  let s := run_schedule schedule
             {| holder := None;
                contexts := map context_accesses sessions;
                engine_log := [] |} in
  (forall algo data len h hLen m,
     apm32f4xxCryptoMutex m = false ->
     exists body,
       accesses (hashProcessData algo data len h hLen) m
       = EvAcquire :: body ++ [EvRelease]
       /\ forallb is_access body = true)
  /\ exclusive (engine_log s) = true
  /\ (forall i j ti tj,
        contexts s !! i = Some ti -> contexts s !! j = Some tj ->
        in_critical_section ti = true -> in_critical_section tj = true ->
        i = j).
Proof.
  intros Hok s.
  split; [intros; by apply hashProcessData_bracketed|].
  assert (Hinv : sys_inv s).
  { apply run_schedule_inv. split; [done|].
    cbn [contexts holder]. intros i t Hi. split; [done|]. intros _.
    rewrite list_lookup_fmap in Hi.
    destruct (sessions !! i) as [jobs|] eqn:Hjobs; [|done].
    injection Hi as <-. apply context_at_rest.
    rewrite Forall_lookup in Hok. by apply (Hok i jobs). }
  destruct Hinv as [Hlog Hctx]. split.
  - unfold exclusive. by rewrite Hlog.
  - intros i j ti tj Hi Hj Hci Hcj.
    destruct (Hctx i ti Hi) as [_ Hiout].
    destruct (Hctx j tj Hj) as [_ Hjout].
    destruct (decide (holder s = Some i)) as [Hhi | Hhi].
    + destruct (decide (holder s = Some j)) as [Hhj | Hhj].
      * rewrite Hhi in Hhj. by injection Hhj.
      * rewrite (at_rest_not_critical tj (Hjout Hhj)) in Hcj. discriminate.
    + rewrite (at_rest_not_critical ti (Hiout Hhi)) in Hci. discriminate.
Qed.

End Exclusion.

Lemma engine_exclusivity_witness :
  exclusive
    (engine_log
       (run_schedule alternating_schedule
          {| holder := None;
             contexts := map (context_accesses (P := toy_platform))
                           two_sessions;
             engine_log := [] |})) = true.
Proof.
  refine (proj1 (proj2 (@engine_exclusivity toy_platform two_sessions
                          alternating_schedule _))).
  repeat constructor; simpl; lia.
Defined.

(** Under that schedule the critical sections of the two contexts
    alternate: the second context gets the engine between the two
    invocations of the first. *)
Example alternating_run :
  let s := run_schedule alternating_schedule
             {| holder := None;
                contexts := map (context_accesses (P := toy_platform))
                              two_sessions;
                engine_log := [] |} in
  contexts s = [[]; []]
  /\ holder s = None
  /\ map fst (engine_log s)
     = replicate 38 0%nat ++ replicate 41 1%nat ++ replicate 38 0%nat.
Proof. vm_compute. repeat split. Qed.

Section EngineMore.
Context {P : Platform}.

Lemma bind_Done_inv {A B} (c : M A) (k : A -> M B) m b m' :
  bind c k m = Done b m' ->
  exists a m1, c m = Done a m1 /\ k a m1 = Done b m'.
Proof.
  unfold bind. destruct (c m) as [a m1|f]; [|discriminate].
  intros H. by exists a, m1.
Qed.

Lemma bind_ext {A B} (c : M A) (k k' : A -> M B) m :
  (forall a m1, k a m1 = k' a m1) -> bind c k m = bind c k' m.
Proof. intros H. unfold bind. destruct (c m); [apply H | done]. Qed.

Lemma machine_eq m :
  m = mk (apm32f4xxCryptoMutex m) (CTRL (HASH m)) (CTSWAP (HASH m))
         (INFIFO (HASH m)) (busy (HASH m)) (trace m).
Proof. by destruct m as [mx [c regs fifo b] tr]. Qed.

Lemma indata_words_app tr1 tr2 :
  indata_words (tr1 ++ tr2) = indata_words tr1 ++ indata_words tr2.
Proof.
  induction tr1 as [|e tr1 IH]; [done|].
  destruct e as [| |[]|]; simpl; by rewrite ?IH.
Qed.

Lemma indata_words_restore n : forall i h,
  indata_words (restore_events n i h) = [].
Proof. induction n as [|n IH]; intros i h; simpl; [done | apply IH]. Qed.

Lemma indata_words_save n : forall i regs,
  indata_words (save_events n i regs) = [].
Proof. induction n as [|n IH]; intros i regs; simpl; [done | apply IH]. Qed.

Lemma reg_write_Done r v m a m' :
  reg_write r v m = Done a m' ->
  trace m' = trace m ++ [EvWrite r v]
  /\ apm32f4xxCryptoMutex m' = apm32f4xxCryptoMutex m.
Proof. unfold reg_write. intros [= _ <-]. done. Qed.

Lemma reg_read_Done r m v m' :
  reg_read r m = Done v m' ->
  trace m' = trace m ++ [EvRead r v]
  /\ apm32f4xxCryptoMutex m' = apm32f4xxCryptoMutex m.
Proof.
  unfold reg_read. destruct (hw_read r (HASH m)) as [v0 hw].
  intros [= <- <-]. done.
Qed.

Lemma poll_BUSY_words fuel : forall m a m',
  poll_BUSY fuel m = Done a m' ->
  indata_words (trace m') = indata_words (trace m).
Proof.
  induction fuel as [|fuel IH]; intros m a m' Hrun; cbn [poll_BUSY] in Hrun;
    apply bind_Done_inv in Hrun as (sts & m1 & Hread & Hrun);
    apply reg_read_Done in Hread as [Htr _];
    destruct (Z.land sts HASH_STS_BUSY =? 0).
  - injection Hrun as _ <-. rewrite Htr, indata_words_app. simpl.
    by rewrite app_nil_r.
  - discriminate.
  - injection Hrun as _ <-. rewrite Htr, indata_words_app. simpl.
    by rewrite app_nil_r.
  - apply IH in Hrun. rewrite Hrun, Htr, indata_words_app. simpl.
    by rewrite app_nil_r.
Qed.

Lemma write_rest_words k : forall p m a m',
  write_rest k p m = Done a m' ->
  indata_words (trace m') = indata_words (trace m) ++ words k p.
Proof.
  induction k as [|k IH]; intros p m a m' Hrun; cbn [write_rest words] in *.
  - injection Hrun as _ <-. by rewrite app_nil_r.
  - apply bind_Done_inv in Hrun as (u & m1 & Hw & Hrun).
    apply reg_write_Done in Hw as [Htr _].
    apply IH in Hrun. rewrite Hrun, Htr, indata_words_app. simpl.
    by rewrite <- app_assoc.
Qed.

Lemma to_nat_div64_succ len :
  64 <= len -> Z.to_nat (len / 64) = S (Z.to_nat ((len - 64) / 64)).
Proof.
  intros Hge. replace len with ((len - 64) + 1 * 64) at 1 by lia.
  rewrite Z.div_add by lia.
  assert (0 <= (len - 64) / 64) by (apply Z.div_pos; lia). lia.
Qed.

Lemma to_nat_div64_zero len : len < 64 -> Z.to_nat (len / 64) = O.
Proof.
  intros Hlt. destruct (Z.lt_ge_cases len 0).
  - assert (len / 64 < 0) by (apply Z.div_lt_upper_bound; lia). lia.
  - rewrite Z.div_small; lia.
Qed.

Lemma feed_blocks_words fuel : forall data len m a m',
  feed_blocks fuel data len m = Done a m' ->
  indata_words (trace m')
  = indata_words (trace m) ++ concat (data_blocks (Z.to_nat (len / 64)) data).
Proof.
  induction fuel as [|fuel IH]; intros data len m a m' Hrun;
    cbn [feed_blocks] in Hrun;
    destruct (Z.leb_spec 64 len) as [Hge | Hlt]; try discriminate.
  - injection Hrun as _ <-. rewrite to_nat_div64_zero by done.
    by rewrite app_nil_r.
  - apply bind_Done_inv in Hrun as (u1 & m1 & Hw & Hrun).
    apply reg_write_Done in Hw as [Htr1 _].
    apply bind_Done_inv in Hrun as (u2 & m2 & Hp & Hrun).
    apply poll_BUSY_words in Hp.
    apply bind_Done_inv in Hrun as (u3 & m3 & Hr & Hrun).
    apply write_rest_words in Hr.
    apply IH in Hrun.
    rewrite Hrun, Hr, Hp, Htr1, indata_words_app.
    rewrite (to_nat_div64_succ len) by done. cbn [data_blocks concat words].
    simpl (indata_words [_]). rewrite <- !app_assoc. reflexivity.
  - injection Hrun as _ <-. rewrite to_nat_div64_zero by done.
    by rewrite app_nil_r.
Qed.

Lemma hashProcessData_words algo data len h hLen m h' m' :
  hashProcessData algo data len h hLen m = Done h' m' ->
  indata_words (trace m')
  = indata_words (trace m)
    ++ concat (data_blocks (Z.to_nat (len / 64)) data) ++ [0].
Proof.
  intros Hrun. unfold hashProcessData in Hrun.
  apply bind_Done_inv in Hrun as (u0 & m0 & Hacq & Hrun).
  assert (Ht0 : trace m0 = trace m ++ [EvAcquire]).
  { unfold osAcquireMutex in Hacq.
    destruct (apm32f4xxCryptoMutex m); [discriminate|].
    by injection Hacq as _ <-. }
  apply bind_Done_inv in Hrun as (u1 & m1 & Hw1 & Hrun).
  apply reg_write_Done in Hw1 as [Ht1 _].
  apply bind_Done_inv in Hrun as (c & m2 & Hr & Hrun).
  apply reg_read_Done in Hr as [Ht2 _].
  apply bind_Done_inv in Hrun as (u3 & m3 & Hw3 & Hrun).
  apply reg_write_Done in Hw3 as [Ht3 _].
  apply bind_Done_inv in Hrun as (u4 & m4 & Hres & Hrun).
  assert (Ht4 : trace m4 = trace m3 ++ restore_events hLen 0 h).
  { rewrite (machine_eq m3) in Hres. rewrite restore_hash_run in Hres.
    by injection Hres as _ <-. }
  apply bind_Done_inv in Hrun as (u5 & m5 & Hfeed & Hrun).
  apply feed_blocks_words in Hfeed.
  apply bind_Done_inv in Hrun as (u6 & m6 & Hw6 & Hrun).
  apply reg_write_Done in Hw6 as [Ht6 _].
  apply bind_Done_inv in Hrun as (u7 & m7 & Hp & Hrun).
  apply poll_BUSY_words in Hp.
  apply bind_Done_inv in Hrun as (h1 & m8 & Hsave & Hrun).
  assert (Ht8 : trace m8
                = trace m7 ++ save_events hLen 0 (CTSWAP (HASH m7))).
  { rewrite (machine_eq m7) in Hsave. rewrite save_hash_run in Hsave.
    by injection Hsave as _ <-. }
  apply bind_Done_inv in Hrun as (u9 & m9 & Hrel & Hrun).
  injection Hrun as _ <-.
  unfold osReleaseMutex in Hrel. injection Hrel as _ <-.
  cbn [trace mk].
  rewrite !indata_words_app, Ht8, indata_words_app, indata_words_save, Hp,
    Ht6, indata_words_app, Hfeed, Ht4, indata_words_app,
    indata_words_restore, Ht3, indata_words_app, Ht2, indata_words_app,
    Ht1, indata_words_app, Ht0, indata_words_app.
  simpl. rewrite !app_nil_r, <- !app_assoc. reflexivity.
Qed.

(** X1.  Order of the input: an invocation pushes to INDATA the sixteen
    words of every complete block of the data, block after block, and
    then one zero word that triggers the digest of the last block; it
    pushes nothing else, and the bytes after the last complete block are
    not pushed. *)
Theorem hashProcessData_input_order (algo : Z) (data : list Z) (len : Z)
    (h : list Z) (hLen : nat) (m : Machine) :
  apm32f4xxCryptoMutex m = false ->
  exists h' m',
    hashProcessData algo data len h hLen m = Done h' m'
    /\ indata_words (trace m')
       = indata_words (trace m)
         ++ concat (data_blocks (Z.to_nat (len / 64)) data) ++ [0].
Proof.
  intros Hfree.
  destruct (hashProcessData_run algo data len h hLen m Hfree)
    as (b & mid & Hrun & _).
  eexists _, _. split; [exact Hrun|].
  exact (hashProcessData_words _ _ _ _ _ _ _ _ Hrun).
Qed.

End EngineMore.

Section EngineResult.
Context {P : Platform}.

Lemma seed_tail_above n : forall i h t j,
  (i + n <= j)%nat -> nth j (seed_tail n i h t) 0 = nth j t 0.
Proof.
  induction n as [|n IH]; intros i h t j Hj; simpl; [done|].
  rewrite IH by lia. apply nth_insert_ne. lia.
Qed.

Lemma seed_tail_app n h t :
  length h = n -> (n <= length t)%nat ->
  seed_tail n 0 h t = h ++ drop n t.
Proof.
  intros Hh Ht. apply (nth_ext _ _ 0 0).
  - rewrite length_seed_tail, length_app, length_drop. lia.
  - intros j Hj. rewrite length_seed_tail in Hj.
    destruct (Nat.lt_ge_cases j n).
    + rewrite seed_tail_nth by lia. by rewrite app_nth1 by lia.
    + rewrite seed_tail_above by lia. rewrite app_nth2 by lia.
      rewrite Hh, nth_skipn. f_equal. lia.
Qed.

Lemma save_regs_take n h regs :
  length h = n -> (14 + n <= length regs)%nat ->
  save_regs n 0 h regs = take n (drop 14 regs).
Proof.
  intros Hh Hregs. apply (nth_ext _ _ 0 0).
  - rewrite length_save_regs, length_take, length_drop. lia.
  - intros j Hj. rewrite length_save_regs in Hj.
    rewrite save_regs_nth by lia.
    rewrite nth_take_lt by lia. by rewrite nth_skipn.
Qed.

Lemma length_tail_step c t block : length (tail_step c t block) = length t.
Proof. unfold tail_step. apply length_inserts. Qed.

Lemma length_foldl_tail_step c blocks : forall t,
  length (foldl (tail_step c) t blocks) = length t.
Proof.
  induction blocks as [|x blocks IH]; intros t; simpl; [done|].
  by rewrite IH, length_tail_step.
Qed.

(** The result of one invocation as a fold of the compression over the
    blocks, started from [h] followed by the registers above the seeded
    words. *)
Lemma hashProcessData_fold algo data len h hLen m :
  apm32f4xxCryptoMutex m = false ->
  length h = hLen -> (hLen <= 8)%nat ->
  (14 + hLen <= length (CTSWAP (HASH m)))%nat ->
  let t' := foldl (tail_step (run_ctrl algo))
              (h ++ drop (14 + hLen) (CTSWAP (HASH m)))
              (data_blocks (Z.to_nat (len / 64)) data) in
  exists b mid regs',
    hashProcessData algo data len h hLen m
    = Done (take hLen t')
        (mk false (run_ctrl algo) regs' [0] b
           (trace m ++ run_events algo h hLen mid regs'))
    /\ forallb is_input_event mid = true
    /\ regs' = run_regs algo data len h hLen (CTSWAP (HASH m))
    /\ drop 14 regs' = t'
    /\ length regs' = length (CTSWAP (HASH m)).
Proof.
  intros Hfree Hh HhLen Hregs t'.
  destruct (hashProcessData_run algo data len h hLen m Hfree)
    as (b & mid & Hrun & Hmid & _).
  set (regs' := run_regs algo data len h hLen (CTSWAP (HASH m))) in *.
  assert (Hlen : length regs' = length (CTSWAP (HASH m)))
    by apply length_run_regs.
  assert (Hdrop : drop 14 regs' = t').
  { unfold regs', run_regs, t'.
    rewrite drop14_foldl by (rewrite length_restore_regs; lia).
    rewrite drop14_restore by lia.
    rewrite seed_tail_app by (rewrite ?length_drop; lia).
    by rewrite drop_drop. }
  exists b, mid, regs'. split; [|done].
  rewrite Hrun. f_equal.
  rewrite save_regs_take by lia. by rewrite Hdrop.
Qed.

(** X2.  Result of an invocation: the returned chaining value is the first
    [hLen] words of the compression folded over the complete blocks of the
    data, started from [h] followed by the current-state registers above
    the seeded ones; the current-state bank holds that state, the mutex is
    free again and it was taken once. *)
Theorem hashProcessData_result (algo : Z) (data : list Z) (len : Z)
    (h : list Z) (hLen : nat) (m : Machine) :
  apm32f4xxCryptoMutex m = false ->
  length h = hLen -> (hLen <= 8)%nat ->
  (14 + hLen <= length (CTSWAP (HASH m)))%nat ->
  exists h' m',
    hashProcessData algo data len h hLen m = Done h' m'
    /\ h' = take hLen
              (foldl (tail_step (run_ctrl algo))
                 (h ++ drop (14 + hLen) (CTSWAP (HASH m)))
                 (data_blocks (Z.to_nat (len / 64)) data))
    /\ h' = take hLen (drop 14 (CTSWAP (HASH m')))
    /\ length h' = hLen
    /\ apm32f4xxCryptoMutex m' = false
    /\ invocations (trace m') = S (invocations (trace m)).
Proof.
  intros Hfree Hh HhLen Hregs.
  destruct (hashProcessData_fold algo data len h hLen m Hfree Hh HhLen Hregs)
    as (b & mid & regs' & Hrun & Hmid & _ & Hdrop & Hlen).
  eexists _, _. split; [exact Hrun|]. cbn [mk HASH CTSWAP trace
    apm32f4xxCryptoMutex].
  split; [done|]. split; [by rewrite Hdrop|]. split; [|split; [done|]].
  - rewrite <- Hdrop, length_take, length_drop. lia.
  - rewrite invocations_app, invocations_run by done. lia.
Qed.

Lemma cons_eq_inv {A} (x y : A) (l l' : list A) :
  x :: l = y :: l' -> x = y /\ l = l'.
Proof. by intros [= -> ->]. Qed.

Lemma write_rest_ext k : forall p p' m,
  words k p = words k p' -> write_rest k p m = write_rest k p' m.
Proof.
  induction k as [|k IH]; intros p p' m Hw; [done|].
  cbn [words] in Hw. injection Hw as Hhead Htail.
  cbn [write_rest]. rewrite Hhead. apply bind_ext. intros _ m1.
  by apply IH.
Qed.

Lemma feed_blocks_ext fuel : forall data data' len m,
  data_blocks (Z.to_nat (len / 64)) data
  = data_blocks (Z.to_nat (len / 64)) data' ->
  feed_blocks fuel data len m = feed_blocks fuel data' (len - len mod 64) m.
Proof.
  induction fuel as [|fuel IH]; intros data data' len m Hblocks;
    cbn [feed_blocks]; pose proof (Z.mod_pos_bound len 64 ltac:(lia)) as Hmod;
    pose proof (Z.div_mod len 64 ltac:(lia)) as Hdiv;
    destruct (Z.leb_spec 64 len) as [Hge | Hlt].
  - assert (0 < len / 64) by (apply Z.div_str_pos; lia).
    destruct (Z.leb_spec 64 (len - len mod 64)); [done | lia].
  - destruct (Z.leb_spec 64 (len - len mod 64)); [lia | done].
  - assert (0 < len / 64) by (apply Z.div_str_pos; lia).
    destruct (Z.leb_spec 64 (len - len mod 64)); [|lia].
    rewrite (to_nat_div64_succ len) in Hblocks by done.
    cbn [data_blocks] in Hblocks.
    apply cons_eq_inv in Hblocks as [Hfirst Hrest].
    change (words 16 data) with
      (__UNALIGNED_UINT32_READ data :: words 15 (drop 4 data)) in Hfirst.
    change (words 16 data') with
      (__UNALIGNED_UINT32_READ data' :: words 15 (drop 4 data')) in Hfirst.
    apply cons_eq_inv in Hfirst as [Hhead Htail].
    rewrite Hhead. apply bind_ext. intros _ m1.
    apply bind_ext. intros _ m2.
    unfold bind. rewrite (write_rest_ext 15 _ _ m2 Htail).
    destruct (write_rest 15 (drop 4 data') m2) as [u m3|f]; [|done].
    rewrite (IH (drop 64 data) (drop 64 data') (len - 64) m3 Hrest).
    f_equal. replace (len - 64) with (len + (-1) * 64) at 2 by lia.
    rewrite Z.mod_add by lia. lia.
  - destruct (Z.leb_spec 64 (len - len mod 64)); [lia | done].
Qed.

(** X3.  The bytes after the last complete block play no part: an
    invocation is the same computation, on every machine, as the one on
    the data cut after its last complete block. *)
Theorem hashProcessData_ignores_remainder (algo : Z) (data : list Z)
    (len : Z) (h : list Z) (hLen : nat) (m : Machine) :
  hashProcessData algo data len h hLen m
  = hashProcessData algo (take (Z.to_nat (len - len mod 64)) data)
      (len - len mod 64) h hLen m.
Proof.
  pose proof (Z.div_mod len 64 ltac:(lia)) as Hdiv.
  assert (Hq : (len - len mod 64) / 64 = len / 64).
  { replace (len - len mod 64) with (len / 64 * 64) by lia.
    apply Z.div_mul. lia. }
  unfold hashProcessData. rewrite Hq.
  apply bind_ext. intros _ m0. apply bind_ext. intros _ m1.
  apply bind_ext. intros c m2. apply bind_ext. intros _ m3.
  apply bind_ext. intros _ m4.
  unfold bind at 1 3.
  rewrite (feed_blocks_ext _ data
             (take (Z.to_nat (len - len mod 64)) data) len m4); [done|].
  symmetry. apply data_blocks_take.
  destruct (Z.lt_ge_cases (len / 64) 0); lia.
Qed.

(** X4.  Invocations compose: processing whole blocks and then, from the
    returned chaining value, more data gives the chaining value and the
    current-state registers of one invocation on the concatenation. *)
Theorem hashProcessData_compose (algo : Z) (d1 d2 : list Z) (k : nat)
    (len2 : Z) (h : list Z) (hLen : nat) (m : Machine) :
  apm32f4xxCryptoMutex m = false ->
  length h = hLen -> (hLen <= 8)%nat ->
  (14 + hLen <= length (CTSWAP (HASH m)))%nat ->
  length d1 = (64 * k)%nat -> 0 <= len2 ->
  exists h1 m1 h2 m2 m12,
    hashProcessData algo d1 (Z.of_nat (length d1)) h hLen m = Done h1 m1
    /\ hashProcessData algo d2 len2 h1 hLen m1 = Done h2 m2
    /\ hashProcessData algo (d1 ++ d2) (Z.of_nat (length d1) + len2) h hLen m
       = Done h2 m12
    /\ drop 14 (CTSWAP (HASH m2)) = drop 14 (CTSWAP (HASH m12)).
Proof.
  intros Hfree Hh HhLen Hregs Hd1 Hlen2.
  destruct (hashProcessData_fold algo d1 (Z.of_nat (length d1)) h hLen m
              Hfree Hh HhLen Hregs)
    as (b1 & mid1 & regs1 & Hrun1 & _ & _ & Hdrop1 & Hlen1).
  set (h1 := take hLen _) in Hrun1.
  set (m1 := mk false _ regs1 _ _ _) in Hrun1.
  assert (Hh1 : length h1 = hLen).
  { unfold h1. rewrite <- Hdrop1, length_take, length_drop. lia. }
  destruct (hashProcessData_fold algo d2 len2 h1 hLen m1 eq_refl Hh1 HhLen)
    as (b2 & mid2 & regs2 & Hrun2 & _ & _ & Hdrop2 & Hlen2').
  { cbn [m1 mk HASH CTSWAP]. lia. }
  destruct (hashProcessData_fold algo (d1 ++ d2) (Z.of_nat (length d1) + len2)
              h hLen m Hfree Hh HhLen Hregs)
    as (b3 & mid3 & regs3 & Hrun3 & _ & _ & Hdrop3 & Hlen3).
  assert (Hk : Z.to_nat (Z.of_nat (length d1) / 64) = k).
  { rewrite Hd1. replace (Z.of_nat (64 * k)) with (Z.of_nat k * 64) by lia.
    rewrite Z.div_mul by lia. lia. }
  assert (Hkj : Z.to_nat ((Z.of_nat (length d1) + len2) / 64)
                = (k + Z.to_nat (len2 / 64))%nat).
  { rewrite Hd1.
    replace (Z.of_nat (64 * k) + len2) with (len2 + Z.of_nat k * 64) by lia.
    rewrite Z.div_add by lia.
    assert (0 <= len2 / 64) by (apply Z.div_pos; lia). lia. }
  assert (Hseed : h1 ++ drop (14 + hLen) (CTSWAP (HASH m1)) = drop 14 regs1).
  { cbn [m1 mk HASH CTSWAP]. unfold h1. rewrite <- Hdrop1.
    rewrite <- drop_drop. apply take_drop. }
  assert (Hsame : drop 14 regs2 = drop 14 regs3).
  { rewrite Hdrop2, Hdrop3, Hseed, Hdrop1, Hk, Hkj.
    rewrite (data_blocks_split k _ d1 d2 Hd1). by rewrite foldl_app. }
  rewrite <- Hdrop2 in Hrun2. rewrite <- Hdrop3, <- Hsame in Hrun3.
  eexists _, _, _, _, _.
  split; [exact Hrun1|]. split; [exact Hrun2|]. split; [exact Hrun3|].
  exact Hsame.
Qed.

End EngineResult.

Section EngineState.
Context {P : Platform}.

Lemma restore_regs_other n : forall i h regs k,
  ~ (6 + i <= k < 6 + i + n)%nat -> ~ (14 + i <= k < 14 + i + n)%nat ->
  nth k (restore_regs n i h regs) 0 = nth k regs 0.
Proof.
  induction n as [|n IH]; intros i h regs k H6 H14; simpl; [done|].
  rewrite IH by lia. rewrite !nth_insert_ne by lia. done.
Qed.

Lemma restore_regs_seed n : forall i h regs j,
  (i <= j < i + n)%nat -> (i + n <= 8)%nat -> (6 + j < length regs)%nat ->
  nth (6 + j) (restore_regs n i h regs) 0 = nth j h 0.
Proof.
  induction n as [|n IH]; intros i h regs j Hj Hn Hlen; [lia|].
  cbn [restore_regs]. destruct (decide (j = i)) as [-> | Hne].
  - rewrite restore_regs_other by lia.
    rewrite nth_insert_ne by lia. by apply nth_insert_eq.
  - apply IH; [lia | lia |]. by rewrite !length_insert.
Qed.

Lemma digest_other c regs block k :
  (k < 14 \/ 22 <= k)%nat -> nth k (digest c regs block) 0 = nth k regs 0.
Proof.
  intros Hk. unfold digest. rewrite !nth_lookup. f_equal.
  destruct Hk as [Hk | Hk].
  - by apply list_lookup_inserts_lt.
  - apply list_lookup_inserts_ge. rewrite length_take. lia.
Qed.

Lemma foldl_digest_other c blocks : forall regs k,
  (k < 14 \/ 22 <= k)%nat ->
  nth k (foldl (digest c) regs blocks) 0 = nth k regs 0.
Proof.
  induction blocks as [|x blocks IH]; intros regs k Hk; simpl; [done|].
  rewrite IH by done. by apply digest_other.
Qed.

Lemma poll_BUSY_idle fuel : forall m a m',
  HASH_STS_BUSY <> 0 ->
  poll_BUSY fuel m = Done a m' -> busy (HASH m') = O.
Proof.
  induction fuel as [|fuel IH]; intros [mx [c regs fifo b] tr] a m' Hmask Hrun;
    cbn [poll_BUSY] in Hrun; unfold bind, reg_read in Hrun;
    cbn [HASH hw_read busy] in Hrun; destruct b as [|b];
    cbn [CTRL CTSWAP INFIFO busy apm32f4xxCryptoMutex trace] in Hrun;
    rewrite ?Z.land_0_l, ?Z.land_diag in Hrun;
    try (destruct (Z.eqb_spec HASH_STS_BUSY 0) as [Heq | _]; [done|]).
  - simpl in Hrun. by injection Hrun as _ <-.
  - discriminate.
  - simpl in Hrun. by injection Hrun as _ <-.
  - by apply IH in Hrun.
Qed.

Lemma hashProcessData_idle algo data len h hLen m h' m' :
  HASH_STS_BUSY <> 0 ->
  hashProcessData algo data len h hLen m = Done h' m' ->
  busy (HASH m') = O.
Proof.
  intros Hmask Hrun. unfold hashProcessData in Hrun.
  apply bind_Done_inv in Hrun as (u0 & m0 & _ & Hrun).
  apply bind_Done_inv in Hrun as (u1 & m1 & _ & Hrun).
  apply bind_Done_inv in Hrun as (c & m2 & _ & Hrun).
  apply bind_Done_inv in Hrun as (u3 & m3 & _ & Hrun).
  apply bind_Done_inv in Hrun as (u4 & m4 & _ & Hrun).
  apply bind_Done_inv in Hrun as (u5 & m5 & _ & Hrun).
  apply bind_Done_inv in Hrun as (u6 & m6 & _ & Hrun).
  apply bind_Done_inv in Hrun as (u7 & m7 & Hp & Hrun).
  apply poll_BUSY_idle in Hp; [|done].
  apply bind_Done_inv in Hrun as (h1 & m8 & Hsave & Hrun).
  rewrite (machine_eq m7) in Hsave. rewrite save_hash_run in Hsave.
  injection Hsave as _ <-.
  apply bind_Done_inv in Hrun as (u9 & m9 & Hrel & Hrun).
  injection Hrun as _ <-.
  unfold osReleaseMutex in Hrel. injection Hrel as _ <-. exact Hp.
Qed.

(** X5.  What an invocation leaves in the peripheral: of the context-swap
    registers only the seed bank [6 .. 6 + hLen) and the current-state
    bank [14 .. 22) are written, the seed bank holds the chaining value
    that was passed in, the control register holds the data type, the
    algorithm and the start bit, the FIFO holds the trigger word only,
    and the engine is no longer busy when the mutex is released. *)
Theorem hashProcessData_state_left (algo : Z) (data : list Z) (len : Z)
    (h : list Z) (hLen : nat) (m : Machine) :
  apm32f4xxCryptoMutex m = false ->
  (hLen <= 8)%nat ->
  (14 + hLen <= length (CTSWAP (HASH m)))%nat ->
  exists h' m',
    hashProcessData algo data len h hLen m = Done h' m'
    /\ length (CTSWAP (HASH m')) = length (CTSWAP (HASH m))
    /\ (forall k, (k < 6 \/ 6 + hLen <= k < 14 \/ 22 <= k)%nat ->
          nth k (CTSWAP (HASH m')) 0 = nth k (CTSWAP (HASH m)) 0)
    /\ (forall i, (i < hLen)%nat ->
          nth (6 + i) (CTSWAP (HASH m')) 0 = nth i h 0)
    /\ CTRL (HASH m') = run_ctrl algo
    /\ INFIFO (HASH m') = [0]
    /\ (HASH_STS_BUSY <> 0 -> busy (HASH m') = O).
Proof.
  intros Hfree HhLen Hregs.
  destruct (hashProcessData_run algo data len h hLen m Hfree)
    as (b & mid & Hrun & _).
  eexists _, _. split; [exact Hrun|].
  split; [apply length_run_regs|]. split; [|split; [|split; [done|split]]].
  - intros k Hk. cbn [mk HASH CTSWAP]. unfold run_regs.
    rewrite foldl_digest_other by lia. apply restore_regs_other; lia.
  - intros i Hi. cbn [mk HASH CTSWAP]. unfold run_regs.
    rewrite foldl_digest_other by lia. apply restore_regs_seed; lia.
  - done.
  - intros Hmask. exact (hashProcessData_idle _ _ _ _ _ _ _ _ Hmask Hrun).
Qed.

(** X6.  Less than one block: when the length is below 64 the invocation
    still takes the mutex and pushes the trigger word, but no data word;
    it returns the chaining value it was given, which it has loaded in
    the current-state bank. *)
Theorem hashProcessData_short_input (algo : Z) (data : list Z) (len : Z)
    (h : list Z) (hLen : nat) (m : Machine) :
  len < 64 ->
  apm32f4xxCryptoMutex m = false ->
  length h = hLen -> (hLen <= 8)%nat ->
  (14 + hLen <= length (CTSWAP (HASH m)))%nat ->
  exists m',
    hashProcessData algo data len h hLen m = Done h m'
    /\ indata_words (trace m') = indata_words (trace m) ++ [0]
    /\ invocations (trace m') = S (invocations (trace m))
    /\ drop 14 (CTSWAP (HASH m')) = h ++ drop (14 + hLen) (CTSWAP (HASH m)).
Proof.
  intros Hlen Hfree Hh HhLen Hregs.
  destruct (hashProcessData_fold algo data len h hLen m Hfree Hh HhLen Hregs)
    as (b & mid & regs' & Hrun & Hmid & _ & Hdrop & _).
  rewrite (to_nat_div64_zero len Hlen) in Hrun, Hdrop.
  cbn [data_blocks foldl] in Hrun, Hdrop.
  rewrite take_app_length' in Hrun by done.
  eexists. split; [exact Hrun|].
  pose proof (hashProcessData_words _ _ _ _ _ _ _ _ Hrun) as Hwords.
  rewrite (to_nat_div64_zero len Hlen) in Hwords.
  split; [exact Hwords|]. split; [|exact Hdrop].
  cbn [mk trace]. rewrite invocations_app, invocations_run by done. lia.
Qed.

End EngineState.

(** ** The single-block functions *)

Section ProcessBlock.
Context {P : Platform}.

Lemma process_block_run algo hLen buffer h m :
  apm32f4xxCryptoMutex m = false ->
  length h = hLen -> (hLen <= 8)%nat ->
  (14 + hLen <= length (CTSWAP (HASH m)))%nat ->
  exists m',
    hashProcessData algo buffer 64 h hLen m
    = Done (take hLen
              (tail_step (run_ctrl algo)
                 (h ++ drop (14 + hLen) (CTSWAP (HASH m)))
                 (words 16 buffer))) m'
    /\ indata_words (trace m')
       = indata_words (trace m) ++ words 16 buffer ++ [0]
    /\ invocations (trace m') = S (invocations (trace m))
    /\ apm32f4xxCryptoMutex m' = false.
Proof.
  intros Hfree Hh HhLen Hregs.
  destruct (hashProcessData_fold algo buffer 64 h hLen m Hfree Hh HhLen Hregs)
    as (b & mid & regs' & Hrun & Hmid & _).
  change (Z.to_nat (64 / 64)) with 1%nat in Hrun.
  cbn [data_blocks foldl] in Hrun.
  eexists. split; [exact Hrun|].
  pose proof (hashProcessData_words _ _ _ _ _ _ _ _ Hrun) as Hwords.
  change (Z.to_nat (64 / 64)) with 1%nat in Hwords.
  cbn [data_blocks concat] in Hwords. rewrite app_nil_r in Hwords.
  split; [exact Hwords|]. split; [|done].
  cbn [mk trace]. rewrite invocations_app, invocations_run by done. lia.
Qed.

(** X7.  [md5ProcessBlock] runs the engine once on the sixteen words of
    the whole buffer, however many of its bytes are pending: the new
    chaining value is the first four words of one compression step, the
    buffer, the fill level and the running total are left as they were. *)
Theorem md5ProcessBlock_one_block (context : Md5Context) (m : Machine) :
  apm32f4xxCryptoMutex m = false ->
  length (ctx_h context) = 4%nat ->
  (18 <= length (CTSWAP (HASH m)))%nat ->
  exists context' m',
    md5ProcessBlock context m = Done context' m'
    /\ ctx_h context'
       = take 4 (tail_step (run_ctrl HASH_CTRL_ALGSEL_MD5)
                   (ctx_h context ++ drop 18 (CTSWAP (HASH m)))
                   (words 16 (ctx_buffer context)))
    /\ ctx_buffer context' = ctx_buffer context
    /\ ctx_size context' = ctx_size context
    /\ ctx_totalSize context' = ctx_totalSize context
    /\ indata_words (trace m')
       = indata_words (trace m) ++ words 16 (ctx_buffer context) ++ [0]
    /\ invocations (trace m') = S (invocations (trace m))
    /\ apm32f4xxCryptoMutex m' = false.
Proof.
  intros Hfree Hh Hregs.
  destruct (process_block_run HASH_CTRL_ALGSEL_MD5 4 (ctx_buffer context)
              (ctx_h context) m Hfree Hh ltac:(lia) Hregs)
    as (m' & Hrun & Hwords & Hinv & Hfree').
  unfold md5ProcessBlock, bind.
  change (Z.to_nat (MD5_DIGEST_SIZE / 4)) with 4%nat. rewrite Hrun.
  eexists _, m'. split; [reflexivity|]. by cbn [ctx_h ctx_buffer ctx_size
    ctx_totalSize].
Qed.

(** X8.  [sha1ProcessBlock] runs the engine once on the sixteen words of
    the whole buffer: the new chaining value is the first five words of
    one compression step under the SHA-1 selection, and nothing else of
    the context changes. *)
Theorem sha1ProcessBlock_one_block (context : Sha1Context) (m : Machine) :
  apm32f4xxCryptoMutex m = false ->
  length (ctx_h context) = 5%nat ->
  (19 <= length (CTSWAP (HASH m)))%nat ->
  exists context' m',
    sha1ProcessBlock context m = Done context' m'
    /\ ctx_h context'
       = take 5 (tail_step (run_ctrl HASH_CTRL_ALGSEL_SHA1)
                   (ctx_h context ++ drop 19 (CTSWAP (HASH m)))
                   (words 16 (ctx_buffer context)))
    /\ ctx_buffer context' = ctx_buffer context
    /\ ctx_size context' = ctx_size context
    /\ ctx_totalSize context' = ctx_totalSize context
    /\ indata_words (trace m')
       = indata_words (trace m) ++ words 16 (ctx_buffer context) ++ [0]
    /\ invocations (trace m') = S (invocations (trace m))
    /\ apm32f4xxCryptoMutex m' = false.
Proof.
  intros Hfree Hh Hregs.
  destruct (process_block_run HASH_CTRL_ALGSEL_SHA1 5 (ctx_buffer context)
              (ctx_h context) m Hfree Hh ltac:(lia) Hregs)
    as (m' & Hrun & Hwords & Hinv & Hfree').
  unfold sha1ProcessBlock, bind.
  change (Z.to_nat (SHA1_DIGEST_SIZE / 4)) with 5%nat. rewrite Hrun.
  eexists _, m'. split; [reflexivity|]. by cbn [ctx_h ctx_buffer ctx_size
    ctx_totalSize].
Qed.

End ProcessBlock.

(** ** More on the update functions *)

Section UpdateMore.
Context {P : Platform}.

Lemma update_loop_short algo hLen context data m fuel :
  0 <= ctx_size context < 64 ->
  ctx_size context + Z.of_nat (length data) < 64 ->
  update_loop fuel algo hLen context data m
  = (if decide (data = []) then Done context m
     else match fuel with
          | O => Stuck LoopBound
          | S _ =>
              Done (buffered context
                      (list_inserts (Z.to_nat (ctx_size context)) data
                         (ctx_buffer context))
                      (ctx_size context + Z.of_nat (length data))
                      (Z.of_nat (length data))) m
          end).
Proof.
  intros Hsize Hfit. destruct (decide (data = [])) as [-> | Hne].
  - apply update_loop_nil.
  - destruct fuel as [|fuel].
    + destruct data; [done|]. reflexivity.
    + rewrite (update_loop_step fuel algo hLen context data m _ _ _ Hne
                 (iteration_buffer_partial algo hLen context data m Hsize Hfit)).
      apply update_loop_nil.
Qed.

(** X9.  A short update stays in software: when the pending bytes and the
    new ones do not fill the buffer, [md5Update] and [sha1Update] append
    the data to the buffer and touch neither the mutex nor the peripheral;
    they return even while another task holds the mutex. *)
Theorem update_short_stays_in_software (context : HashContext)
    (data : list Z) (m : Machine) :
  data <> [] ->
  0 <= ctx_size context < 64 ->
  ctx_size context + Z.of_nat (length data) < 64 ->
  let context' :=
    {| ctx_h := ctx_h context;
       ctx_buffer := list_inserts (Z.to_nat (ctx_size context)) data
                       (ctx_buffer context);
       ctx_size := ctx_size context + Z.of_nat (length data);
       ctx_totalSize :=
         uint64_t (ctx_totalSize context + Z.of_nat (length data)) |} in
  md5Update context data m = Done context' m
  /\ sha1Update context data m = Done context' m.
Proof.
  intros Hne Hsize Hfit context'.
  unfold md5Update, md5Update_fuel, sha1Update, sha1Update_fuel.
  rewrite !update_loop_short by done.
  by destruct (decide (data = [])).
Qed.

Lemma update_loop_empty_runs algo hLen context data m fuel :
  ctx_size context = 0 ->
  apm32f4xxCryptoMutex m = false ->
  (length data < fuel)%nat ->
  exists context' m',
    update_loop fuel algo hLen context data m = Done context' m'
    /\ invocations (trace m')
       = (invocations (trace m)
          + (if (64 <=? Z.of_nat (length data))%Z then 1 else 0))%nat.
Proof.
  intros Hsize Hfree Hfuel.
  destruct (decide (data = [])) as [-> | Hne].
  { exists context, m. rewrite update_loop_nil. simpl. split; [done | lia]. }
  destruct fuel as [|fuel]; [lia|].
  destruct (Z.leb_spec 64 (Z.of_nat (length data))) as [Hge | Hlt].
  - destruct (iteration_direct algo hLen context data m Hsize Hge Hfree)
      as (b & mid & Hit & _ & Hmid & _).
    rewrite (update_loop_step fuel algo hLen context data m _ _ _ Hne Hit).
    set (len := Z.of_nat (length data)) in *.
    pose proof (Z.mod_pos_bound len 64 ltac:(lia)) as Hmod.
    set (rest := drop (Z.to_nat (len - len mod 64)) data).
    assert (Hrest : Z.of_nat (length rest) = len mod 64).
    { unfold rest. rewrite length_drop. unfold len in *. lia. }
    set (c1 := processed _ _ _ _ _). set (m1 := mk _ _ _ _ _ _).
    assert (Hinv : invocations (trace m1) = (invocations (trace m) + 1)%nat).
    { unfold m1. cbn [mk trace].
      by rewrite invocations_app, invocations_run. }
    destruct (decide (rest = [])) as [-> | Hne'].
    + exists c1, m1. by rewrite update_loop_nil.
    + destruct fuel as [|fuel]; [unfold len in *; lia|].
      assert (Hs1 : 0 <= ctx_size c1 < 64)
        by (unfold c1; cbn [processed ctx_size]; lia).
      assert (Hfit : ctx_size c1 + Z.of_nat (length rest) < 64)
        by (unfold c1; cbn [processed ctx_size]; lia).
      rewrite (update_loop_step fuel algo hLen c1 rest m1 _ _ _ Hne'
                 (iteration_buffer_partial algo hLen c1 rest m1 Hs1 Hfit)).
      rewrite update_loop_nil. by eexists _, m1.
  - assert (Hs : 0 <= ctx_size context < 64) by lia.
    assert (Hfit : ctx_size context + Z.of_nat (length data) < 64) by lia.
    rewrite (update_loop_step fuel algo hLen context data m _ _ _ Hne
               (iteration_buffer_partial algo hLen context data m Hs Hfit)).
    rewrite update_loop_nil. eexists _, m. split; [done | lia].
Qed.

Lemma update_loop_runs algo hLen context data m fuel :
  0 <= ctx_size context < 64 ->
  apm32f4xxCryptoMutex m = false ->
  (length data < fuel)%nat ->
  exists context' m',
    update_loop fuel algo hLen context data m = Done context' m'
    /\ invocations (trace m')
       = (invocations (trace m)
          + (if (ctx_size context + Z.of_nat (length data) <? 64)%Z then 0
             else if ((ctx_size context =? 0)
                      || (ctx_size context + Z.of_nat (length data) <? 128))%Z
                  then 1 else 2))%nat.
Proof.
  intros Hsize Hfree Hfuel.
  set (len := Z.of_nat (length data)).
  destruct (Z.eqb_spec (ctx_size context) 0) as [Hzero | Hpos].
  { destruct (update_loop_empty_runs algo hLen context data m fuel Hzero Hfree
                Hfuel) as (c' & m' & Hrun & Hinv).
    exists c', m'. split; [done|]. rewrite Hinv, Hzero. fold len. cbn [orb].
    destruct (Z.leb_spec 64 len), (Z.ltb_spec (0 + len) 64); lia. }
  cbn [orb].
  destruct (Z.ltb_spec (ctx_size context + len) 64) as [Hfit | Hfill].
  - destruct (decide (data = [])) as [-> | Hne].
    { exists context, m. rewrite update_loop_nil. split; [done | lia]. }
    destruct fuel as [|fuel]; [lia|].
    rewrite (update_loop_step fuel algo hLen context data m _ _ _ Hne
               (iteration_buffer_partial algo hLen context data m Hsize Hfit)).
    rewrite update_loop_nil. eexists _, m. split; [done | lia].
  - assert (Hne : data <> []).
    { intros ->. unfold len in Hfill. simpl in Hfill. lia. }
    destruct fuel as [|fuel]; [lia|].
    destruct (iteration_buffer_flush algo hLen context data m Hsize
                ltac:(lia) Hfill Hfree) as (b & mid & Hit & _ & Hmid & _).
    rewrite (update_loop_step fuel algo hLen context data m _ _ _ Hne Hit).
    set (rest := drop (Z.to_nat (64 - ctx_size context)) data).
    assert (Hrest : Z.of_nat (length rest) = len - (64 - ctx_size context)).
    { unfold rest. rewrite length_drop. unfold len in *. lia. }
    set (c1 := processed _ _ _ _ _). set (m1 := mk _ _ _ _ _ _).
    assert (Hinv : invocations (trace m1) = (invocations (trace m) + 1)%nat).
    { unfold m1. cbn [mk trace].
      by rewrite invocations_app, invocations_run. }
    destruct (update_loop_empty_runs algo hLen c1 rest m1 fuel eq_refl eq_refl)
      as (c' & m' & Hrun & Hinv'); [unfold len in *; lia|].
    exists c', m'. split; [done|]. rewrite Hinv', Hinv, Hrest.
    destruct (Z.leb_spec 64 (len - (64 - ctx_size context))),
      (Z.ltb_spec (ctx_size context + len) 128); lia.
Qed.

(** X10.  Cost of an update in engine runs: a call of [md5Update] or
    [sha1Update] takes the mutex and runs the engine not at all when the
    data fits in the buffer, once when it starts on an empty buffer or
    fills the buffer without leaving a whole block, and twice otherwise;
    never more than twice, whatever the length of the data. *)
Theorem update_engine_runs (context : HashContext) (data : list Z)
    (m : Machine) :
  0 <= ctx_size context < 64 ->
  apm32f4xxCryptoMutex m = false ->
  let runs :=
    if ctx_size context + Z.of_nat (length data) <? 64 then 0%nat
    else if (ctx_size context =? 0)
            || (ctx_size context + Z.of_nat (length data) <? 128)
         then 1%nat else 2%nat in
  (exists context' m',
     md5Update context data m = Done context' m'
     /\ invocations (trace m') = (invocations (trace m) + runs)%nat)
  /\ (exists context' m',
        sha1Update context data m = Done context' m'
        /\ invocations (trace m') = (invocations (trace m) + runs)%nat).
Proof.
  intros Hsize Hfree runs. split.
  - exact (update_loop_runs HASH_CTRL_ALGSEL_MD5
             (Z.to_nat (MD5_DIGEST_SIZE / 4)) context data m
             (S (length data)) Hsize Hfree ltac:(lia)).
  - exact (update_loop_runs HASH_CTRL_ALGSEL_SHA1
             (Z.to_nat (SHA1_DIGEST_SIZE / 4)) context data m
             (S (length data)) Hsize Hfree ltac:(lia)).
Qed.

End UpdateMore.

Section UpdateStream.
Context {P : Platform}.

Lemma update_loop_stream algo hLen context data m :
  well_formed hLen context m ->
  exists context' m',
    update_loop (S (length data)) algo hLen context data m = Done context' m'
    /\ well_formed hLen context' m'
    /\ ctx_h context'
       = take hLen
           (foldl (tail_step (run_ctrl algo))
              (ctx_h context ++ drop (14 + hLen) (CTSWAP (HASH m)))
              (data_blocks (nblocks (pending context ++ data))
                 (pending context ++ data)))
    /\ pending context'
       = drop (64 * nblocks (pending context ++ data))
           (pending context ++ data).
Proof.
  intros Hwf.
  pose proof Hwf as (Hfree & Hregs & Hh & HhLen & Hsize & Hbuf & Htot).
  destruct (update_ok algo hLen context data m Hsize Hfree)
    as (c' & m' & Hrun & _).
  specialize (Hrun (S (length data)) ltac:(lia)).
  destruct (update_loop_view algo hLen (length data) data context m _ c' m'
              (Nat.le_refl _) Hwf Hrun) as (Hwf' & Hview).
  exists c', m'. split; [done|]. split; [done|].
  pose proof Hwf' as (_ & Hregs' & Hh' & _).
  unfold stream_update in Hview. injection Hview as Hview Hpend.
  split; [|done].
  unfold engine_view in Hview.
  rewrite !seed_tail_app in Hview by (rewrite ?length_drop; lia).
  rewrite !drop_drop in Hview. rewrite <- Hview.
  by rewrite take_app_length'.
Qed.

(** X11.  What [md5Update] computes: from a well-formed session the call
    returns, keeps the session well formed, leaves as chaining value the
    first four words of the compression folded over the complete blocks
    of the pending bytes followed by the data, and leaves exactly the
    bytes after the last complete block pending. *)
Theorem md5Update_stream (context : Md5Context) (data : list Z)
    (m : Machine) :
  well_formed 4 context m ->
  exists context' m',
    md5Update context data m = Done context' m'
    /\ well_formed 4 context' m'
    /\ ctx_h context'
       = take 4
           (foldl (tail_step (run_ctrl HASH_CTRL_ALGSEL_MD5))
              (ctx_h context ++ drop 18 (CTSWAP (HASH m)))
              (data_blocks (nblocks (pending context ++ data))
                 (pending context ++ data)))
    /\ pending context'
       = drop (64 * nblocks (pending context ++ data))
           (pending context ++ data).
Proof.
  intros Hwf.
  exact (update_loop_stream HASH_CTRL_ALGSEL_MD5 4 context data m Hwf).
Qed.

(** X12.  What [sha1Update] computes: the same as [md5Update] with five
    words of chaining value and the SHA-1 selection of the engine. *)
Theorem sha1Update_stream (context : Sha1Context) (data : list Z)
    (m : Machine) :
  well_formed 5 context m ->
  exists context' m',
    sha1Update context data m = Done context' m'
    /\ well_formed 5 context' m'
    /\ ctx_h context'
       = take 5
           (foldl (tail_step (run_ctrl HASH_CTRL_ALGSEL_SHA1))
              (ctx_h context ++ drop 19 (CTSWAP (HASH m)))
              (data_blocks (nblocks (pending context ++ data))
                 (pending context ++ data)))
    /\ pending context'
       = drop (64 * nblocks (pending context ++ data))
           (pending context ++ data).
Proof.
  intros Hwf.
  exact (update_loop_stream HASH_CTRL_ALGSEL_SHA1 5 context data m Hwf).
Qed.

End UpdateStream.

(** ** Independence from the state of the peripheral *)

Section Isolation.
Context {P : Platform}.

Lemma lookup_inserts_0 (K t : list Z) i :
  list_inserts 0 K t !! i
  = match t !! i with
    | None => None
    | Some x => Some (default x (K !! i))
    end.
Proof.
  destruct (decide (i < length K)%nat) as [HK | HK].
  - destruct (decide (i < length t)%nat) as [Ht | Ht].
    + rewrite list_lookup_inserts by lia.
      destruct (lookup_lt_is_Some_2 t i Ht) as [x ->].
      destruct (lookup_lt_is_Some_2 K i HK) as [y Hy].
      by rewrite Nat.sub_0_r, Hy.
    + rewrite (lookup_ge_None_2 t) by lia.
      apply lookup_ge_None_2. rewrite length_inserts. lia.
  - rewrite list_lookup_inserts_ge by lia.
    rewrite (lookup_ge_None_2 K) by lia. by destruct (t !! i).
Qed.

Lemma take_inserts_0 n (K K' t t' : list Z) :
  take n K = take n K' -> take n t = take n t' ->
  take n (list_inserts 0 K t) = take n (list_inserts 0 K' t').
Proof.
  intros HK Ht. apply list_eq. intros i.
  destruct (decide (i < n)%nat) as [Hi | Hi].
  - rewrite !lookup_take_lt by done. rewrite !lookup_inserts_0.
    rewrite <- (lookup_take_lt t n i), <- (lookup_take_lt t' n i) by done.
    rewrite <- (lookup_take_lt K n i), <- (lookup_take_lt K' n i) by done.
    by rewrite HK, Ht.
  - by rewrite !lookup_take_ge by lia.
Qed.

Lemma tail_step_local c n t t' block :
  word_local c n -> (n <= 8)%nat -> take n t = take n t' ->
  take n (tail_step c t block) = take n (tail_step c t' block).
Proof.
  intros Hloc Hn Ht. unfold tail_step. apply take_inserts_0; [|done].
  rewrite !take_take. replace (n `min` 8)%nat with n by lia.
  apply Hloc. rewrite !take_take. by replace (n `min` 8)%nat with n by lia.
Qed.

Lemma foldl_tail_step_local c n blocks : forall t t',
  word_local c n -> (n <= 8)%nat -> take n t = take n t' ->
  take n (foldl (tail_step c) t blocks)
  = take n (foldl (tail_step c) t' blocks).
Proof.
  induction blocks as [|x blocks IH]; intros t t' Hloc Hn Ht; simpl; [done|].
  apply IH; [done | done |]. by apply tail_step_local.
Qed.

Lemma drop14_run_regs algo data len h hLen regs :
  length h = hLen -> (hLen <= 8)%nat -> (14 + hLen <= length regs)%nat ->
  drop 14 (run_regs algo data len h hLen regs)
  = foldl (tail_step (run_ctrl algo)) (h ++ drop (14 + hLen) regs)
      (data_blocks (Z.to_nat (len / 64)) data).
Proof.
  intros Hh HhLen Hregs. unfold run_regs.
  rewrite drop14_foldl by (rewrite length_restore_regs; lia).
  rewrite drop14_restore by lia.
  rewrite seed_tail_app by (rewrite ?length_drop; lia).
  by rewrite drop_drop.
Qed.

Lemma save_run_local algo data len h hLen regs1 regs2 :
  word_local (run_ctrl algo) hLen ->
  length h = hLen -> (hLen <= 8)%nat ->
  (14 + hLen <= length regs1)%nat -> (14 + hLen <= length regs2)%nat ->
  save_regs hLen 0 h (run_regs algo data len h hLen regs1)
  = save_regs hLen 0 h (run_regs algo data len h hLen regs2).
Proof.
  intros Hloc Hh HhLen Hregs1 Hregs2.
  rewrite !save_regs_take by (rewrite ?length_run_regs; lia).
  rewrite !drop14_run_regs by done.
  apply foldl_tail_step_local; [done | done |].
  by rewrite !take_app_length'.
Qed.

(** X13.  The result does not depend on what the peripheral held: when
    the compression is local to the [hLen] state words, two invocations on
    the same data and chaining value return the same chaining value,
    whatever the control register, the FIFO and the context-swap
    registers contained before. *)
Theorem hashProcessData_isolated (algo : Z) (data : list Z) (len : Z)
    (h : list Z) (hLen : nat) (m1 m2 : Machine) :
  word_local (run_ctrl algo) hLen ->
  length h = hLen -> (hLen <= 8)%nat ->
  apm32f4xxCryptoMutex m1 = false ->
  apm32f4xxCryptoMutex m2 = false ->
  (14 + hLen <= length (CTSWAP (HASH m1)))%nat ->
  (14 + hLen <= length (CTSWAP (HASH m2)))%nat ->
  exists h' m1' m2',
    hashProcessData algo data len h hLen m1 = Done h' m1'
    /\ hashProcessData algo data len h hLen m2 = Done h' m2'.
Proof.
  intros Hloc Hh HhLen Hfree1 Hfree2 Hregs1 Hregs2.
  destruct (hashProcessData_run algo data len h hLen m1 Hfree1)
    as (b1 & mid1 & Hrun1 & _).
  destruct (hashProcessData_run algo data len h hLen m2 Hfree2)
    as (b2 & mid2 & Hrun2 & _).
  rewrite (save_run_local algo data len h hLen _ (CTSWAP (HASH m2)) Hloc Hh
             HhLen Hregs1 Hregs2) in Hrun1.
  eexists _, _, _. split; [exact Hrun1 | exact Hrun2].
Qed.

Lemma update_loop_isolated algo hLen N :
  word_local (run_ctrl algo) hLen ->
  forall data context m1 m2 fuel c1 m1' c2 m2',
  (length data <= N)%nat ->
  well_formed hLen context m1 -> well_formed hLen context m2 ->
  update_loop fuel algo hLen context data m1 = Done c1 m1' ->
  update_loop fuel algo hLen context data m2 = Done c2 m2' ->
  c1 = c2.
Proof.
  intros Hloc.
  induction N as [|N IH];
    intros data context m1 m2 fuel c1 m1' c2 m2' HN Hwf1 Hwf2 Hrun1 Hrun2.
  { destruct data; [|simpl in HN; lia].
    rewrite update_loop_nil in Hrun1, Hrun2. congruence. }
  destruct (decide (data = [])) as [-> | Hne].
  { rewrite update_loop_nil in Hrun1, Hrun2. congruence. }
  pose proof Hwf1 as (Hfree1 & Hregs1 & Hh & H8 & Hsize & Hbuf & Htot).
  pose proof Hwf2 as (Hfree2 & Hregs2 & _).
  assert (Hpos : 0 < Z.of_nat (length data)).
  { destruct data; [done | simpl; lia]. }
  destruct fuel as [|fuel].
  { cbn [update_loop] in Hrun1.
    destruct (Z.ltb_spec 0 (Z.of_nat (length data))); [discriminate | lia]. }
  set (len := Z.of_nat (length data)) in *.
  destruct (decide (ctx_size context = 0 /\ 64 <= len)) as [[Hz Hge] | Hnd].
  - destruct (iteration_direct algo hLen context data m1 Hz Hge Hfree1)
      as (b1 & mid1 & Hit1 & _).
    destruct (iteration_direct algo hLen context data m2 Hz Hge Hfree2)
      as (b2 & mid2 & Hit2 & _).
    fold len in Hit1, Hit2. set (n := len - len mod 64) in *.
    assert (Hnle : 0 < n <= len).
    { unfold n. pose proof (Z.mod_pos_bound len 64).
      pose proof (Z.div_mod len 64).
      assert (1 <= len / 64) by (apply Z.div_le_lower_bound; lia). lia. }
    rewrite (update_loop_step _ _ _ _ _ _ _ _ _ Hne Hit1) in Hrun1.
    rewrite (update_loop_step _ _ _ _ _ _ _ _ _ Hne Hit2) in Hrun2.
    pose proof (well_formed_run algo data n hLen context m1
                  (ctx_size context) (ctx_buffer context) n b1
                  (trace m1 ++ run_events algo (ctx_h context) hLen mid1
                     (run_regs algo data n (ctx_h context) hLen
                        (CTSWAP (HASH m1))))
                  Hwf1 Hsize Hbuf) as Hwf1'.
    pose proof (well_formed_run algo data n hLen context m2
                  (ctx_size context) (ctx_buffer context) n b2
                  (trace m2 ++ run_events algo (ctx_h context) hLen mid2
                     (run_regs algo data n (ctx_h context) hLen
                        (CTSWAP (HASH m2))))
                  Hwf2 Hsize Hbuf) as Hwf2'.
    rewrite (save_run_local algo data n (ctx_h context) hLen
               (CTSWAP (HASH m1)) (CTSWAP (HASH m2)) Hloc Hh H8)
      in Hrun1, Hwf1' by lia.
    refine (IH _ _ _ _ _ _ _ _ _ _ Hwf1' Hwf2' Hrun1 Hrun2).
    rewrite length_drop. unfold len in *. lia.
  - destruct (Z.lt_ge_cases (ctx_size context + len) 64) as [Hroom | Hfill].
    + pose proof (iteration_buffer_partial algo hLen context data m1
                    Hsize Hroom) as Hit1.
      pose proof (iteration_buffer_partial algo hLen context data m2
                    Hsize Hroom) as Hit2.
      rewrite (update_loop_step _ _ _ _ _ _ _ _ _ Hne Hit1) in Hrun1.
      rewrite (update_loop_step _ _ _ _ _ _ _ _ _ Hne Hit2) in Hrun2.
      rewrite update_loop_nil in Hrun1, Hrun2. congruence.
    + destruct (iteration_buffer_flush algo hLen context data m1
                  Hsize Hnd Hfill Hfree1) as (b1 & mid1 & Hit1 & _).
      destruct (iteration_buffer_flush algo hLen context data m2
                  Hsize Hnd Hfill Hfree2) as (b2 & mid2 & Hit2 & _).
      set (n := 64 - ctx_size context) in *.
      set (buffer' := list_inserts (Z.to_nat (ctx_size context))
                        (take (Z.to_nat n) data) (ctx_buffer context)) in *.
      assert (Hlb : length buffer' = 64%nat).
      { unfold buffer'. by rewrite length_inserts. }
      rewrite (update_loop_step _ _ _ _ _ _ _ _ _ Hne Hit1) in Hrun1.
      rewrite (update_loop_step _ _ _ _ _ _ _ _ _ Hne Hit2) in Hrun2.
      pose proof (well_formed_run algo buffer' 64 hLen context m1 0 buffer' n
                    b1
                    (trace m1 ++ run_events algo (ctx_h context) hLen mid1
                       (run_regs algo buffer' 64 (ctx_h context) hLen
                          (CTSWAP (HASH m1))))
                    Hwf1 ltac:(lia) Hlb) as Hwf1'.
      pose proof (well_formed_run algo buffer' 64 hLen context m2 0 buffer' n
                    b2
                    (trace m2 ++ run_events algo (ctx_h context) hLen mid2
                       (run_regs algo buffer' 64 (ctx_h context) hLen
                          (CTSWAP (HASH m2))))
                    Hwf2 ltac:(lia) Hlb) as Hwf2'.
      rewrite (save_run_local algo buffer' 64 (ctx_h context) hLen
                 (CTSWAP (HASH m1)) (CTSWAP (HASH m2)) Hloc Hh H8)
        in Hrun1, Hwf1' by lia.
      refine (IH _ _ _ _ _ _ _ _ _ _ Hwf1' Hwf2' Hrun1 Hrun2).
      rewrite length_drop. unfold len, n in *. lia.
Qed.

Lemma update_isolated algo hLen context data m1 m2 :
  word_local (run_ctrl algo) hLen ->
  well_formed hLen context m1 -> well_formed hLen context m2 ->
  exists context' m1' m2',
    update_loop (S (length data)) algo hLen context data m1
    = Done context' m1'
    /\ update_loop (S (length data)) algo hLen context data m2
       = Done context' m2'.
Proof.
  intros Hloc Hwf1 Hwf2.
  pose proof Hwf1 as (Hfree1 & _ & _ & _ & Hsize & _).
  pose proof Hwf2 as (Hfree2 & _).
  destruct (update_ok algo hLen context data m1 Hsize Hfree1)
    as (c1 & m1' & Hrun1 & _).
  destruct (update_ok algo hLen context data m2 Hsize Hfree2)
    as (c2 & m2' & Hrun2 & _).
  specialize (Hrun1 (S (length data)) ltac:(lia)).
  specialize (Hrun2 (S (length data)) ltac:(lia)).
  pose proof (update_loop_isolated algo hLen (length data) Hloc data context
                m1 m2 _ c1 m1' c2 m2' (Nat.le_refl _) Hwf1 Hwf2 Hrun1 Hrun2)
    as <-.
  by exists c1, m1', m2'.
Qed.

(** X14.  Sessions are isolated from the peripheral: when the MD5
    compression is local to its four state words, [md5Update] returns
    the same context whatever the peripheral held before the call, so
    what other sessions did with the engine in between does not show. *)
Theorem md5Update_isolated (context : Md5Context) (data : list Z)
    (m1 m2 : Machine) :
  word_local (run_ctrl HASH_CTRL_ALGSEL_MD5) 4 ->
  well_formed 4 context m1 -> well_formed 4 context m2 ->
  exists context' m1' m2',
    md5Update context data m1 = Done context' m1'
    /\ md5Update context data m2 = Done context' m2'.
Proof.
  intros Hloc Hwf1 Hwf2.
  exact (update_isolated HASH_CTRL_ALGSEL_MD5 4 context data m1 m2 Hloc
           Hwf1 Hwf2).
Qed.

(** X15.  The same isolation for [sha1Update], when the SHA-1 compression
    is local to its five state words. *)
Theorem sha1Update_isolated (context : Sha1Context) (data : list Z)
    (m1 m2 : Machine) :
  word_local (run_ctrl HASH_CTRL_ALGSEL_SHA1) 5 ->
  well_formed 5 context m1 -> well_formed 5 context m2 ->
  exists context' m1' m2',
    sha1Update context data m1 = Done context' m1'
    /\ sha1Update context data m2 = Done context' m2'.
Proof.
  intros Hloc Hwf1 Hwf2.
  exact (update_isolated HASH_CTRL_ALGSEL_SHA1 5 context data m1 m2 Hloc
           Hwf1 Hwf2).
Qed.

End Isolation.

(** ** The successful path of [msp432e4CryptoInit] *)

Lemma wait_ready_calls k : forall fuel mx en rs os cs,
  (k <= fuel)%nat ->
  wait_ready fuel
    {| os_mutexes_left := os; msp432e4CryptoMutex := mx; ccm_enabled := en;
       ccm_resets := rs; ccm_not_ready := k; calls := cs |}
  = Some {| os_mutexes_left := os; msp432e4CryptoMutex := mx;
            ccm_enabled := en; ccm_resets := rs; ccm_not_ready := O;
            calls := cs ++ replicate (S k) CallPeripheralReady |}.
Proof.
  induction k as [|k IH]; intros fuel mx en rs os cs Hle.
  - destruct fuel; done.
  - destruct fuel as [|fuel]; [lia|].
    cbn [wait_ready]. unfold SysCtlPeripheralReady; cbn [ccm_not_ready negb].
    cbn [os_mutexes_left msp432e4CryptoMutex ccm_enabled ccm_resets calls].
    rewrite IH by lia. by rewrite <- app_assoc.
Qed.

(** X16.  The successful path of the initialization: when the OS can
    create the mutex, [msp432e4CryptoInit] returns [NO_ERROR] after it
    has created the mutex, enabled the CCM peripheral, reset it once and
    polled it until it reported ready, in this order and with nothing
    else; it does not return before the peripheral is ready. *)
Theorem init_success_sequence (b : Board) :
  (0 < os_mutexes_left b)%nat ->
  exists b',
    msp432e4CryptoInit b = Some (NO_ERROR, b')
    /\ calls b'
       = calls b
         ++ [CallCreateMutex; CallPeripheralEnable; CallPeripheralReset]
         ++ replicate (S (ccm_not_ready b)) CallPeripheralReady
    /\ msp432e4CryptoMutex b' = true
    /\ ccm_enabled b' = true
    /\ ccm_resets b' = S (ccm_resets b)
    /\ ccm_not_ready b' = O
    /\ S (os_mutexes_left b') = os_mutexes_left b.
Proof.
  destruct b as [os mx en rs nr cs]. cbn [os_mutexes_left]. intros Hos.
  destruct os as [|os]; [lia|].
  unfold msp432e4CryptoInit, osCreateMutex; cbn [os_mutexes_left].
  cbn [negb error_is_set].
  unfold SysCtlPeripheralReset, SysCtlPeripheralEnable;
    cbn [os_mutexes_left msp432e4CryptoMutex ccm_enabled ccm_resets
         ccm_not_ready calls].
  rewrite wait_ready_calls by lia.
  eexists. split; [reflexivity|].
  cbn [os_mutexes_left msp432e4CryptoMutex ccm_enabled ccm_resets
       ccm_not_ready calls].
  split; [|done]. by rewrite <- !app_assoc.
Qed.

Lemma toy_word_local c n : word_local (P := toy_platform) c n.
Proof.
  intros st st' block Hst. cbn [compress toy_platform]. unfold toy_compress.
  rewrite !firstn_map. by rewrite Hst.
Defined.

Lemma stale_well_formed : well_formed 4 demo_context stale_machine.
Proof.
  unfold well_formed; simpl. repeat split; try reflexivity; try lia.
Defined.

Lemma sha1_stale_well_formed : well_formed 5 sha1_demo_context stale_machine.
Proof.
  unfold well_formed; simpl. repeat split; try reflexivity; try lia.
Defined.

Lemma hashProcessData_input_order_witness :
  exists h' m',
    hashProcessData (P := toy_platform) 128 (bytes 70) 70 [1; 2; 3; 4] 4
      idle_machine = Done h' m'
    /\ indata_words (trace m') = words 16 (bytes 70) ++ [0].
Proof.
  destruct (@hashProcessData_input_order toy_platform 128 (bytes 70) 70
              [1; 2; 3; 4] 4 idle_machine eq_refl) as (h' & m' & Hrun & Hw).
  exists h', m'. split; [exact Hrun|]. rewrite Hw. reflexivity.
Defined.

Lemma hashProcessData_result_witness :
  exists h' m',
    hashProcessData (P := toy_platform) 128 (bytes 130) 130 [1; 2; 3; 4] 4
      stale_machine = Done h' m'
    /\ h' = take 4
              (foldl (tail_step (P := toy_platform) 164)
                 [1; 2; 3; 4; 7; 7; 7; 7] (data_blocks 2 (bytes 130)))
    /\ apm32f4xxCryptoMutex m' = false.
Proof.
  destruct (@hashProcessData_result toy_platform 128 (bytes 130) 130
              [1; 2; 3; 4] 4 stale_machine)
    as (h' & m' & Hrun & Hh & _ & _ & Hfree & _).
  - reflexivity.
  - reflexivity.
  - lia.
  - simpl. lia.
  - exists h', m'. split; [exact Hrun|]. split; [|exact Hfree].
    rewrite Hh. reflexivity.
Defined.

Lemma hashProcessData_compose_witness :
  exists h1 m1 h2 m2 m12,
    hashProcessData (P := toy_platform) 128 (bytes 64) 64 [1; 2; 3; 4] 4
      idle_machine = Done h1 m1
    /\ hashProcessData (P := toy_platform) 128 (bytes 70) 70 h1 4 m1
       = Done h2 m2
    /\ hashProcessData (P := toy_platform) 128 (bytes 64 ++ bytes 70) 134
         [1; 2; 3; 4] 4 idle_machine = Done h2 m12.
Proof.
  destruct (@hashProcessData_compose toy_platform 128 (bytes 64) (bytes 70)
              1 70 [1; 2; 3; 4] 4 idle_machine)
    as (h1 & m1 & h2 & m2 & m12 & Hrun1 & Hrun2 & Hrun12 & _).
  - reflexivity.
  - reflexivity.
  - lia.
  - simpl. lia.
  - reflexivity.
  - lia.
  - exists h1, m1, h2, m2, m12.
    split; [exact Hrun1|]. split; [exact Hrun2 | exact Hrun12].
Defined.

Lemma hashProcessData_state_left_witness :
  exists h' m',
    hashProcessData (P := toy_platform) 128 (bytes 70) 70 [1; 2; 3; 4] 4
      stale_machine = Done h' m'
    /\ take 14 (CTSWAP (HASH m')) = [7; 7; 7; 7; 7; 7; 1; 2; 3; 4; 7; 7; 7; 7]
    /\ nth 22 (CTSWAP (HASH m')) 0 = 7
    /\ CTRL (HASH m') = 164
    /\ busy (HASH m') = O.
Proof.
  destruct (@hashProcessData_state_left toy_platform 128 (bytes 70) 70
              [1; 2; 3; 4] 4 stale_machine)
    as (h' & m' & Hrun & Hlen & Hframe & Hseed & Hctrl & _ & Hidle).
  - reflexivity.
  - lia.
  - simpl. lia.
  - exists h', m'. split; [exact Hrun|]. split; [|split; [|split]].
    + apply (nth_ext _ _ 0 0).
      * rewrite length_take, Hlen. reflexivity.
      * intros k Hk. rewrite length_take, Hlen in Hk.
        change (length (CTSWAP (HASH stale_machine))) with 54%nat in Hk.
        rewrite nth_take_lt by lia.
        destruct (decide (6 <= k < 10)%nat) as [Hin | Hout].
        -- replace k with (6 + (k - 6))%nat by lia.
           rewrite Hseed by lia.
           assert (Hcases : (k - 6 = 0 \/ k - 6 = 1 \/ k - 6 = 2
                             \/ k - 6 = 3)%nat) by lia.
           destruct Hcases as [-> | [-> | [-> | ->]]]; reflexivity.
        -- rewrite Hframe by lia.
           assert (Hcases : (k < 6 \/ 10 <= k < 14)%nat) by lia.
           do 14 (destruct k as [|k]; [try reflexivity; lia|]). lia.
    + rewrite Hframe by lia. reflexivity.
    + rewrite Hctrl. reflexivity.
    + apply Hidle. discriminate.
Defined.

Lemma hashProcessData_short_input_witness :
  exists m',
    hashProcessData (P := toy_platform) 128 (bytes 10) 10 [1; 2; 3; 4] 4
      idle_machine = Done [1; 2; 3; 4] m'
    /\ indata_words (trace m') = [0].
Proof.
  destruct (@hashProcessData_short_input toy_platform 128 (bytes 10) 10
              [1; 2; 3; 4] 4 idle_machine)
    as (m' & Hrun & Hw & _).
  - lia.
  - reflexivity.
  - reflexivity.
  - lia.
  - simpl. lia.
  - exists m'. split; [exact Hrun | exact Hw].
Defined.

Lemma md5ProcessBlock_one_block_witness :
  exists context' m',
    md5ProcessBlock (P := toy_platform) nearly_full_context idle_machine
    = Done context' m'
    /\ ctx_size context' = 60
    /\ invocations (trace m') = 1%nat.
Proof.
  destruct (@md5ProcessBlock_one_block toy_platform nearly_full_context
              idle_machine)
    as (c' & m' & Hrun & _ & _ & Hsize & _ & _ & Hinv & _).
  - reflexivity.
  - reflexivity.
  - simpl. lia.
  - exists c', m'. split; [exact Hrun|]. split; [exact Hsize | exact Hinv].
Defined.

Lemma sha1ProcessBlock_one_block_witness :
  exists context' m',
    sha1ProcessBlock (P := toy_platform) sha1_demo_context idle_machine
    = Done context' m'
    /\ ctx_buffer context' = replicate 64 0
    /\ invocations (trace m') = 1%nat.
Proof.
  destruct (@sha1ProcessBlock_one_block toy_platform sha1_demo_context
              idle_machine)
    as (c' & m' & Hrun & _ & Hbuf & _ & _ & _ & Hinv & _).
  - reflexivity.
  - reflexivity.
  - simpl. lia.
  - exists c', m'. split; [exact Hrun|]. split; [exact Hbuf | exact Hinv].
Defined.

Lemma update_short_stays_in_software_witness :
  md5Update (P := toy_platform) nearly_full_context [7; 8; 9] stale_machine
  = Done {| ctx_h := [1; 2; 3; 4];
            ctx_buffer := replicate 60 0 ++ [7; 8; 9; 0];
            ctx_size := 63; ctx_totalSize := 63 |} stale_machine.
Proof.
  destruct (@update_short_stays_in_software toy_platform nearly_full_context
              [7; 8; 9] stale_machine) as (Hmd5 & _).
  - discriminate.
  - simpl. lia.
  - simpl. lia.
  - exact Hmd5.
Defined.

Lemma update_engine_runs_witness :
  exists context' m',
    md5Update (P := toy_platform) nearly_full_context (bytes 130)
      idle_machine = Done context' m'
    /\ invocations (trace m') = 2%nat.
Proof.
  destruct (@update_engine_runs toy_platform nearly_full_context (bytes 130)
              idle_machine) as ((c' & m' & Hrun & Hinv) & _).
  - simpl. lia.
  - reflexivity.
  - exists c', m'. split; [exact Hrun | exact Hinv].
Defined.

Lemma md5Update_stream_witness :
  exists context' m',
    md5Update (P := toy_platform) demo_context (bytes 130) idle_machine
    = Done context' m'
    /\ pending context' = [129; 130].
Proof.
  destruct (@md5Update_stream toy_platform demo_context (bytes 130)
              idle_machine demo_well_formed)
    as (c' & m' & Hrun & _ & _ & Hpend).
  exists c', m'. split; [exact Hrun|]. rewrite Hpend. reflexivity.
Defined.

Lemma sha1Update_stream_witness :
  exists context' m',
    sha1Update (P := toy_platform) sha1_demo_context (bytes 130) idle_machine
    = Done context' m'
    /\ pending context' = [129; 130].
Proof.
  destruct (@sha1Update_stream toy_platform sha1_demo_context (bytes 130)
              idle_machine sha1_demo_well_formed)
    as (c' & m' & Hrun & _ & _ & Hpend).
  exists c', m'. split; [exact Hrun|]. rewrite Hpend. reflexivity.
Defined.

Lemma hashProcessData_isolated_witness :
  exists h' m1' m2',
    hashProcessData (P := toy_platform) 128 (bytes 130) 130 [1; 2; 3; 4] 4
      idle_machine = Done h' m1'
    /\ hashProcessData (P := toy_platform) 128 (bytes 130) 130 [1; 2; 3; 4] 4
         stale_machine = Done h' m2'.
Proof.
  apply (@hashProcessData_isolated toy_platform 128 (bytes 130) 130
           [1; 2; 3; 4] 4 idle_machine stale_machine).
  - apply toy_word_local.
  - reflexivity.
  - lia.
  - reflexivity.
  - reflexivity.
  - simpl. lia.
  - simpl. lia.
Defined.

Lemma md5Update_isolated_witness :
  exists context' m1' m2',
    md5Update (P := toy_platform) demo_context (bytes 130) idle_machine
    = Done context' m1'
    /\ md5Update (P := toy_platform) demo_context (bytes 130) stale_machine
       = Done context' m2'.
Proof.
  exact (@md5Update_isolated toy_platform demo_context (bytes 130)
           idle_machine stale_machine (toy_word_local _ _) demo_well_formed
           stale_well_formed).
Defined.

Lemma sha1Update_isolated_witness :
  exists context' m1' m2',
    sha1Update (P := toy_platform) sha1_demo_context (bytes 130) idle_machine
    = Done context' m1'
    /\ sha1Update (P := toy_platform) sha1_demo_context (bytes 130)
         stale_machine = Done context' m2'.
Proof.
  exact (@sha1Update_isolated toy_platform sha1_demo_context (bytes 130)
           idle_machine stale_machine (toy_word_local _ _)
           sha1_demo_well_formed sha1_stale_well_formed).
Defined.

Lemma init_success_sequence_witness :
  exists b',
    msp432e4CryptoInit fresh_board = Some (NO_ERROR, b')
    /\ calls b'
       = [CallCreateMutex; CallPeripheralEnable; CallPeripheralReset;
          CallPeripheralReady; CallPeripheralReady; CallPeripheralReady;
          CallPeripheralReady].
Proof.
  destruct (init_success_sequence fresh_board) as (b' & Hrun & Hcalls & _).
  - simpl. lia.
  - exists b'. split; [exact Hrun | exact Hcalls].
Defined.
